(** * mycocotb: scheduler, triggers, tasks, deferred writes and signal handles

    A shallow embedding of the Python sources under [src/mycocotb] and the
    properties of the specification checked against it.

    Conventions of the embedding:
    - Python objects compared by identity (tasks, triggers, simulator
      handles) are natural-number identifiers into explicit stores;
    - a Python call that may raise returns a [Py.result]; stateful code is
      written in explicit state passing, the state reached being returned
      also when the call raises (mutations made before a [raise] persist);
    - [collections.OrderedDict] is an association list in insertion order;
      ordinary [dict]s keyed by identity are [gmap]s;
    - calls that leave the Python sources (simulator setters, coroutine
      bodies, done-callbacks of user code) are recorded in a trace. *)

From Stdlib Require Import ZArith QArith Qround String List Lia.
From stdpp Require Import base option list gmap strings.

Set Default Proof Using "Type".

(** ** Python exceptions and results *)

Module Py.

Inductive exn : Type :=
| RuntimeError (msg : string)
| TypeError (msg : string)
| ValueError (msg : string)
| OverflowError (msg : string)
| NameError (name : string)
| Exception (msg : string)
| InvalidStateError (msg : string)
| CancelledError (msg : option string)
| KeyError (key : string)
| AttributeError (msg : string)
| SystemExit
| KeyboardInterrupt
| UserError (tag : nat).

Inductive result (A : Type) : Type :=
| Return (a : A)
| Raise (e : exn).

Arguments Return {A} a.
Arguments Raise {A} e.

Definition is_Return {A} (r : result A) : bool :=
  match r with Return _ => true | Raise _ => false end.

#[export] Instance exn_eq_dec : EqDecision exn.
Proof. solve_decision. Defined.

End Py.

Import Py.

(** ** [collections.OrderedDict]

    Entries are kept in insertion order.  [setitem] on a key that is present
    keeps the entry where it is and replaces its value; on a fresh key it
    appends at the tail.  [popitem_first] is [popitem(last=False)]. *)

Module OrderedDict.

Section ordered_dict.
Context {K V : Type} `{EqDecision K}.

Definition t : Type := list (K * V).

Definition keys (d : t) : list K := d.*1.

(** [k in d] *)
Definition contains (k : K) (d : t) : bool := bool_decide (k ∈ keys d).

(** [d[k]] / [d.get(k)] *)
Fixpoint get (k : K) (d : t) : option V :=
  match d with
  | [] => None
  | (k', v) :: d' => if decide (k' = k) then Some v else get k d'
  end.

(** [del d[k]] and [d.pop(k)] with the value dropped.  Every use in the
    sources is guarded by [k in d], so the [KeyError] of an absent key is
    never reached; on an absent key this function returns [d]. *)
Fixpoint delitem (k : K) (d : t) : t :=
  match d with
  | [] => []
  | (k', v) :: d' => if decide (k' = k) then d' else (k', v) :: delitem k d'
  end.

(** [d[k] = v] *)
Fixpoint setitem (k : K) (v : V) (d : t) : t :=
  match d with
  | [] => [(k, v)]
  | (k', v') :: d' =>
      if decide (k' = k) then (k', v) :: d' else (k', v') :: setitem k v d'
  end.

(** [d.popitem(last=False)]; [None] stands for the [KeyError] on an empty
    dictionary. *)
Definition popitem_first (d : t) : option ((K * V) * t) :=
  match d with
  | [] => None
  | kv :: d' => Some (kv, d')
  end.

(** The representation invariant of a dictionary: no key occurs twice. *)
Definition wf (d : t) : Prop := NoDup (keys d).

End ordered_dict.

Arguments t : clear implicits.

End OrderedDict.

(** ** Identities of the objects the scheduler handles *)

(** An opaque simulator handle ([simulator.gpi_sim_hdl]).  A
    [SimHandleBase] hashes and compares by its [_handle]
    ([handle.py], [__hash__] and [__eq__]), and [SimHandle] interns one
    wrapper per simulator handle, so a handle object is identified with its
    simulator token. *)
Definition gpi_sim_hdl : Type := nat.

Record SimHandleBase : Type := { _handle : gpi_sim_hdl }.

#[export] Instance SimHandleBase_eq_dec : EqDecision SimHandleBase.
Proof. solve_decision. Defined.

Definition trigger_id : Type := nat.
Definition task_id : Type := nat.

(** [mycocotb/__init__.py]: the phase of the time step. *)
Inductive SimPhase : Type := NORMAL | READ_WRITE | READ_ONLY.

#[export] Instance SimPhase_eq_dec : EqDecision SimPhase.
Proof. solve_decision. Defined.

(** ** Python lists *)

Module PyList.

(** [l.remove(x)]: drops the first occurrence of [x]; [None] stands for the
    [ValueError] raised when there is none. *)
Fixpoint remove {A} `{EqDecision A} (x : A) (l : list A) : option (list A) :=
  match l with
  | [] => None
  | y :: l' =>
      if decide (y = x) then Some l'
      else match remove x l' with
           | Some r => Some (y :: r)
           | None => None
           end
  end.

End PyList.

(** ** [triggers.Event] *)

Module Event.

Record t : Type := {
  _pending_events : list trigger_id;
  _fired : bool
}.

(** [Event.__init__] *)
Definition init : t := {| _pending_events := []; _fired := false |}.

(** [Event._prime_trigger] *)
Definition _prime_trigger (trigger : trigger_id) (e : t) : t :=
  {| _pending_events := _pending_events e ++ [trigger]; _fired := _fired e |}.

(** [Event._unprime_trigger] *)
Definition _unprime_trigger (trigger : trigger_id) (e : t) : result t :=
  match PyList.remove trigger (_pending_events e) with
  | Some l => Return {| _pending_events := l; _fired := _fired e |}
  | None => Raise (ValueError "list.remove(x): x not in list")
  end.

(** [Event.set]: latches the flag, empties the waiter list and calls the
    callback of every trigger that was waiting, in order.  The second
    component is the list of triggers whose [_callback] is called. *)
Definition set (e : t) : t * list trigger_id :=
  ({| _pending_events := []; _fired := true |}, _pending_events e).

(** [Event.clear] *)
Definition clear (e : t) : t :=
  {| _pending_events := _pending_events e; _fired := false |}.

(** [Event.is_set] *)
Definition is_set (e : t) : bool := _fired e.

End Event.

(** ** [_write_scheduler.py] *)

Module WriteScheduler.

Section write_scheduler.

(** The write functions and their argument tuples are opaque to the write
    scheduler. *)
Context {Func Args : Type}.

(** What calling [write_func( *args )] does: [None] when the call returns,
    [Some e] when it raises [e]. *)
Variable invoke : Func → Args → option exn.

(** [handle._name], read from the simulator. *)
Variable get_name_string : gpi_sim_hdl → string.

Definition _name (handle : SimHandleBase) : string :=
  get_name_string (_handle handle).

(** Calls that leave the module. *)
Inductive effect : Type :=
| Call (func : Func) (args : Args)      (* write_func( *args ) *)
| Callback (trigger : trigger_id).      (* event._callback(event) *)

Record state : Type := {
  sim_phase : SimPhase;                                        (* mycocotb.sim_phase *)
  _write_calls : OrderedDict.t SimHandleBase (Func * Args);
  _writes_pending : Event.t;
  trace : list effect
}.

Definition run_call (func : Func) (args : Args) : result unit :=
  match invoke func args with
  | None => Return tt
  | Some e => Raise e
  end.

(** The loop of [apply_scheduled_writes]: pop the oldest entry, call it. *)
Fixpoint apply_loop (d : OrderedDict.t SimHandleBase (Func * Args))
    (tr : list effect)
  : result unit * OrderedDict.t SimHandleBase (Func * Args) * list effect :=
  match d with
  | [] => (Return tt, [], tr)
  | (_, (func, args)) :: d' =>
      match run_call func args with
      | Return _ => apply_loop d' (tr ++ [Call func args])
      | Raise e => (Raise e, d', tr ++ [Call func args])
      end
  end.

Definition apply_scheduled_writes (st : state) : result unit * state :=
  match apply_loop (_write_calls st) (trace st) with
  | (Return _, d, tr) =>
      (Return tt,
       {| sim_phase := sim_phase st;
          _write_calls := d;
          _writes_pending := Event.clear (_writes_pending st);
          trace := tr |})
  | (Raise e, d, tr) =>
      (Raise e,
       {| sim_phase := sim_phase st;
          _write_calls := d;
          _writes_pending := _writes_pending st;
          trace := tr |})
  end.

Definition read_only_message (handle : SimHandleBase) : string :=
  String.append "Write to object "
    (String.append (_name handle)
       " was scheduled during a read-only simulation phase.").

Definition schedule_write (handle : SimHandleBase) (write_func : Func)
    (args : Args) (st : state) : result unit * state :=
  match sim_phase st with
  | READ_WRITE =>
      (run_call write_func args,
       {| sim_phase := sim_phase st;
          _write_calls := _write_calls st;
          _writes_pending := _writes_pending st;
          trace := trace st ++ [Call write_func args] |})
  | READ_ONLY => (Raise (RuntimeError (read_only_message handle)), st)
  | NORMAL =>
      let d := if OrderedDict.contains handle (_write_calls st)
               then OrderedDict.delitem handle (_write_calls st)
               else _write_calls st in
      let d := OrderedDict.setitem handle (write_func, args) d in
      let '(ev, fired) := Event.set (_writes_pending st) in
      (Return tt,
       {| sim_phase := sim_phase st;
          _write_calls := d;
          _writes_pending := ev;
          trace := trace st ++ map Callback fired |})
  end.

(** [mycocotb.sim_phase = phase], the assignment [Scheduler._sim_react]
    makes before anything else. *)
Definition set_sim_phase (phase : SimPhase) (st : state) : state :=
  {| sim_phase := phase;
     _write_calls := _write_calls st;
     _writes_pending := _writes_pending st;
     trace := trace st |}.

(** The module as it is loaded: nothing pending, the event not set. *)
Definition init : state :=
  {| sim_phase := NORMAL;
     _write_calls := [];
     _writes_pending := Event.init;
     trace := [] |}.

(** A sequence of [schedule_write] calls, one after the other. *)
Definition schedule_writes
    (calls : list (SimHandleBase * (Func * Args))) (st : state) : state :=
  foldl (λ s c, (schedule_write c.1 c.2.1 c.2.2 s).2) st calls.

(** What the specification says is pending after a sequence of scheduling
    calls: for every handle only the call scheduled last, the handles in the
    order of their last scheduling. *)
Fixpoint last_scheduled (calls : list (SimHandleBase * (Func * Args)))
  : list (SimHandleBase * (Func * Args)) :=
  match calls with
  | [] => []
  | c :: calls' =>
      if bool_decide (c.1 ∈ calls'.*1) then last_scheduled calls'
      else c :: last_scheduled calls'
  end.

(** The call [apply_scheduled_writes] makes for a pending entry. *)
Definition call_of (c : SimHandleBase * (Func * Args)) : effect :=
  Call c.2.1 c.2.2.

End write_scheduler.

End WriteScheduler.

(** ** [_outcomes.py] *)

(** Python values that travel through the scheduler: results of
    coroutines, and the objects a coroutine yields. *)
Inductive pyval : Type :=
| PyNone
| PyInt (z : Z)
| PyStr (s : string)
| PyTrigger (trigger : trigger_id)
| PyTask (task : task_id)
| PyObject (address : nat).

Module Outcomes.

(** Modelled from the spec: [mycocotb/_outcomes.py] is not among the
    sources.  Section 3 and 4.A: an outcome is [Value(v)] or
    [Error(exception)]; sent into a coroutine it resumes the coroutine with
    the value or raises the error at the suspension point; [result()]
    "returns the value or re-raises the stored error". *)
Inductive Outcome : Type :=
| Value (value : pyval)
| Error (error : exn).

(** Modelled from the spec: [Outcome.get], the value or the stored error
    re-raised. *)
Definition get (o : Outcome) : result pyval :=
  match o with
  | Value v => Return v
  | Error e => Raise e
  end.

End Outcomes.

Import Outcomes.

(** ** Simulator objects ([handle.py], the classes [SimHandle] builds) *)

Module HandleObject.

Inductive handle_class : Type :=
| HierarchyObject
| ArrayObject
| LogicObject
| LogicArrayObject.

(** A handle object: the simulator token it wraps, its Python class and what
    [self._handle.get_num_elems()] answers for it. *)
Record t : Type := {
  base : SimHandleBase;
  class : handle_class;
  get_num_elems : Z
}.

(** [isinstance(obj, mycocotb.handle.LogicObject)] *)
Definition isinstance_LogicObject (obj : t) : bool :=
  match class obj with LogicObject => true | _ => false end.

(** [isinstance(obj, mycocotb.handle.ValueObjectBase)] *)
Definition isinstance_ValueObjectBase (obj : t) : bool :=
  match class obj with HierarchyObject => false | _ => true end.

End HandleObject.

(** ** [triggers.py] and the [singleton] decorator of [_utils.py] *)

Module Triggers.

Definition event_id : Type := nat.
Definition gpi_cb_hdl : Type := nat.

(** The callbacks the scheduler primes triggers with: its bound methods
    [_sim_react] and [_react]. *)
Inductive react_fn : Type := _sim_react_fn | _react_fn.

Inductive edge_type : Type := RISING | FALLING | VALUE_CHANGE.

(** The concrete trigger classes with the attributes their [__init__]
    sets. *)
Inductive trigger_kind : Type :=
| Timer (_sim_steps : Z)
| ReadOnly
| ReadWrite
| NextTimeStep
| RisingEdge (signal : HandleObject.t)
| FallingEdge (signal : HandleObject.t)
| Edge (signal : HandleObject.t)
| _Event (_parent : event_id)
| NullTrigger (name : option string)
| TaskComplete (_task : task_id).

(** [isinstance(trigger, GPITrigger)] *)
Definition is_GPITrigger (k : trigger_kind) : bool :=
  match k with
  | Timer _ | ReadOnly | ReadWrite | NextTimeStep
  | RisingEdge _ | FallingEdge _ | Edge _ => true
  | _Event _ | NullTrigger _ | TaskComplete _ => false
  end.

(** A trigger object.  [_cbhdl] is only an attribute of [GPITrigger]s and
    [_callback] only of [_Event]s; they stay [None] in the others. *)
Record Trigger : Type := {
  kind : trigger_kind;
  _primed : bool;
  _cbhdl : option gpi_cb_hdl;
  _callback : option react_fn
}.

(** The classes decorated with [@singleton]; each has its own [instance]
    cell, the [nonlocal] of the decorator. *)
Inductive singleton_class : Type := SReadOnly | SReadWrite | SNextTimeStep.

#[export] Instance singleton_class_eq_dec : EqDecision singleton_class.
Proof. solve_decision. Defined.

Definition singleton_kind (c : singleton_class) : trigger_kind :=
  match c with
  | SReadOnly => ReadOnly
  | SReadWrite => ReadWrite
  | SNextTimeStep => NextTimeStep
  end.

(** Calls into the [simulator] extension module. *)
Inductive sim_request : Type :=
| register_timed_callback (steps : Z) (cb : react_fn) (payload : trigger_id)
| register_readonly_callback (cb : react_fn) (payload : trigger_id)
| register_rwsynch_callback (cb : react_fn) (payload : trigger_id)
| register_nextstep_callback (cb : react_fn) (payload : trigger_id)
| register_value_change_callback (sig : gpi_sim_hdl) (cb : react_fn)
    (edge : edge_type) (payload : trigger_id)
| deregister (cbhdl : gpi_cb_hdl).

Record heap : Type := {
  sim_phase : SimPhase;                        (* mycocotb.sim_phase *)
  objects : gmap trigger_id Trigger;           (* the trigger objects *)
  next_id : trigger_id;                        (* next fresh identity *)
  instance : singleton_class → option trigger_id;
  events : gmap event_id Event.t;              (* the Event objects *)
  sim_calls : list sim_request                 (* calls made so far *)
}.

Definition set_objects (f : gmap trigger_id Trigger → gmap trigger_id Trigger)
    (h : heap) : heap :=
  {| sim_phase := sim_phase h; objects := f (objects h); next_id := next_id h;
     instance := instance h; events := events h; sim_calls := sim_calls h |}.

Definition set_instance (c : singleton_class) (i : trigger_id) (h : heap) : heap :=
  {| sim_phase := sim_phase h; objects := objects h; next_id := next_id h;
     instance := λ c', if decide (c' = c) then Some i else instance h c';
     events := events h; sim_calls := sim_calls h |}.

Definition set_events (f : gmap event_id Event.t → gmap event_id Event.t)
    (h : heap) : heap :=
  {| sim_phase := sim_phase h; objects := objects h; next_id := next_id h;
     instance := instance h; events := f (events h); sim_calls := sim_calls h |}.

Definition set_sim_phase (p : SimPhase) (h : heap) : heap :=
  {| sim_phase := p; objects := objects h; next_id := next_id h;
     instance := instance h; events := events h; sim_calls := sim_calls h |}.

Definition log_sim_call (r : sim_request) (h : heap) : heap :=
  {| sim_phase := sim_phase h; objects := objects h; next_id := next_id h;
     instance := instance h; events := events h;
     sim_calls := sim_calls h ++ [r] |}.

(** [object.__new__(cls)] followed by the class's [__init__]: a fresh
    object, unprimed ([Trigger.__init__]) and with no callback handle
    ([GPITrigger.__init__]). *)
Definition new_trigger (k : trigger_kind) (h : heap) : trigger_id * heap :=
  let i := next_id h in
  (i,
   {| sim_phase := sim_phase h;
      objects := <[i := {| kind := k; _primed := false; _cbhdl := None;
                           _callback := None |}]> (objects h);
      next_id := S i;
      instance := instance h; events := events h; sim_calls := sim_calls h |}).

(** [_utils.singleton]: the patched [__new__] builds and initialises the
    instance on the first call only; the patched [__init__] does nothing. *)
Definition singleton_new (c : singleton_class) (h : heap) : trigger_id * heap :=
  match instance h c with
  | None =>
      let '(i, h') := new_trigger (singleton_kind c) h in
      (i, set_instance c i h')
  | Some i => (i, h)
  end.

(** [RisingEdge.__singleton_key__] and [FallingEdge.__singleton_key__] *)
Definition scalar_singleton_key (qualname : string) (signal : HandleObject.t)
  : result HandleObject.t :=
  if negb (HandleObject.isinstance_LogicObject signal)
  then Raise (TypeError (String.append qualname " requires a scalar LogicObject."))
  else Return signal.

(** [Edge.__singleton_key__] *)
Definition Edge___singleton_key__ (signal : HandleObject.t)
  : result HandleObject.t :=
  if negb (HandleObject.isinstance_ValueObjectBase signal)
  then Raise (TypeError
    "Edge requires an object derived from ValueObjectBase which can change value.")
  else Return signal.

(** Constructor calls [cls(...)].  [_EdgeBase] and its subclasses are plain
    classes: their metaclass is the one of [Awaitable], whose [__call__] is
    [type.__call__], so a call allocates an object and runs
    [_EdgeBase.__init__]; nothing in the sources calls
    [__singleton_key__]. *)
Section construction.

(** [mycocotb.utils.get_sim_steps]; the module is not among the sources.
    The answer is the number of simulator steps, or the exception raised
    (for instance by the rounding mode ['error']). *)
Variable get_sim_steps : Q → string → string → result Z.

(** [Timer.round_mode], the class attribute. *)
Definition Timer_round_mode : string := "error".

(** [Timer.__init__]: the value of [self._sim_steps], or the exception. *)
Definition Timer___init__ (time : Q) (units : string)
    (round_mode : option string) : result Z :=
  if Qle_bool time 0
  then Raise (ValueError "Timer argument time must be positive")
  else
    let round_mode := match round_mode with
                      | None => Timer_round_mode
                      | Some m => m
                      end in
    match get_sim_steps time units round_mode with
    | Raise e => Raise e
    | Return _sim_steps =>
        if decide (_sim_steps = 0%Z) then Return 1%Z else Return _sim_steps
    end.

Inductive constructor_call : Type :=
| new_Timer (time : Q) (units : string) (round_mode : option string)
| new_ReadOnly
| new_ReadWrite
| new_NextTimeStep
| new_RisingEdge (signal : HandleObject.t)
| new_FallingEdge (signal : HandleObject.t)
| new_Edge (signal : HandleObject.t)
| new_NullTrigger (name : option string).

Definition construct (c : constructor_call) (h : heap)
  : result trigger_id * heap :=
  match c with
  | new_Timer time units round_mode =>
      match Timer___init__ time units round_mode with
      | Raise e => (Raise e, h)
      | Return steps => let '(i, h') := new_trigger (Timer steps) h in (Return i, h')
      end
  | new_ReadOnly => let '(i, h') := singleton_new SReadOnly h in (Return i, h')
  | new_ReadWrite => let '(i, h') := singleton_new SReadWrite h in (Return i, h')
  | new_NextTimeStep =>
      let '(i, h') := singleton_new SNextTimeStep h in (Return i, h')
  | new_RisingEdge signal =>
      let '(i, h') := new_trigger (RisingEdge signal) h in (Return i, h')
  | new_FallingEdge signal =>
      let '(i, h') := new_trigger (FallingEdge signal) h in (Return i, h')
  | new_Edge signal =>
      let '(i, h') := new_trigger (Edge signal) h in (Return i, h')
  | new_NullTrigger name =>
      let '(i, h') := new_trigger (NullTrigger name) h in (Return i, h')
  end.

(** A sequence of constructor calls; the results in call order. *)
Fixpoint construct_all (cs : list constructor_call) (h : heap)
  : list (result trigger_id) * heap :=
  match cs with
  | [] => ([], h)
  | c :: cs' =>
      let '(r, h') := construct c h in
      let '(rs, h'') := construct_all cs' h' in
      (r :: rs, h'')
  end.

End construction.

(** *** Priming and un-priming *)

Section priming.

(** What the simulator answers to a registration: a callback handle, or
    [None] when it refuses. *)
Variable sim_register : sim_request → option gpi_cb_hdl.

Definition update_trigger (self : trigger_id) (f : Trigger → Trigger)
    (h : heap) : heap :=
  set_objects (λ m, match m !! self with
                    | Some t => <[self := f t]> m
                    | None => m
                    end) h.

Definition set__primed (b : bool) (t : Trigger) : Trigger :=
  {| kind := kind t; _primed := b; _cbhdl := _cbhdl t; _callback := _callback t |}.

Definition set__cbhdl (c : option gpi_cb_hdl) (t : Trigger) : Trigger :=
  {| kind := kind t; _primed := _primed t; _cbhdl := c; _callback := _callback t |}.

Definition set__callback (c : option react_fn) (t : Trigger) : Trigger :=
  {| kind := kind t; _primed := _primed t; _cbhdl := _cbhdl t; _callback := c |}.

(** [Trigger._prime] *)
Definition Trigger__prime (self : trigger_id) (h : heap) : heap :=
  update_trigger self (set__primed true) h.

(** [Trigger._cleanup] *)
Definition Trigger__cleanup (self : trigger_id) (h : heap) : heap :=
  update_trigger self (set__primed false) h.

(** [GPITrigger._cleanup] *)
Definition GPITrigger__cleanup (self : trigger_id) (h : heap) : heap :=
  Trigger__cleanup self (update_trigger self (set__cbhdl None) h).

(** [trigger._cleanup()], by the class of the trigger. *)
Definition _cleanup (self : trigger_id) (h : heap) : heap :=
  match objects h !! self with
  | None => h
  | Some t =>
      if is_GPITrigger (kind t) then GPITrigger__cleanup self h
      else Trigger__cleanup self h
  end.

(** The body shared by the [_prime] methods of the simulator triggers:
    register when there is no callback handle yet, fail when the simulator
    refuses, then [Trigger._prime]. *)
Definition gpi_prime (self : trigger_id) (t : Trigger) (req : sim_request)
    (h : heap) : result unit * heap :=
  match _cbhdl t with
  | Some _ => (Return tt, Trigger__prime self h)
  | None =>
      let h := log_sim_call req h in
      match sim_register req with
      | None => (Raise (RuntimeError "Unable set up Trigger"), h)
      | Some c =>
          (Return tt, Trigger__prime self (update_trigger self (set__cbhdl (Some c)) h))
      end
  end.

(** [trigger._prime(callback)], by the class of the trigger.  [task_done]
    is [Task.done] of the tasks as they are.  The result [Some cb] says that
    the method ended by calling [cb(self)] itself ([NullTrigger], and
    [TaskComplete] of a finished task): the caller runs that call. *)
Definition _prime (task_done : task_id → bool) (self : trigger_id)
    (callback : react_fn) (h : heap) : result (option react_fn) * heap :=
  match objects h !! self with
  | None => (Return None, h)
  | Some t =>
      let gpi (req : sim_request) :=
        let '(r, h') := gpi_prime self t req h in
        (match r with Return _ => Return None | Raise e => Raise e end, h') in
      match kind t with
      | Timer steps => gpi (register_timed_callback steps callback self)
      | ReadOnly =>
          if decide (sim_phase h = READ_ONLY)
          then (Raise (RuntimeError
                  "Attempted illegal transition: awaiting ReadOnly in ReadOnly phase"), h)
          else gpi (register_readonly_callback callback self)
      | ReadWrite =>
          if decide (sim_phase h = READ_ONLY)
          then (Raise (RuntimeError
                  "Attempted illegal transition: awaiting ReadWrite in ReadOnly phase"), h)
          else gpi (register_rwsynch_callback callback self)
      | NextTimeStep => gpi (register_nextstep_callback callback self)
      | RisingEdge signal =>
          gpi (register_value_change_callback
                 (_handle (HandleObject.base signal)) callback RISING self)
      | FallingEdge signal =>
          gpi (register_value_change_callback
                 (_handle (HandleObject.base signal)) callback FALLING self)
      | Edge signal =>
          gpi (register_value_change_callback
                 (_handle (HandleObject.base signal)) callback VALUE_CHANGE self)
      | _Event parent =>
          if _primed t then (Return None, h)
          else
            let h := update_trigger self (set__callback (Some callback)) h in
            let h := set_events
                       (λ m, match m !! parent with
                             | Some e => <[parent := Event._prime_trigger self e]> m
                             | None => m
                             end) h in
            (Return None, Trigger__prime self h)
      | NullTrigger _ => (Return (Some callback), h)
      | TaskComplete task =>
          if task_done task then (Return (Some callback), h)
          else (Return None, Trigger__prime self h)
      end
  end.

(** [trigger._unprime()], by the class of the trigger. *)
Definition _unprime (self : trigger_id) (h : heap) : result unit * heap :=
  match objects h !! self with
  | None => (Return tt, h)
  | Some t =>
      match kind t with
      | _Event parent =>
          if negb (_primed t) then (Return tt, h)
          else
            match events h !! parent with
            | None => (Return tt, Trigger__cleanup self h)
            | Some e =>
                match Event._unprime_trigger self e with
                | Raise err => (Raise err, h)
                | Return e' =>
                    (Return tt,
                     Trigger__cleanup self (set_events (<[parent := e']>) h))
                end
            end
      | NullTrigger _ | TaskComplete _ => (Return tt, Trigger__cleanup self h)
      | _ =>
          (* GPITrigger._unprime *)
          let h := match _cbhdl t with
                   | Some c => log_sim_call (deregister c) h
                   | None => h
                   end in
          (Return tt, GPITrigger__cleanup self h)
      end
  end.

End priming.

(** The constructor call of a class decorated with [@singleton]. *)
Definition singleton_call (c : singleton_class) : constructor_call :=
  match c with
  | SReadOnly => new_ReadOnly
  | SReadWrite => new_ReadWrite
  | SNextTimeStep => new_NextTimeStep
  end.

(** The heap before any trigger exists. *)
Definition empty_heap : heap :=
  {| sim_phase := NORMAL; objects := ∅; next_id := 0;
     instance := λ _, None; events := ∅; sim_calls := [] |}.

End Triggers.

(** ** [task.py], [_scheduler.py] and the task functions of [__init__.py] *)

Module Scheduler.
Import Triggers.

(** [Task._State] *)
Inductive _State : Type :=
| UNSTARTED | SCHEDULED | PENDING | RUNNING | FINISHED | CANCELLED.

#[export] Instance _State_eq_dec : EqDecision _State.
Proof. solve_decision. Defined.

(** The callables registered with [Task._add_done_callback]; the sources
    register only [mycocotb._task_done_callback] (in [start_soon]). *)
Inductive callback : Type := _task_done_callback.

(** A task object.  [complete] is the cache of the [cached_property] of that
    name: [None] until the property is first read.  [_coro] is not inspected
    by the scheduler; what is recorded of it is whether [close()] was
    called. *)
Record Task : Type := {
  _state : _State;
  _outcome : option Outcome;
  _trigger : option trigger_id;
  _cancelled_error : option exn;
  _done_callbacks : list callback;
  complete : option trigger_id;
  _coro_closed : bool
}.

(** [Task.__init__] given a coroutine object. *)
Definition new_Task : Task :=
  {| _state := UNSTARTED; _outcome := None; _trigger := None;
     _cancelled_error := None; _done_callbacks := []; complete := None;
     _coro_closed := false |}.

Definition set__state (s : _State) (T : Task) : Task :=
  {| _state := s; _outcome := _outcome T; _trigger := _trigger T;
     _cancelled_error := _cancelled_error T;
     _done_callbacks := _done_callbacks T; complete := complete T;
     _coro_closed := _coro_closed T |}.

Definition set__outcome (o : option Outcome) (T : Task) : Task :=
  {| _state := _state T; _outcome := o; _trigger := _trigger T;
     _cancelled_error := _cancelled_error T;
     _done_callbacks := _done_callbacks T; complete := complete T;
     _coro_closed := _coro_closed T |}.

Definition set__trigger (t : option trigger_id) (T : Task) : Task :=
  {| _state := _state T; _outcome := _outcome T; _trigger := t;
     _cancelled_error := _cancelled_error T;
     _done_callbacks := _done_callbacks T; complete := complete T;
     _coro_closed := _coro_closed T |}.

Definition set__cancelled_error (e : option exn) (T : Task) : Task :=
  {| _state := _state T; _outcome := _outcome T; _trigger := _trigger T;
     _cancelled_error := e;
     _done_callbacks := _done_callbacks T; complete := complete T;
     _coro_closed := _coro_closed T |}.

Definition set__done_callbacks (l : list callback) (T : Task) : Task :=
  {| _state := _state T; _outcome := _outcome T; _trigger := _trigger T;
     _cancelled_error := _cancelled_error T;
     _done_callbacks := l; complete := complete T;
     _coro_closed := _coro_closed T |}.

Definition set_complete (c : option trigger_id) (T : Task) : Task :=
  {| _state := _state T; _outcome := _outcome T; _trigger := _trigger T;
     _cancelled_error := _cancelled_error T;
     _done_callbacks := _done_callbacks T; complete := c;
     _coro_closed := _coro_closed T |}.

Definition set__coro_closed (b : bool) (T : Task) : Task :=
  {| _state := _state T; _outcome := _outcome T; _trigger := _trigger T;
     _cancelled_error := _cancelled_error T;
     _done_callbacks := _done_callbacks T; complete := complete T;
     _coro_closed := b |}.

(** [Task.cancelled] *)
Definition cancelled (T : Task) : bool :=
  bool_decide (_state T = CANCELLED).

(** [Task.done] *)
Definition done (T : Task) : bool :=
  bool_decide (_state T = FINISHED ∨ _state T = CANCELLED).

(** [raise x] for an attribute that may still be [None]. *)
Definition raise_stored {A} (e : option exn) : result A :=
  match e with
  | Some e => Raise e
  | None => Raise (TypeError "exceptions must derive from BaseException")
  end.

(** [Task.result] *)
Definition result_ (T : Task) : result pyval :=
  match _state T with
  | CANCELLED => raise_stored (_cancelled_error T)
  | FINISHED =>
      match _outcome T with
      | Some o => Outcomes.get o
      | None => Raise (TypeError "'NoneType' object has no attribute 'get'")
      end
  | _ => Raise (InvalidStateError "result is not yet available")
  end.

(** [Task.exception] *)
Definition exception (T : Task) : result (option exn) :=
  match _state T with
  | CANCELLED => raise_stored (_cancelled_error T)
  | FINISHED =>
      match _outcome T with
      | Some (Error e) => Return (Some e)
      | _ => Return None
      end
  | _ => Raise (InvalidStateError "result is not yet available")
  end.

(** What is observed of the world outside the scheduler. *)
Inductive event : Type :=
| coro_send (task : task_id) (outcome : Outcome)   (* outcome.send(task._coro) *)
| coro_close (task : task_id)                       (* task._coro.close() *)
| warn_FutureWarning (task : task_id)               (* warnings.warn in cancel *)
| done_callback (cb : callback) (task : task_id)    (* callback(task) *)
| log_critical (trigger : trigger_id)               (* "No tasks waiting ..." *)
| log_error (task : task_id) (e : exn).             (* before sys.exit() *)

Record world : Type := {
  heap : Triggers.heap;
  tasks : gmap task_id Task;
  next_task : task_id;
  _trigger2tasks : gmap trigger_id (list task_id);
  _scheduled_tasks : OrderedDict.t task_id Outcome;
  _terminate : bool;
  _current_task : option task_id;
  trace : list event
}.

Definition set_heap (f : Triggers.heap → Triggers.heap) (w : world) : world :=
  {| heap := f (heap w); tasks := tasks w; next_task := next_task w;
     _trigger2tasks := _trigger2tasks w;
     _scheduled_tasks := _scheduled_tasks w; _terminate := _terminate w;
     _current_task := _current_task w; trace := trace w |}.

Definition set_tasks (f : gmap task_id Task → gmap task_id Task) (w : world)
  : world :=
  {| heap := heap w; tasks := f (tasks w); next_task := next_task w;
     _trigger2tasks := _trigger2tasks w;
     _scheduled_tasks := _scheduled_tasks w; _terminate := _terminate w;
     _current_task := _current_task w; trace := trace w |}.

Definition set__trigger2tasks
    (f : gmap trigger_id (list task_id) → gmap trigger_id (list task_id))
    (w : world) : world :=
  {| heap := heap w; tasks := tasks w; next_task := next_task w;
     _trigger2tasks := f (_trigger2tasks w);
     _scheduled_tasks := _scheduled_tasks w; _terminate := _terminate w;
     _current_task := _current_task w; trace := trace w |}.

Definition set__scheduled_tasks
    (f : OrderedDict.t task_id Outcome → OrderedDict.t task_id Outcome)
    (w : world) : world :=
  {| heap := heap w; tasks := tasks w; next_task := next_task w;
     _trigger2tasks := _trigger2tasks w;
     _scheduled_tasks := f (_scheduled_tasks w); _terminate := _terminate w;
     _current_task := _current_task w; trace := trace w |}.

Definition set__terminate (b : bool) (w : world) : world :=
  {| heap := heap w; tasks := tasks w; next_task := next_task w;
     _trigger2tasks := _trigger2tasks w;
     _scheduled_tasks := _scheduled_tasks w; _terminate := b;
     _current_task := _current_task w; trace := trace w |}.

Definition set__current_task (t : option task_id) (w : world) : world :=
  {| heap := heap w; tasks := tasks w; next_task := next_task w;
     _trigger2tasks := _trigger2tasks w;
     _scheduled_tasks := _scheduled_tasks w; _terminate := _terminate w;
     _current_task := t; trace := trace w |}.

Definition log (e : event) (w : world) : world :=
  {| heap := heap w; tasks := tasks w; next_task := next_task w;
     _trigger2tasks := _trigger2tasks w;
     _scheduled_tasks := _scheduled_tasks w; _terminate := _terminate w;
     _current_task := _current_task w; trace := trace w ++ [e] |}.

(** An attribute assignment on a task object. *)
Definition update_task (task : task_id) (f : Task → Task) (w : world) : world :=
  set_tasks (λ m, match m !! task with
                  | Some T => <[task := f T]> m
                  | None => m
                  end) w.

(** [task.done()] on the task as it is now. *)
Definition task_done (w : world) (task : task_id) : bool :=
  match tasks w !! task with
  | Some T => done T
  | None => false
  end.

(** [Scheduler._none_outcome] *)
Definition _none_outcome : Outcome := Value PyNone.

(** [Task.complete], the cached property: the first read builds the
    [TaskComplete] with [TaskComplete._make] and stores it. *)
Definition Task_complete (self : task_id) (w : world) : trigger_id * world :=
  match tasks w !! self with
  | None => (next_id (heap w), w)
  | Some T =>
      match complete T with
      | Some c => (c, w)
      | None =>
          let c := next_id (heap w) in
          (c, update_task self (set_complete (Some c))
                (set_heap (λ h, (new_trigger (TaskComplete self) h).2) w))
      end
  end.

(** [Scheduler._schedule_task] *)
Definition _schedule_task (task : task_id) (outcome : Outcome) (w : world)
  : result unit * world :=
  if OrderedDict.contains task (_scheduled_tasks w)
  then (Raise (Exception "Task was queued more than once."), w)
  else
    let w := update_task task (set__state SCHEDULED) w in
    (Return tt, set__scheduled_tasks (OrderedDict.setitem task outcome) w).

(** The loop of [Scheduler._react] over the tasks that waited. *)
Fixpoint react_loop (scheduling : list task_id) (w : world)
  : result unit * world :=
  match scheduling with
  | [] => (Return tt, w)
  | task :: rest =>
      let w := update_task task (set__trigger None) w in
      match _schedule_task task _none_outcome w with
      | (Return _, w') => react_loop rest w'
      | (Raise e, w') => (Raise e, w')
      end
  end.

Definition isinstance_GPITrigger (w : world) (trigger : trigger_id) : bool :=
  match objects (heap w) !! trigger with
  | Some t => is_GPITrigger (kind t)
  | None => false
  end.

(** [Scheduler._react] *)
Definition _react (trigger : trigger_id) (w : world) : result unit * world :=
  match _trigger2tasks w !! trigger with
  | None =>
      (Return tt,
       if isinstance_GPITrigger w trigger then log (log_critical trigger) w else w)
  | Some scheduling =>
      let w := set__trigger2tasks (delete trigger) w in
      match react_loop scheduling w with
      | (Return _, w') => (Return tt, set_heap (_cleanup trigger) w')
      | (Raise e, w') => (Raise e, w')
      end
  end.

(** The middle part of [Scheduler._unschedule]: take [task] off the waiter
    list of [trigger] and un-prime a trigger left with no waiter. *)
Definition unschedule_from_trigger (task : task_id) (trigger : trigger_id)
    (w : world) : result unit * world :=
  let w := update_task task (set__trigger None) w in
  (* self._trigger2tasks.setdefault(trigger, []) *)
  let waiting := default [] (_trigger2tasks w !! trigger) in
  let waiting := if bool_decide (task ∈ waiting)
                 then default waiting (PyList.remove task waiting)
                 else waiting in
  let w := set__trigger2tasks (<[trigger := waiting]>) w in
  match waiting with
  | [] =>
      match _unprime trigger (heap w) with
      | (Raise e, h') => (Raise e, set_heap (λ _, h') w)
      | (Return _, h') =>
          (Return tt, set__trigger2tasks (delete trigger) (set_heap (λ _, h') w))
      end
  | _ :: _ => (Return tt, w)
  end.

(** [Scheduler._unschedule] *)
Definition _unschedule (task : task_id) (w : world) : result unit * world :=
  let w := if OrderedDict.contains task (_scheduled_tasks w)
           then set__scheduled_tasks (OrderedDict.delitem task) w
           else w in
  let '(r, w) :=
    match tasks w !! task ≫= _trigger with
    | None => (Return tt, w)
    | Some trigger => unschedule_from_trigger task trigger w
    end in
  match r with
  | Raise e => (Raise e, w)
  | Return _ =>
      if _terminate w then (Return tt, w)
      else
        let '(c, w) := Task_complete task w in
        if bool_decide (is_Some (_trigger2tasks w !! c)) then _react c w
        else (Return tt, w)
  end.

(** [mycocotb._task_done_callback] *)
Definition run__task_done_callback (task : task_id) (w : world)
  : result unit * world :=
  match tasks w !! task with
  | None => (Return tt, w)
  | Some T =>
      if cancelled T then (Return tt, w)
      else
        let '(c, w) := Task_complete task w in
        if bool_decide (is_Some (_trigger2tasks w !! c)) then (Return tt, w)
        else
          match exception T with
          | Raise e => (Raise e, w)
          | Return None => (Return tt, w)
          | Return (Some e) => (Raise SystemExit, log (log_error task e) w)
          end
  end.

(** [callback(task)] *)
Definition run_callback (cb : callback) (task : task_id) (w : world)
  : result unit * world :=
  let w := log (done_callback cb task) w in
  match cb with
  | _task_done_callback => run__task_done_callback task w
  end.

Fixpoint do_callbacks (cbs : list callback) (self : task_id) (w : world)
  : result unit * world :=
  match cbs with
  | [] => (Return tt, w)
  | cb :: rest =>
      match run_callback cb self w with
      | (Return _, w') => do_callbacks rest self w'
      | (Raise e, w') => (Raise e, w')
      end
  end.

(** [Task._do_done_callbacks] *)
Definition _do_done_callbacks (self : task_id) (w : world)
  : result unit * world :=
  match tasks w !! self with
  | None => (Return tt, w)
  | Some T => do_callbacks (_done_callbacks T) self w
  end.

(** [self._coro.close()].  Python refuses to close the coroutine that is
    executing ([ValueError]); the coroutine of a task executes while the
    task is [RUNNING].  What a suspended coroutine does with the
    [GeneratorExit] thrown into it is user code and not modelled. *)
Definition close_coro (self : task_id) (w : world) : result unit * world :=
  match tasks w !! self with
  | None => (Return tt, w)
  | Some T =>
      if decide (_state T = RUNNING)
      then (Raise (ValueError "coroutine already executing"), w)
      else (Return tt,
            log (coro_close self) (update_task self (set__coro_closed true) w))
  end.

(** [Task.kill] *)
Definition kill (self : task_id) (w : world) : result unit * world :=
  if task_done w self then (Return tt, w)
  else
    let w := update_task self (set__outcome (Some (Value PyNone))) w in
    match _unschedule self w with
    | (Raise e, w) => (Raise e, w)
    | (Return _, w) =>
        match close_coro self w with
        | (Raise e, w) => (Raise e, w)
        | (Return _, w) =>
            let w := update_task self (set__state FINISHED) w in
            _do_done_callbacks self w
        end
    end.

(** [Task.cancel] *)
Definition cancel (self : task_id) (msg : option string) (w : world)
  : result unit * world :=
  if task_done w self then (Return tt, w)
  else
    let w := update_task self
               (set__cancelled_error (Some (CancelledError msg))) w in
    let w := log (warn_FutureWarning self) w in
    match _unschedule self w with
    | (Raise e, w) => (Raise e, w)
    | (Return _, w) =>
        match close_coro self w with
        | (Raise e, w) => (Raise e, w)
        | (Return _, w) =>
            let w := update_task self (set__state CANCELLED) w in
            _do_done_callbacks self w
        end
    end.

(** [Task._add_done_callback] *)
Definition _add_done_callback (self : task_id) (cb : callback) (w : world)
  : result unit * world :=
  let '(r, w) := if task_done w self then run_callback cb self w
                 else (Return tt, w) in
  match r with
  | Raise e => (Raise e, w)
  | Return _ =>
      (Return tt,
       update_task self (λ T, set__done_callbacks (_done_callbacks T ++ [cb]) T) w)
  end.

(** What [outcome.send(self._coro)] does; it is the coroutine's answer and
    an input of the model. *)
Inductive send_result : Type :=
| Yielded (value : pyval)
| StopIteration (value : pyval)
| RaisedInterrupt (e : exn)      (* KeyboardInterrupt, SystemExit *)
| Raised (e : exn).              (* any other BaseException *)

(** [Task._advance].  [remove_traceback_frames] returns the exception it is
    given ([exc.with_traceback] returns [exc]); tracebacks are not
    modelled. *)
Definition _advance (self : task_id) (outcome : Outcome) (sent : send_result)
    (w : world) : result (option pyval) * world :=
  let w := update_task self (set__state RUNNING) w in
  let w := log (coro_send self outcome) w in
  let finished (o : Outcome) : result (option pyval) * world :=
    let w := update_task self (set__outcome (Some o)) w in
    let w := update_task self (set__state FINISHED) w in
    if task_done w self then
      match _do_done_callbacks self w with
      | (Return _, w) => (Return None, w)
      | (Raise e, w) => (Raise e, w)
      end
    else (Return None, w) in
  match sent with
  | Yielded v => (Return (Some v), w)
  | StopIteration v => finished (Value v)
  | RaisedInterrupt e => (Raise e, w)
  | Raised e => finished (Error e)
  end.

(** The generator [Trigger.__await__] is [yield self; return self].  This is
    its resumption after the [yield] with the outcome the scheduler sends
    (modelled from the spec, section 4.A: a value resumes the coroutine, an
    error is raised at the suspension point). *)
Definition Trigger___await__ (self : trigger_id) (sent : Outcome)
  : result pyval :=
  match sent with
  | Value _ => Return (PyTrigger self)
  | Error e => Raise e
  end.

(** The generator [Task.__await__] is [yield self; return self.result()];
    its resumption after the [yield]. *)
Definition Task___await__ (self : task_id) (sent : Outcome) (w : world)
  : result pyval :=
  match sent with
  | Value _ =>
      match tasks w !! self with
      | Some T => result_ T
      | None => Raise (InvalidStateError "result is not yet available")
      end
  | Error e => Raise e
  end.

Section scheduling.

Variable sim_register : sim_request → option gpi_cb_hdl.

(** Is the exception caught by [except Exception]? *)
Definition is_Exception (e : exn) : bool :=
  match e with
  | SystemExit | KeyboardInterrupt => false
  | _ => true
  end.

(** [Scheduler._schedule_task_upon] *)
Definition _schedule_task_upon (task : task_id) (trigger : trigger_id)
    (w : world) : result unit * world :=
  let w := update_task task (set__trigger (Some trigger)) w in
  let w := update_task task (set__state PENDING) w in
  let trigger_tasks := default [] (_trigger2tasks w !! trigger) ++ [task] in
  let w := set__trigger2tasks (<[trigger := trigger_tasks]>) w in
  let primed := match objects (heap w) !! trigger with
                | Some t => _primed t
                | None => false
                end in
  if primed then (Return tt, w)
  else if negb (bool_decide (trigger_tasks = [task]))
  then (Raise (Exception "More than one task waiting on an unprimed trigger"), w)
  else
    let callback := if isinstance_GPITrigger w trigger
                    then _sim_react_fn else _react_fn in
    let '(r, h') := _prime sim_register (task_done w) trigger callback (heap w) in
    let w := set_heap (λ _, h') w in
    (* only NullTrigger and TaskComplete call the callback from _prime, and
       their callback is _react *)
    let '(r, w) := match r with
                   | Raise e => (Raise e, w)
                   | Return None => (Return tt, w)
                   | Return (Some _) => _react trigger w
                   end in
    match r with
    | Return _ => (Return tt, w)
    | Raise e =>
        if is_Exception e then
          (* self._trigger2tasks.pop(trigger) *)
          match _trigger2tasks w !! trigger with
          | None => (Raise (KeyError "trigger"), w)
          | Some _ =>
              _schedule_task task (Error e)
                (set__trigger2tasks (delete trigger) w)
          end
        else (Raise e, w)
    end.

(** [Scheduler._trigger_from_any] with [_trigger_from_unstarted_task] and
    [_trigger_from_started_task]. *)
Definition _trigger_from_any (result : pyval) (w : world)
  : Py.result trigger_id * world :=
  match result with
  | PyTrigger t => (Return t, w)
  | PyTask t =>
      match tasks w !! t with
      | None => (Raise (TypeError "Coroutine yielded an object the scheduler can't handle"), w)
      | Some T =>
          if decide (_state T = UNSTARTED) then
            match _schedule_task t _none_outcome w with
            | (Raise e, w) => (Raise e, w)
            | (Return _, w) => let '(c, w) := Task_complete t w in (Return c, w)
            end
          else let '(c, w) := Task_complete t w in (Return c, w)
      end
  | _ => (Raise (TypeError "Coroutine yielded an object the scheduler can't handle"), w)
  end.

Definition is_TypeError (e : exn) : bool :=
  match e with TypeError _ => true | _ => false end.

(** [Scheduler._resume_task]; [sent] is what the coroutine does when it is
    resumed.  [_pending_threads] is never filled by these sources, so its
    loop has no iteration. *)
Definition _resume_task (task : task_id) (outcome : Outcome)
    (sent : send_result) (w : world) : result unit * world :=
  match _current_task w with
  | Some _ =>
      (Raise (Exception "_schedule() called while another Task is executing"), w)
  | None =>
      let w := set__current_task (Some task) w in
      let body : result unit * world :=
        match _advance task outcome sent w with
        | (Raise e, w) => (Raise e, w)
        | (Return result, w) =>
            let '(r, w) := if task_done w task then _unschedule task w
                           else (Return tt, w) in
            match r with
            | Raise e => (Raise e, w)
            | Return _ =>
                if _terminate w then (Return tt, w)
                else if task_done w task then (Return tt, w)
                else
                  match _trigger_from_any (default PyNone result) w with
                  | (Raise exc, w) =>
                      if is_TypeError exc
                      then _schedule_task task (Error exc) w
                      else (Raise exc, w)
                  | (Return trigger, w) => _schedule_task_upon task trigger w
                  end
            end
        end in
      (* finally: self._current_task = None *)
      (body.1, set__current_task None body.2)
  end.

(** [mycocotb.create_task] of a coroutine object followed by the rest of
    [mycocotb.start_soon]. *)
Definition start_soon (w : world) : result task_id * world :=
  let task := next_task w in
  let w := {| heap := heap w; tasks := <[task := new_Task]> (tasks w);
              next_task := S task; _trigger2tasks := _trigger2tasks w;
              _scheduled_tasks := _scheduled_tasks w;
              _terminate := _terminate w; _current_task := _current_task w;
              trace := trace w |} in
  match _add_done_callback task _task_done_callback w with
  | (Raise e, w) => (Raise e, w)
  | (Return _, w) =>
      match _schedule_task task _none_outcome w with
      | (Raise e, w) => (Raise e, w)
      | (Return _, w) => (Return task, w)
      end
  end.

(** The head of the loop of [Scheduler._event_loop]:
    [self._scheduled_tasks.popitem(last=False)]. *)
Definition pop_scheduled (w : world) : option (task_id * Outcome) * world :=
  match OrderedDict.popitem_first (_scheduled_tasks w) with
  | None => (None, w)
  | Some (kv, d) => (Some kv, set__scheduled_tasks (λ _, d) w)
  end.

(** [Scheduler.shutdown_soon] *)
Definition shutdown_soon (w : world) : world := set__terminate true w.

(** The calls that reach the run queue from the simulator, from the event
    loop and from user code. *)
Inductive call : Type :=
| call__schedule_task (task : task_id) (outcome : Outcome)
| call__schedule_task_upon (task : task_id) (trigger : trigger_id)
| call__unschedule (task : task_id)
| call__react (trigger : trigger_id)
| call__resume_task (task : task_id) (outcome : Outcome) (sent : send_result)
| call__advance (task : task_id) (outcome : Outcome) (sent : send_result)
| call_pop_scheduled
| call_start_soon
| call_kill (task : task_id)
| call_cancel (task : task_id) (msg : option string)
| call_shutdown_soon.

(** The state a call leaves behind, whether it returns or raises. *)
Definition exec (c : call) (w : world) : world :=
  match c with
  | call__schedule_task task outcome => (_schedule_task task outcome w).2
  | call__schedule_task_upon task trigger => (_schedule_task_upon task trigger w).2
  | call__unschedule task => (_unschedule task w).2
  | call__react trigger => (_react trigger w).2
  | call__resume_task task outcome sent => (_resume_task task outcome sent w).2
  | call__advance task outcome sent => (_advance task outcome sent w).2
  | call_pop_scheduled => (pop_scheduled w).2
  | call_start_soon => (start_soon w).2
  | call_kill task => (kill task w).2
  | call_cancel task msg => (cancel task msg w).2
  | call_shutdown_soon => shutdown_soon w
  end.

Definition exec_all (cs : list call) (w : world) : world := foldl (λ w c, exec c w) w cs.

End scheduling.

(** [Scheduler.__init__] with no trigger and no task yet. *)
Definition init : world :=
  {| heap := Triggers.empty_heap; tasks := ∅; next_task := 0;
     _trigger2tasks := ∅; _scheduled_tasks := [];
     _terminate := false; _current_task := None; trace := [] |}.

(** *** Predicates of the specification *)

(** The run queue is a dictionary: no task is in it twice. *)
Definition queue_ok (w : world) : Prop := OrderedDict.wf (_scheduled_tasks w).

(** All attributes but the cached [complete] are the same. *)
Definition Task_same (T T' : Task) : Prop :=
  _state T' = _state T ∧ _outcome T' = _outcome T ∧ _trigger T' = _trigger T
  ∧ _cancelled_error T' = _cancelled_error T
  ∧ _done_callbacks T' = _done_callbacks T
  ∧ _coro_closed T' = _coro_closed T.

(** What [_unschedule] and [_react] keep of a task: its outcome, its
    cancellation error, its callbacks and whether its coroutine was closed;
    a task that waits on no trigger is given none; and the only state a
    task is moved to is [SCHEDULED]. *)
Definition Task_kept (T T' : Task) : Prop :=
  _outcome T' = _outcome T
  ∧ _cancelled_error T' = _cancelled_error T
  ∧ _done_callbacks T' = _done_callbacks T
  ∧ _coro_closed T' = _coro_closed T
  ∧ (_trigger T = None → _trigger T' = None)
  ∧ (_state T' = _state T ∨ _state T' = SCHEDULED).

Definition tasks_rel (R : Task → Task → Prop) (w w' : world) : Prop :=
  ∀ t T, tasks w !! t = Some T → ∃ T', tasks w' !! t = Some T' ∧ R T T'.

(** [task] is on the waiter list of some trigger. *)
Definition waiting (w : world) (task : task_id) : Prop :=
  ∃ tr l, _trigger2tasks w !! tr = Some l ∧ task ∈ l.

(** The link between a task and the waiter lists that the scheduler
    maintains: a task is only on the waiter list of the trigger its
    [_trigger] names, and there once. *)
Definition waits_on_its_trigger (w : world) (t : task_id) (T : Task) : Prop :=
  ∀ tr l, _trigger2tasks w !! tr = Some l → t ∈ l → _trigger T = Some tr ∧ NoDup l.

(** The part [kill] and [cancel] share: [_unschedule], closing the
    coroutine, the new state, the callbacks. *)
Definition terminate (t : task_id) (s : _State) (w : world) : result unit * world :=
  match _unschedule t w with
  | (Raise e, w) => (Raise e, w)
  | (Return _, w) =>
      match close_coro t w with
      | (Raise e, w) => (Raise e, w)
      | (Return _, w) => _do_done_callbacks t (update_task t (set__state s) w)
      end
  end.

(** Every waiter list is free of duplicates and holds no task of the run
    queue. *)
Definition waiters_ok (w : world) : Prop :=
  ∀ tr l, _trigger2tasks w !! tr = Some l →
    NoDup l ∧ ∀ x, x ∈ l → x ∉ OrderedDict.keys (_scheduled_tasks w).

(** What [kill] and [cancel] leave of a task that was not terminal: its new
    state [s], outcome [o] and cancellation error [ce]; the coroutine
    closed; the task in no queue and on no waiter list; and the calls made,
    [evs] and then the callbacks in registration order. *)
Definition terminated (w w' : world) (t : task_id) (T : Task) (s : _State)
    (o : option Outcome) (ce : option exn) (evs : list event) : Prop :=
  ∃ T', tasks w' !! t = Some T'
    ∧ _state T' = s ∧ _outcome T' = o ∧ _cancelled_error T' = ce
    ∧ _coro_closed T' = true ∧ _trigger T' = None
    ∧ (t ∉ OrderedDict.keys (_scheduled_tasks w'))
    ∧ ¬ waiting w' t
    ∧ trace w' = trace w ++ evs
                 ++ map (λ cb, done_callback cb t) (_done_callbacks T).

End Scheduler.

(** ** [mycocotb.utils.get_sim_steps] *)

Module Utils.

(** The power of ten of a time unit; [None] for a name that is no unit.
    ['step'] is the simulator's own precision. *)
Definition unit_exponent (precision : Z) (units : string) : option Z :=
  if String.eqb units "step" then Some precision
  else if String.eqb units "fs" then Some (-15)%Z
  else if String.eqb units "ps" then Some (-12)%Z
  else if String.eqb units "ns" then Some (-9)%Z
  else if String.eqb units "us" then Some (-6)%Z
  else if String.eqb units "ms" then Some (-3)%Z
  else if String.eqb units "sec" then Some 0%Z
  else None.

(** [10 ** e] as a rational. *)
Definition pow10 (e : Z) : Q :=
  match e with
  | Z0 => 1
  | Zpos p => inject_Z (10 ^ Zpos p)
  | Zneg p => Qmake 1 (10 ^ p)
  end.

(** Python's [round]: to the nearest integer, a tie to the even one. *)
Definition round_half_even (q : Q) : Z :=
  let f := Qfloor q in
  let r := (q - inject_Z f)%Q in
  match (r ?= 1 # 2)%Q with
  | Lt => f
  | Gt => (f + 1)%Z
  | Eq => if Z.even f then f else (f + 1)%Z
  end.

(** Modelled from the spec: [mycocotb/utils.py] is not among the sources.
    Section 4.B: "Rounding modes: error (refuse non-integer step counts),
    round, ceil, floor.  Unit step means native simulator precision; the
    implementation must convert the supplied quantity plus unit to an exact
    integer step count using the simulator-reported time precision."
    [precision] is the power of ten of the simulator's time precision. *)
Definition get_sim_steps (precision : Z) (time : Q) (units : string)
    (round_mode : string) : result Z :=
  match unit_exponent precision units with
  | None => Raise (ValueError "Invalid unit")
  | Some e =>
      let steps := (time * pow10 (e - precision))%Q in
      if String.eqb round_mode "error" then
        if Qeq_bool (inject_Z (Qfloor steps)) steps then Return (Qfloor steps)
        else Raise (ValueError "Unable to accurately represent the time with the simulator precision")
      else if String.eqb round_mode "round" then Return (round_half_even steps)
      else if String.eqb round_mode "ceil" then Return (Qceiling steps)
      else if String.eqb round_mode "floor" then Return (Qfloor steps)
      else Raise (ValueError "Invalid round_mode specifier")
  end.

End Utils.

(** ** [handle.py]: writing a value to a logic array *)

Module Handle.

(** [_Limits] *)
Inductive _Limits : Type := SIGNED_NBIT | UNSIGNED_NBIT | VECTOR_NBIT.

(** [_value_limits].  [n_bits] is the length of a simulator object, at
    least 1. *)
Definition _value_limits (n_bits : Z) (limits : _Limits) : Z * Z :=
  match limits with
  | SIGNED_NBIT => (- 2 ^ (n_bits - 1), 2 ^ (n_bits - 1) - 1)%Z
  | UNSIGNED_NBIT => (0, 2 ^ n_bits - 1)%Z
  | VECTOR_NBIT => (- 2 ^ (n_bits - 1), 2 ^ n_bits - 1)%Z
  end.

(** [_GPISetAction] *)
Inductive _GPISetAction : Type := DEPOSIT | FORCE | RELEASE | NO_DELAY.

(** The values [LogicArrayObject._set_value] tells apart by their type.  A
    [LogicArray] and a [Logic] are given by what [str(value)] is. *)
Inductive value : Type :=
| Int (v : Z)
| Str (s : string)
| LogicArray (str : string)
| Logic (str : string)
| Other.

(** The action objects of [set]/[setimmediatevalue]. *)
Inductive action_value : Type :=
| Deposit (v : value)
| Force (v : value)
| Freeze
| Release
| Plain (v : value).

(** [_map_action_obj_to_value_action_enum_pair]; [handle_value] is
    [handle.value], the value read from the simulator. *)
Definition _map_action_obj_to_value_action_enum_pair (handle_value : value)
    (v : action_value) : value * _GPISetAction :=
  match v with
  | Deposit v => (v, DEPOSIT)
  | Force v => (v, FORCE)
  | Freeze => (handle_value, FORCE)
  | Release => (handle_value, RELEASE)
  | Plain v => (v, DEPOSIT)
  end.

(** The two setters of a simulator handle. *)
Inductive setter : Type := set_signal_val_int | set_signal_val_binstr.

(** The second element of the argument tuple of a setter. *)
Inductive payload : Type := PInt (v : Z) | PBinstr (s : string).

(** What [_set_value] passes to its [schedule_write] argument:
    [schedule_write(self, self._handle.<setter>, (action, payload))]. *)
Record write_request : Type := {
  write_func : setter;
  write_action : _GPISetAction;
  write_payload : payload
}.

(** The names bound in the module [handle.py]: its imports (lines 5 to 31)
    and its own definitions. *)
Definition module_names : list string :=
  ["enum"; "logging"; "re"; "ABC"; "abstractmethod"; "lru_cache"; "Logger";
   "Any"; "Callable"; "Dict"; "Generic"; "Iterable"; "Iterator"; "NoReturn";
   "Optional"; "Sequence"; "Tuple"; "Type"; "TypeVar"; "Union"; "cast";
   "simulator"; "cached_property"; "cached_method";
   "Array"; "Logic"; "LogicArray";
   "_write_now"; "_Limits"; "_value_limits"; "SimHandleBase"; "KeyType";
   "HierarchyObjectBase"; "HierarchyObject"; "_GPISetAction"; "ValueT";
   "Deposit"; "Force"; "Freeze"; "Release";
   "_map_action_obj_to_value_action_enum_pair"; "ValuePropertyT";
   "ValueSetT"; "ValueObjectBase"; "ElemValueT"; "ChildObjectT";
   "ArrayObject"; "LogicObject"; "LogicArrayObject"; "_ConcreteHandleTypes";
   "_handle2obj"; "_type2cls"; "SimHandle"].

(** Reading a global name that is no builtin, in a module that binds
    [names]. *)
Definition load_global (names : list string) (name : string) : result unit :=
  if bool_decide (name ∈ names) then Return tt
  else Raise (NameError
    (String.append "name '" (String.append name "' is not defined"))).

(** [format(value, "b")] of a positive number, most significant bit
    first. *)
Fixpoint bits_of_positive (p : positive) : string :=
  match p with
  | xH => "1"
  | xO p' => String.append (bits_of_positive p') "0"
  | xI p' => String.append (bits_of_positive p') "1"
  end.

Fixpoint zeros (n : nat) : string :=
  match n with
  | O => EmptyString
  | S n' => String.append "0" (zeros n')
  end.

(** [format(value, f"0{width}b")] for [value >= 0]. *)
Definition format_binary (width : Z) (v : Z) : string :=
  let digits := match v with
                | Zpos p => bits_of_positive p
                | _ => "0"
                end in
  String.append (zeros (Z.to_nat width - String.length digits)) digits.

(** [int.bit_length] *)
Definition bit_length (v : Z) : Z :=
  match v with
  | Z0 => 0
  | _ => Z.log2 (Z.abs v) + 1
  end.

(** [str(LogicArray(value, Range(width - 1, "downto", 0)))] for an integer
    ([types/logic_array.py], [LogicArray.__init__] and [_get_str]). *)
Definition LogicArray_of_int (v : Z) (width : Z) : result string :=
  if (v <? 0)%Z then Raise (ValueError "Invalid int literal")
  else if (width <? Z.max 1 (bit_length v))%Z
  then Raise (OverflowError "value will not fit in a LogicArray")
  else Return (format_binary width v).

(** [str(LogicArray.from_unsigned(value, Range(width - 1, "downto", 0)))] *)
Definition from_unsigned (v : Z) (width : Z) : result string :=
  LogicArray_of_int v width.

(** [str(LogicArray.from_signed(value, Range(width - 1, "downto", 0)))] *)
Definition from_signed (v : Z) (width : Z) : result string :=
  let v := if (v <? 0)%Z then (v + 2 ^ width)%Z else v in
  if (v <? 0)%Z
  then Raise (OverflowError "value will not fit in a LogicArray")
  else LogicArray_of_int v width.

(** [LogicArrayObject._set_value] in a module that binds [names]; [len_self]
    is [len(self)].  The result is the request handed to [schedule_write],
    or the exception raised before. *)
Definition _set_value_in (names : list string) (len_self : Z)
    (v : value) (action : _GPISetAction) : result write_request :=
  let binstr (s : string) :=
    Return {| write_func := set_signal_val_binstr; write_action := action;
              write_payload := PBinstr s |} in
  match v with
  | Int v =>
      let '(min_val, max_val) := _value_limits len_self VECTOR_NBIT in
      if ((min_val <=? v) && (v <=? max_val))%Z then
        if (len_self <=? 32)%Z then
          Return {| write_func := set_signal_val_int; write_action := action;
                    write_payload := PInt v |}
        else
          (* the arguments of from_signed / from_unsigned are evaluated
             first: value, then the global Range *)
          match load_global names "Range" with
          | Raise e => Raise e
          | Return _ =>
              match (if (v <? 0)%Z then from_signed v len_self
                     else from_unsigned v len_self) with
              | Raise e => Raise e
              | Return s => binstr s
              end
          end
      else Raise (OverflowError "Int value out of range for assignment")
  | Str s =>
      (* LogicArray(value, self.range): no class of LogicArrayObject
         defines range *)
      Raise (AttributeError "'LogicArrayObject' object has no attribute 'range'")
  | LogicArray s =>
      if negb (len_self =? Z.of_nat (String.length s))%Z
      then Raise (ValueError "cannot assign value to handle of different length")
      else binstr s
  | Logic s =>
      if negb (len_self =? 1)%Z
      then Raise (ValueError "cannot assign value of length 1 to handle")
      else binstr s
  | Other => Raise (TypeError "Unsupported type for value assignment")
  end.

(** [LogicArrayObject._set_value] as the module is written. *)
Definition _set_value (len_self : Z) (v : value) (action : _GPISetAction)
  : result write_request :=
  _set_value_in module_names len_self v action.

(** The module with [Range] imported as well. *)
Definition module_names_with_Range : list string := "Range" :: module_names.

(** The inclusive vector range of [n] bits. *)
Definition in_vector_range (n v : Z) : Prop :=
  (- 2 ^ (n - 1) <= v <= 2 ^ n - 1)%Z.

End Handle.

(** ** Scenarios

    Concrete runs of the model: the inputs of the examples below. *)

Module WriteScenario.
Import WriteScheduler.

Definition H1 : SimHandleBase := {| _handle := 1 |}.
Definition H2 : SimHandleBase := {| _handle := 2 |}.

Inductive write : Type := W1 | W2 | W3.

Definition invoke (f : write) (a : unit) : option exn := None.
Definition get_name_string (h : gpi_sim_hdl) : string :=
  match h with 1 => "a" | _ => "b" end.

Definition calls : list (SimHandleBase * (write * unit)) :=
  [(H1, (W1, tt)); (H2, (W2, tt)); (H1, (W3, tt))].

Definition scheduled : state :=
  schedule_writes invoke get_name_string calls init.

End WriteScenario.

Module TaskScenario.
Import Triggers Scheduler.

Definition sim_register (r : sim_request) : option gpi_cb_hdl := Some 7.

(** [ReadWrite()] exists (trigger 0); a task (task 0) is started with
    [start_soon], taken from the run queue and resumed; it awaits
    [ReadWrite()]. *)
Definition with_ReadWrite : world :=
  set_heap (λ h, (singleton_new SReadWrite h).2) init.
Definition started : world := (start_soon with_ReadWrite).2.
Definition popped : world := (pop_scheduled started).2.
Definition pending : world :=
  (_resume_task sim_register 0 _none_outcome (Yielded (PyTrigger 0)) popped).2.

Definition pending_task : Task :=
  {| _state := PENDING; _outcome := None; _trigger := Some 0;
     _cancelled_error := None; _done_callbacks := [_task_done_callback];
     complete := None; _coro_closed := false |}.

End TaskScenario.

Module AwaitScenario.
Import Triggers Scheduler.

Definition sim_register (r : sim_request) : option gpi_cb_hdl := Some 7.

Definition oops : exn := UserError 1.

(** [start_soon] twice: tasks 0 and 1 are queued. *)
Definition started : world := (start_soon (start_soon init).2).2.

(** Task 0 runs first and awaits task 1: [Task.__await__] yields the task. *)
Definition awaiting : world :=
  (_resume_task sim_register 0 _none_outcome (Yielded (PyTask 1))
     (pop_scheduled started).2).2.

(** Task 1 runs and its coroutine raises [oops]. *)
Definition failed : world :=
  (_resume_task sim_register 1 _none_outcome (Raised oops)
     (pop_scheduled awaiting).2).2.

Definition failed_task : Task :=
  {| _state := FINISHED; _outcome := Some (Error oops);
     _trigger := None; _cancelled_error := None;
     _done_callbacks := [_task_done_callback];
     complete := Some 0; _coro_closed := false |}.

(** After the failure a third task is started; it runs (task 0, woken, is
    taken from the queue before it) and awaits [task1.complete], which is
    trigger 0. *)
Definition late : world :=
  (_resume_task sim_register 2 _none_outcome (Yielded (PyTrigger 0))
     (pop_scheduled (pop_scheduled (start_soon failed).2).2).2).2.

End AwaitScenario.

Module TriggerScenario.
Import Triggers.

(** A simulator with a precision of 1 ns that grants every registration. *)
Definition get_sim_steps := Utils.get_sim_steps (-9).
Definition sim_register (r : sim_request) : option gpi_cb_hdl := Some 7.

(** A scalar logic signal and a logic array of four bits. *)
Definition clk : HandleObject.t :=
  {| HandleObject.base := {| _handle := 1 |};
     HandleObject.class := HandleObject.LogicObject;
     HandleObject.get_num_elems := 1 |}.
Definition nibble : HandleObject.t :=
  {| HandleObject.base := {| _handle := 2 |};
     HandleObject.class := HandleObject.LogicArrayObject;
     HandleObject.get_num_elems := 4 |}.

End TriggerScenario.

(** * Further parts of the sources *)

(** ** [_scheduler.py]: waking tasks, the event loop and termination *)

Module SchedulerLoop.
Import Triggers Scheduler.

(** *** Predicates of the properties *)

(** What a task object is after the scheduler has woken it. *)
Definition woken_task (T : Task) : Task :=
  set__state SCHEDULED (set__trigger None T).

(** [w'] is [w] with the tasks [l] woken: they have joined the run queue at
    its tail, in the order of [l], each with the outcome [Value(None)];
    they are [SCHEDULED] and wait on no trigger; no other task object has
    changed, and nothing was run. *)
Definition woken (l : list task_id) (w w' : world) : Prop :=
  _scheduled_tasks w'
  = _scheduled_tasks w ++ map (λ t, (t, _none_outcome)) l
  ∧ (∀ t, tasks w' !! t
          = if bool_decide (t ∈ l) then woken_task <$> tasks w !! t
            else tasks w !! t)
  ∧ trace w' = trace w
  ∧ _terminate w' = _terminate w
  ∧ _current_task w' = _current_task w
  ∧ next_task w' = next_task w.

(** The outcome a coroutine ends with, if the answer of [send] ends it:
    [Value(v)] when it returns [v], [Error(e)] when it raises [e]. *)
Definition final_outcome (sent : send_result) : option Outcome :=
  match sent with
  | StopIteration v => Some (Value v)
  | Raised e => Some (Error e)
  | Yielded _ | RaisedInterrupt _ => None
  end.

(** [task.complete in self._trigger2tasks] for a task whose completion
    trigger exists: some task awaits the completion of [T]. *)
Definition awaited_by (w : world) (T : Task) (l : list task_id) : Prop :=
  ∃ c, complete T = Some c ∧ _trigger2tasks w !! c = Some l.

(** Nothing awaits the completion of [T]: its completion trigger was never
    made, or has no entry in the waiter map. *)
Definition unawaited (w : world) (T : Task) : Prop :=
  match complete T with
  | Some c => _trigger2tasks w !! c = None
  | None => True
  end.

(** Every trigger with an entry in the waiter map is an object of the
    heap. *)
Definition waiters_exist (w : world) : Prop :=
  ∀ tr, is_Some (_trigger2tasks w !! tr) → tr < next_id (heap w).

(** *** [triggers.Event] with the scheduler *)

Section events.

(** [repr(event)], which holds the address of the object. *)
Variable Event___repr__ : event_id → string.

(** [Scheduler._sim_react], the callback of the simulator triggers.  It is
    never the [_callback] of the trigger of an [Event], which is not a
    [GPITrigger] and is primed with [_react]. *)
Variable _sim_react : trigger_id → world → result unit * world.

(** [Event.__init__]: a new event object. *)
Definition new_Event (ev : event_id) (h : Triggers.heap) : Triggers.heap :=
  set_events (<[ev := Event.init]>) h.

(** [Event.wait]: a [NullTrigger] when the event is set, else a new
    [_Event] trigger. *)
Definition Event_wait (ev : event_id) (h : Triggers.heap)
  : trigger_id * Triggers.heap :=
  if Event.is_set (default Event.init (events h !! ev))
  then new_trigger
         (NullTrigger (Some (String.append (Event___repr__ ev) ".wait()"))) h
  else new_trigger (_Event ev) h.

(** [event._callback(event)] for a trigger of an event. *)
Definition call__callback (event : trigger_id) (w : world)
  : result unit * world :=
  match objects (heap w) !! event ≫= _callback with
  | Some _react_fn => _react event w
  | Some _sim_react_fn => _sim_react event w
  | None => (Raise (AttributeError "'_Event' object has no attribute '_callback'"), w)
  end.

(** The loop of [Event.set] over the triggers that were pending. *)
Fixpoint fire_all (pending_events : list trigger_id) (w : world)
  : result unit * world :=
  match pending_events with
  | [] => (Return tt, w)
  | event :: rest =>
      match call__callback event w with
      | (Return _, w') => fire_all rest w'
      | (Raise e, w') => (Raise e, w')
      end
  end.

(** [Event.set()] *)
Definition Event_set (ev : event_id) (w : world) : result unit * world :=
  let '(e, pending_events) :=
    Event.set (default Event.init (events (heap w) !! ev)) in
  fire_all pending_events (set_heap (set_events (<[ev := e]>)) w).

(** [Event.clear()] *)
Definition Event_clear (ev : event_id) (h : Triggers.heap) : Triggers.heap :=
  set_events (<[ev := Event.clear (default Event.init (events h !! ev))]>) h.

End events.

(** The tasks that wait on a trigger. *)
Definition waiters_of (w : world) (tr : trigger_id) : list task_id :=
  default [] (_trigger2tasks w !! tr).

(** [tr] is a trigger of the event [ev] that the scheduler has primed. *)
Definition primed_for (w : world) (ev : event_id) (tr : trigger_id) : Prop :=
  ∃ t, objects (heap w) !! tr = Some t
       ∧ kind t = _Event ev ∧ _callback t = Some _react_fn.

(** The objects of the heap have identities below the next fresh one. *)
Definition heap_ok (h : Triggers.heap) : Prop :=
  ∀ tr, is_Some (objects h !! tr) → tr < next_id h.

End SchedulerLoop.

(** ** [handle.py]: the handle objects and the hierarchy *)

Module Hierarchy.
Import Stdlib.Strings.Ascii HandleObject.

(** The exceptions of this part of [handle.py]: those of [Py] and two more
    built-in ones. *)
Inductive exn : Type :=
| Std (e : Py.exn)
| NotImplementedError (msg : string)
| IndexError (msg : string).

Inductive outcome (A : Type) : Type :=
| Returns (a : A)
| Raises (e : exn).

Arguments Returns {A} a.
Arguments Raises {A} e.

(** The identity of a handle object (a [SimHandleBase]). *)
Definition obj_id : Type := nat.

(** What [handle.get_type()] answers: the constants of the [simulator]
    module that [_type2cls] has as keys, which are distinct, or any other
    type. *)
Inductive gpi_type : Type :=
| MODULE | PACKED_STRUCTURE | LOGIC | LOGIC_ARRAY | NETARRAY
| OTHER_TYPE (t : nat).

(** [_type2cls] *)
Definition _type2cls (t : gpi_type) : option handle_class :=
  match t with
  | MODULE => Some HierarchyObject
  | PACKED_STRUCTURE => Some LogicArrayObject
  | LOGIC => Some LogicObject
  | LOGIC_ARRAY => Some LogicArrayObject
  | NETARRAY => Some ArrayObject
  | OTHER_TYPE _ => None
  end.

(** A handle object.  [_sub_handles] is the cache of child objects of a
    [HierarchyObject] (keys: names) or an [ArrayObject] (keys: indexes);
    [_discovered] is an attribute of the [HierarchyObject] only. *)
Record SimObject : Type := {
  cls : handle_class;
  _handle : gpi_sim_hdl;
  _path : string;
  _sub_handles : gmap (string + Z) obj_id;
  _discovered : bool
}.

(** Calls into the simulator that look for objects. *)
Inductive sim_query : Type :=
| get_handle_by_name (parent : gpi_sim_hdl) (name : string)
| get_handle_by_index (parent : gpi_sim_hdl) (index : Z)
| iterate_OBJECTS (parent : gpi_sim_hdl).

Record store : Type := {
  objects : gmap obj_id SimObject;
  next_obj : obj_id;
  _handle2obj : gmap gpi_sim_hdl obj_id;       (* the module-level dict *)
  sim_queries : list sim_query;                (* calls made so far *)
  logged : list string                         (* self._log.exception(...) *)
}.

Definition set_objects (f : gmap obj_id SimObject → gmap obj_id SimObject)
    (st : store) : store :=
  {| objects := f (objects st); next_obj := next_obj st;
     _handle2obj := _handle2obj st; sim_queries := sim_queries st;
     logged := logged st |}.

Definition log_query (q : sim_query) (st : store) : store :=
  {| objects := objects st; next_obj := next_obj st;
     _handle2obj := _handle2obj st; sim_queries := sim_queries st ++ [q];
     logged := logged st |}.

Definition log_exception (msg : string) (st : store) : store :=
  {| objects := objects st; next_obj := next_obj st;
     _handle2obj := _handle2obj st; sim_queries := sim_queries st;
     logged := logged st ++ [msg] |}.

Definition set__sub_handles (f : gmap (string + Z) obj_id → gmap (string + Z) obj_id)
    (o : SimObject) : SimObject :=
  {| cls := cls o; _handle := _handle o; _path := _path o;
     _sub_handles := f (_sub_handles o); _discovered := _discovered o |}.

Definition set__discovered (b : bool) (o : SimObject) : SimObject :=
  {| cls := cls o; _handle := _handle o; _path := _path o;
     _sub_handles := _sub_handles o; _discovered := b |}.

(** An attribute assignment on a handle object. *)
Definition update_object (self : obj_id) (f : SimObject → SimObject)
    (st : store) : store :=
  set_objects (λ m, match m !! self with
                    | Some o => <[self := f o]> m
                    | None => m
                    end) st.

(** [name.startswith("_")] *)
Definition startswith_underscore (name : string) : bool :=
  match name with
  | String c _ => Ascii.eqb c "_"%char
  | EmptyString => false
  end.

(** ["." in s] *)
Fixpoint has_dot (s : string) : bool :=
  match s with
  | EmptyString => false
  | String c s' => Ascii.eqb c "."%char || has_dot s'
  end.

(** [name.rsplit(".", 1)[-1]]: what follows the last dot, or the whole
    name when it has no dot. *)
Fixpoint rsplit_dot_last (name : string) : string :=
  match name with
  | EmptyString => EmptyString
  | String c s' =>
      if has_dot s' then rsplit_dot_last s'
      else if Ascii.eqb c "."%char then s'
      else name
  end.

Section simulator.

(** The answers of the simulator, which do not change once the design is
    elaborated. *)
Variable get_type : gpi_sim_hdl → gpi_type.
Variable get_name_string : gpi_sim_hdl → string.
Variable get_type_string : gpi_sim_hdl → string.
Variable get_handle_by_name_ : gpi_sim_hdl → string → option gpi_sim_hdl.
Variable get_handle_by_index_ : gpi_sim_hdl → Z → option gpi_sim_hdl.
Variable iterate : gpi_sim_hdl → list gpi_sim_hdl.

(** [str(index)] and [repr(msg)] of Python. *)
Variable str_int : Z → string.
Variable repr_str : string → string.

(** [SimHandle], the factory: one object for each simulator handle. *)
Definition SimHandle (handle : gpi_sim_hdl) (path : option string)
    (st : store) : outcome obj_id * store :=
  match _handle2obj st !! handle with
  | Some obj => (Returns obj, st)
  | None =>
      match _type2cls (get_type handle) with
      | None =>
          (Raises (NotImplementedError
             (String.append "Couldn't find a matching object for GPI type "
                (get_type_string handle))), st)
      | Some c =>
          let obj := next_obj st in
          (* SimHandleBase.__init__ *)
          let o := {| cls := c; _handle := handle;
                      _path := default (get_name_string handle) path;
                      _sub_handles := ∅; _discovered := false |} in
          (Returns obj,
           {| objects := <[obj := o]> (objects st); next_obj := S obj;
              _handle2obj := <[handle := obj]> (_handle2obj st);
              sim_queries := sim_queries st; logged := logged st |})
      end
  end.

(** [HierarchyObject._child_path] *)
Definition _child_path (o : SimObject) (name : string) : string :=
  let delimiter :=
    if String.eqb (get_type_string (_handle o)) "GPI_PACKAGE" then "::"
    else "." in
  String.append (_path o) (String.append delimiter name).

(** [HierarchyObject._sub_handle_key] *)
Definition _sub_handle_key (name : string) : string := rsplit_dot_last name.

Definition no_child_message (o : SimObject) (key : string) : string :=
  String.append (_path o)
    (String.append " contains no child object named " key).

(** [HierarchyObjectBase.__getitem__] of a [HierarchyObject]. *)
Definition HierarchyObject___getitem__ (self : obj_id) (key : string)
    (st : store) : outcome obj_id * store :=
  match objects st !! self with
  | None => (Raises (Std (AttributeError "_sub_handles")), st)
  | Some o =>
      match _sub_handles o !! inl key with
      | Some sub_handle => (Returns sub_handle, st)
      | None =>
          let st := log_query (get_handle_by_name (_handle o) key) st in
          match get_handle_by_name_ (_handle o) key with
          | None => (Raises (Std (KeyError (no_child_message o key))), st)
          | Some new_handle =>
              match SimHandle new_handle (Some (_child_path o key)) st with
              | (Raises e, st) => (Raises e, st)
              | (Returns sub_handle, st) =>
                  (Returns sub_handle,
                   update_object self
                     (set__sub_handles (<[inl key := sub_handle]>)) st)
              end
          end
      end
  end.

(** [HierarchyObject.__getattr__], which Python calls for a name that is no
    attribute of the object. *)
Definition HierarchyObject___getattr__ (self : obj_id) (name : string)
    (st : store) : outcome obj_id * store :=
  if startswith_underscore name
  then (Raises (Std (AttributeError
          (String.append "'HierarchyObject' object has no attribute "
             (repr_str name)))), st)
  else
    match HierarchyObject___getitem__ self name st with
    | (Raises (Std (KeyError msg)), st) =>
        (Raises (Std (AttributeError (repr_str msg))), st)
    | r => r
    end.

(** The loop of [_discover_all] over the objects the simulator lists. *)
Fixpoint discover_loop (self : obj_id) (things : list gpi_sim_hdl)
    (st : store) : store :=
  match things with
  | [] => st
  | thing :: rest =>
      match objects st !! self with
      | None => st
      | Some o =>
          let name := get_name_string thing in
          let key := _sub_handle_key name in
          let path := _child_path o key in
          match SimHandle thing (Some path) st with
          | (Raises _, st) =>
              discover_loop self rest
                (log_exception
                   (String.append "Unable to construct a SimHandle object for "
                      path) st)
          | (Returns hdl, st) =>
              discover_loop self rest
                (update_object self (set__sub_handles (<[inl key := hdl]>)) st)
          end
      end
  end.

(** [HierarchyObjectBase._discover_all] of a [HierarchyObject]. *)
Definition _discover_all (self : obj_id) (st : store) : store :=
  match objects st !! self with
  | None => st
  | Some o =>
      if _discovered o then st
      else
        let st := log_query (iterate_OBJECTS (_handle o)) st in
        let st := discover_loop self (iterate (_handle o)) st in
        update_object self (set__discovered true) st
  end.

(** [HierarchyObjectBase.__len__] *)
Definition HierarchyObject___len__ (self : obj_id) (st : store) : nat * store :=
  let st := _discover_all self st in
  (match objects st !! self with
   | Some o => size (_sub_handles o)
   | None => 0
   end, st).

(** The argument of [ArrayObject.__getitem__]. *)
Inductive index_arg : Type := IntIndex (index : Z) | Slice.

(** [ArrayObject.__getitem__] *)
Definition ArrayObject___getitem__ (self : obj_id) (index : index_arg)
    (st : store) : outcome obj_id * store :=
  match index with
  | Slice => (Raises (IndexError "Slice indexing is not supported"), st)
  | IntIndex index =>
      match objects st !! self with
      | None => (Raises (Std (AttributeError "_sub_handles")), st)
      | Some o =>
          match _sub_handles o !! inr index with
          | Some sub_handle => (Returns sub_handle, st)
          | None =>
              let st := log_query (get_handle_by_index (_handle o) index) st in
              match get_handle_by_index_ (_handle o) index with
              | None =>
                  (Raises (IndexError
                     (String.append (_path o)
                        (String.append " contains no object at index "
                           (str_int index)))), st)
              | Some new_handle =>
                  let path :=
                    String.append (_path o)
                      (String.append "[" (String.append (str_int index) "]")) in
                  match SimHandle new_handle (Some path) st with
                  | (Raises e, st) => (Raises e, st)
                  | (Returns sub_handle, st) =>
                      (Returns sub_handle,
                       update_object self
                         (set__sub_handles (<[inr index := sub_handle]>)) st)
                  end
              end
          end
      end
  end.

End simulator.

(** The module as it is loaded: no handle object yet. *)
Definition init : store :=
  {| objects := ∅; next_obj := 0; _handle2obj := ∅; sim_queries := [];
     logged := [] |}.

(** *** Predicates of the properties *)

(** The store is as [SimHandle] builds it: the objects have identities
    below the next fresh one, and [_handle2obj] names, under each handle,
    an object that wraps this handle. *)
Definition store_ok (st : store) : Prop :=
  (∀ obj, is_Some (objects st !! obj) → obj < next_obj st)
  ∧ ∀ h obj, _handle2obj st !! h = Some obj →
      ∃ o, objects st !! obj = Some o ∧ _handle o = h.

(** What no call takes back: a handle keeps the object [_handle2obj] has
    for it, and an object keeps its class, its handle and its path. *)
Definition kept (st st' : store) : Prop :=
  (∀ h obj, _handle2obj st !! h = Some obj → _handle2obj st' !! h = Some obj)
  ∧ ∀ obj o, objects st !! obj = Some o →
      ∃ o', objects st' !! obj = Some o'
            ∧ cls o' = cls o ∧ _handle o' = _handle o ∧ _path o' = _path o.

(** A handle of the simulator that [SimHandle] has a class for. *)
Definition supported (get_type : gpi_sim_hdl → gpi_type) (h : gpi_sim_hdl)
  : bool :=
  bool_decide (is_Some (_type2cls (get_type h))).

(** [_handle2obj] only has handles of the types [SimHandle] has a class
    for. *)
Definition only_supported (get_type : gpi_sim_hdl → gpi_type) (st : store)
  : Prop :=
  ∀ h obj, _handle2obj st !! h = Some obj → supported get_type h = true.

(** The calls of this part of [handle.py]. *)
Inductive call : Type :=
| call_SimHandle (handle : gpi_sim_hdl) (path : option string)
| call___getitem__ (self : obj_id) (key : string)
| call___getattr__ (self : obj_id) (name : string)
| call__discover_all (self : obj_id)
| call___len__ (self : obj_id)
| call_ArrayObject___getitem__ (self : obj_id) (index : index_arg).

Section calls.

Variable get_type : gpi_sim_hdl → gpi_type.
Variable get_name_string : gpi_sim_hdl → string.
Variable get_type_string : gpi_sim_hdl → string.
Variable get_handle_by_name_ : gpi_sim_hdl → string → option gpi_sim_hdl.
Variable get_handle_by_index_ : gpi_sim_hdl → Z → option gpi_sim_hdl.
Variable iterate : gpi_sim_hdl → list gpi_sim_hdl.
Variable str_int : Z → string.
Variable repr_str : string → string.

(** The store a call leaves behind, whether it returns or raises. *)
Definition exec (c : call) (st : store) : store :=
  match c with
  | call_SimHandle handle path =>
      (SimHandle get_type get_name_string get_type_string handle path st).2
  | call___getitem__ self key =>
      (HierarchyObject___getitem__ get_type get_name_string get_type_string
         get_handle_by_name_ self key st).2
  | call___getattr__ self name =>
      (HierarchyObject___getattr__ get_type get_name_string get_type_string
         get_handle_by_name_ repr_str self name st).2
  | call__discover_all self =>
      _discover_all get_type get_name_string get_type_string iterate self st
  | call___len__ self =>
      (HierarchyObject___len__ get_type get_name_string get_type_string
         iterate self st).2
  | call_ArrayObject___getitem__ self index =>
      (ArrayObject___getitem__ get_type get_name_string get_type_string
         get_handle_by_index_ str_int self index st).2
  end.

Definition exec_all (cs : list call) (st : store) : store :=
  foldl (λ st c, exec c st) st cs.

End calls.

End Hierarchy.

(** ** [types/logic_array.py]: a logic array and the integers *)

Module LogicArrayValue.
Import Stdlib.Strings.Ascii.

(** The characters of the text of a logic array: [Logic] (the module
    [types/logic.py] is not among the sources) has the nine values of
    [std_logic]; [LogicArray.__init__] makes a text upper case, and
    [_from_handle] takes the text of the simulator, which is upper case. *)
Inductive logic_char : Type :=
| c0 | c1 | cX | cZ | cU | cW | cL | cH | cDash.

#[export] Instance logic_char_eq_dec : EqDecision logic_char.
Proof. solve_decision. Defined.

(** A text as the methods below see it. *)
Definition text : Type := list logic_char.

Definition of_ascii (c : ascii) : option logic_char :=
  if Ascii.eqb c "0" then Some c0
  else if Ascii.eqb c "1" then Some c1
  else if Ascii.eqb c "X" then Some cX
  else if Ascii.eqb c "Z" then Some cZ
  else if Ascii.eqb c "U" then Some cU
  else if Ascii.eqb c "W" then Some cW
  else if Ascii.eqb c "L" then Some cL
  else if Ascii.eqb c "H" then Some cH
  else if Ascii.eqb c "-" then Some cDash
  else None.

(** The text of a string of these characters; [None] for another
    string. *)
Fixpoint of_string (s : string) : option text :=
  match s with
  | EmptyString => Some []
  | String c s' =>
      match of_ascii c, of_string s' with
      | Some x, Some l => Some (x :: l)
      | _, _ => None
      end
  end.

(** [ResolveX] *)
Inductive ResolveX : Type := VALUE_ERROR | ZEROS | ONES | RANDOM.

(** What a caller passes as [resolve]: a string, or a member of
    [ResolveX]. *)
Inductive resolve_arg : Type :=
| Literal (s : string)
| Member (m : ResolveX).

(** The values of [_resolve_tables]. *)
Inductive resolve_table : Type :=
| _error_resolve_table | zeros_table | ones_table | _random_resolve_table.

(** [_resolve_tables[key]].  The keys of the dictionary are the strings
    ["error"], ["zeros"], ["ones"] and ["random"].  [ResolveX] is a plain
    [Enum]: a member is not equal to its value, so it is no key of the
    dictionary.  [None] stands for the [KeyError]. *)
Definition _resolve_tables (key : resolve_arg) : option resolve_table :=
  match key with
  | Literal s =>
      if String.eqb s "error" then Some _error_resolve_table
      else if String.eqb s "zeros" then Some zeros_table
      else if String.eqb s "ones" then Some ones_table
      else if String.eqb s "random" then Some _random_resolve_table
      else None
  | Member _ => None
  end.

(** [value_as_str.translate(_resolve_lh_table)] *)
Definition resolve_lh (c : logic_char) : logic_char :=
  match c with
  | cL => c0
  | cH => c1
  | c => c
  end.

Definition is_binary (c : logic_char) : bool :=
  match c with c0 | c1 => true | _ => false end.

Definition digit (c : logic_char) : Z :=
  match c with c1 => 1 | _ => 0 end.

(** The number that binary digits write, most significant digit first. *)
Definition binary_value (l : text) : Z :=
  foldl (λ acc c, 2 * acc + digit c)%Z 0%Z l.

(** [int(s, 2)] of Python for a text: binary digits, at least one, after
    an optional minus sign; anything else is a [ValueError].  (The other
    forms [int] accepts, with white space, a plus sign, a prefix [0b] or
    underscores, cannot be written with the nine characters.) *)
Definition int_2 (s : text) : result Z :=
  let invalid := Raise (ValueError "invalid literal for int() with base 2") in
  match s with
  | [] => invalid
  | cDash :: digits =>
      match digits with
      | [] => invalid
      | _ => if forallb is_binary digits then Return (- binary_value digits)%Z
             else invalid
      end
  | _ => if forallb is_binary s then Return (binary_value s) else invalid
  end.

Section random.

(** [random.getrandbits(1)], by the number of the call. *)
Variable getrandbits : nat → bool.

(** [value_as_str.translate(resolve_table)]; [calls] counts the calls of
    [getrandbits] made so far. *)
Fixpoint translate (table : resolve_table) (s : text) (calls : nat)
  : result text :=
  match s with
  | [] => Return []
  | c :: s' =>
      let rest (c' : logic_char) (calls : nat) :=
        match translate table s' calls with
        | Return l => Return (c' :: l)
        | Raise e => Raise e
        end in
      match table with
      | _error_resolve_table =>
          if is_binary c then rest c calls
          else Raise (ValueError "Unresolvable bit in binary string")
      | zeros_table =>
          match c with
          | cX | cZ | cU | cW | cDash => rest c0 calls
          | _ => rest c calls
          end
      | ones_table =>
          match c with
          | cX | cZ | cU | cW | cDash => rest c1 calls
          | _ => rest c calls
          end
      | _random_resolve_table =>
          if is_binary c then rest c calls
          else rest (if getrandbits calls then c1 else c0) (S calls)
      end
  end.

(** The module global [RESOLVE_X], a member of [ResolveX] chosen by the
    environment when the module is loaded. *)
Variable RESOLVE_X : ResolveX.

(** [LogicArray._get_int] of an array that holds its text and no integer
    yet ([_from_handle], or the constructor given a string). *)
Definition _get_int (value_as_str : text) (resolve : option resolve_arg)
  : result Z :=
  let value_as_str := map resolve_lh value_as_str in
  match int_2 value_as_str with
  | Return v => Return v
  | Raise _ =>
      (* except ValueError: the value needs resolving *)
      let resolve := match resolve with
                     | None => Member RESOLVE_X
                     | Some r => r
                     end in
      match _resolve_tables resolve with
      | None => Raise (KeyError "resolve")
      | Some resolve_table =>
          match translate resolve_table value_as_str 0 with
          | Raise e => Raise e
          | Return value_as_str => int_2 value_as_str
          end
      end
  end.

(** [LogicArray.to_unsigned]; the length of the array is the length of
    its text. *)
Definition to_unsigned (value_as_str : text) (resolve : option resolve_arg)
  : result Z :=
  if decide (length value_as_str = 0) then Return 0%Z
  else _get_int value_as_str resolve.

(** [LogicArray.to_signed] *)
Definition to_signed (value_as_str : text) (resolve : option resolve_arg)
  : result Z :=
  if decide (length value_as_str = 0) then Return 0%Z
  else
    match _get_int value_as_str resolve with
    | Raise e => Raise e
    | Return value =>
        let n := Z.of_nat (length value_as_str) in
        if (Z.shiftl 1 (n - 1) <=? value)%Z
        then Return (value - Z.shiftl 1 n)%Z
        else Return value
    end.

(** [LogicArray.__eq__] with an [int]. *)
Definition eq_int (value_as_str : text) (other : Z) : result bool :=
  match to_unsigned value_as_str None with
  | Return v => Return (v =? other)%Z
  | Raise (ValueError _) => Return false
  | Raise e => Raise e
  end.

End random.

(** A text of binary digits, [L] and [H] among them. *)
Definition resolvable (s : text) : Prop :=
  Forall (λ c, is_binary (resolve_lh c) = true) s.

(** The characters [X], [Z], [U] and [W]. *)
Definition unknown (c : logic_char) : bool :=
  match c with cX | cZ | cU | cW => true | _ => false end.

(** A character with [L] and [H] read as digits and any other character
    that is no digit replaced by [b]. *)
Definition resolved_with (b : logic_char) (c : logic_char) : logic_char :=
  if is_binary (resolve_lh c) then resolve_lh c else b.

End LogicArrayValue.

(** ** [handle.py]: [set] and [setimmediatevalue] of a [LogicArrayObject] *)

Module ValueObject.
Import WriteScheduler Handle.

(** The bound method [self._handle.set_signal_val_int] or
    [self._handle.set_signal_val_binstr], and its argument tuple
    [(action, value)]. *)
Definition bound_setter : Type := gpi_sim_hdl * setter.
Definition setter_args : Type := _GPISetAction * payload.

(** The state of the write scheduler for these calls. *)
Definition write_state : Type := @state bound_setter setter_args.

Section value_object.

(** The call of a setter of the simulator: [None] when it returns. *)
Variable invoke : bound_setter → setter_args → option exn.
Variable get_name_string : gpi_sim_hdl → string.

(** [self._handle.get_const()] and [self._handle.get_signal_val_binstr()]. *)
Variable get_const : gpi_sim_hdl → bool.
Variable get_signal_val_binstr : gpi_sim_hdl → string.

(** [self._path] *)
Variable _path : HandleObject.t → string.

Definition handle_of (self : HandleObject.t) : gpi_sim_hdl :=
  _handle (HandleObject.base self).

(** [LogicArrayObject.value], the getter:
    [LogicArray._from_handle(binstr)]. *)
Definition value_of (self : HandleObject.t) : value :=
  LogicArray (get_signal_val_binstr (handle_of self)).

(** [_write_now] *)
Definition _write_now (handle : SimHandleBase) (f : bound_setter)
    (args : setter_args) (st : write_state) : result unit * write_state :=
  (run_call invoke f args,
   {| sim_phase := sim_phase st;
      _write_calls := _write_calls st;
      _writes_pending := _writes_pending st;
      trace := trace st ++ [Call f args] |}).

(** [self._set_value(value_, action, schedule_write)] for the function
    given as [schedule_write]. *)
Definition _set_value_with
    (schedule : SimHandleBase → bound_setter → setter_args → write_state →
                result unit * write_state)
    (self : HandleObject.t) (v : value) (action : _GPISetAction) (st : write_state)
  : result unit * write_state :=
  match _set_value (HandleObject.get_num_elems self) v action with
  | Raise e => (Raise e, st)
  | Return req =>
      schedule (HandleObject.base self) (handle_of self, write_func req)
        (write_action req, write_payload req) st
  end.

Definition constant_message (self : HandleObject.t) : string :=
  String.append (_path self) " is constant".

(** [ValueObjectBase.set] *)
Definition set (self : HandleObject.t) (v : action_value) (st : write_state)
  : result unit * write_state :=
  if get_const (handle_of self)
  then (Raise (TypeError (constant_message self)), st)
  else
    let '(value_, action) :=
      _map_action_obj_to_value_action_enum_pair (value_of self) v in
    _set_value_with (schedule_write invoke get_name_string) self value_ action
      st.

(** [ValueObjectBase.setimmediatevalue] *)
Definition setimmediatevalue (self : HandleObject.t) (v : action_value)
    (st : write_state) : result unit * write_state :=
  if get_const (handle_of self)
  then (Raise (TypeError (constant_message self)), st)
  else
    let '(value_, action) :=
      _map_action_obj_to_value_action_enum_pair (value_of self) v in
    let action := match action with DEPOSIT => NO_DELAY | a => a end in
    _set_value_with _write_now self value_ action st.

End value_object.

End ValueObject.

(** ** Further scenarios *)

Module FailingWriteScenario.
Import WriteScheduler WriteScenario.

Definition H3 : SimHandleBase := {| _handle := 3 |}.

(** The simulator refuses the write [W2]. *)
Definition oops : exn := UserError 1.
Definition invoke (f : write) (a : unit) : option exn :=
  match f with W2 => Some oops | _ => None end.

(** Three writes, to three handles, scheduled in the normal phase. *)
Definition scheduled : state :=
  schedule_writes invoke get_name_string
    [(H1, (W1, tt)); (H2, (W2, tt)); (H3, (W3, tt))] init.

End FailingWriteScenario.

Module WaitingScenario.
Import Triggers Scheduler.

Definition sim_register := TaskScenario.sim_register.

(** A simulator that refuses every registration. *)
Definition refuse (r : sim_request) : option gpi_cb_hdl := None.

(** [ReadWrite()] exists (trigger 0) and is not primed. *)
Definition unprimed : Triggers.heap := heap TaskScenario.with_ReadWrite.
Definition primed : Triggers.heap :=
  (_prime sim_register (λ _, false) 0 _sim_react_fn unprimed).2.

(** Two tasks are started; each runs and awaits [ReadWrite()]. *)
Definition started : world := (start_soon TaskScenario.started).2.
Definition first_waiting : world :=
  (_resume_task sim_register 0 _none_outcome (Yielded (PyTrigger 0))
     (pop_scheduled started).2).2.
Definition both_waiting : world :=
  (_resume_task sim_register 1 _none_outcome (Yielded (PyTrigger 0))
     (pop_scheduled first_waiting).2).2.

(** A task was taken from the run queue, and a [NullTrigger] was made
    (trigger 1). *)
Definition with_NullTrigger : world :=
  set_heap (λ h, (new_trigger (NullTrigger None) h).2) TaskScenario.popped.

(** Task 0 awaits task 1, and task 1 was taken from the run queue. *)
Definition awaited_running : world := (pop_scheduled AwaitScenario.awaiting).2.

End WaitingScenario.

Module EventScenario.
Import Triggers Scheduler SchedulerLoop.

Definition sim_register := TaskScenario.sim_register.
Definition Event___repr__ (ev : event_id) : string := "<Event>".
Definition _sim_react (tr : trigger_id) (w : world) : result unit * world :=
  (Return tt, w).

(** An event (event 0) and two tasks started. *)
Definition with_event : world := set_heap (new_Event 0) init.
Definition started : world := (start_soon (start_soon with_event).2).2.

(** Task 0 runs. *)
Definition running0 : world := (pop_scheduled started).2.

(** Task 0 awaits [event.wait()] (trigger 0); then task 1 runs. *)
Definition wait0 : trigger_id * Triggers.heap :=
  Event_wait Event___repr__ 0 (heap running0).
Definition waiting0 : world :=
  (_resume_task sim_register 0 _none_outcome (Yielded (PyTrigger wait0.1))
     (set_heap (λ _, wait0.2) running0)).2.
Definition running1 : world := (pop_scheduled waiting0).2.

(** The event is set while task 0 runs and nobody waits. *)
Definition set_early : world := (Event_set _sim_react 0 running0).2.

End EventScenario.

Module DesignScenario.
Import Hierarchy.

(** A design: the module [top] (handle 1) with a scalar [clk] (2), a
    vector [data] (3) and a real-valued signal [gain] (4), for which
    [_type2cls] has no class. *)
Definition get_type (h : gpi_sim_hdl) : gpi_type :=
  match h with
  | 1 => MODULE
  | 2 => LOGIC
  | 3 => LOGIC_ARRAY
  | _ => OTHER_TYPE 0
  end.

Definition get_name_string (h : gpi_sim_hdl) : string :=
  match h with
  | 1 => "top"
  | 2 => "top.clk"
  | 3 => "top.data"
  | _ => "top.gain"
  end.

Definition get_type_string (h : gpi_sim_hdl) : string :=
  match h with
  | 1 => "GPI_MODULE"
  | 2 => "GPI_LOGIC"
  | 3 => "GPI_LOGIC_ARRAY"
  | _ => "GPI_REAL"
  end.

Definition get_handle_by_name_ (parent : gpi_sim_hdl) (name : string)
  : option gpi_sim_hdl :=
  match parent with
  | 1 => if String.eqb name "clk" then Some 2
         else if String.eqb name "data" then Some 3
         else if String.eqb name "gain" then Some 4
         else None
  | _ => None
  end.

Definition get_handle_by_index_ (parent : gpi_sim_hdl) (index : Z)
  : option gpi_sim_hdl := None.

Definition iterate (parent : gpi_sim_hdl) : list gpi_sim_hdl :=
  match parent with
  | 1 => [2; 4; 3]
  | _ => []
  end.

Definition str_int (index : Z) : string := "0".
Definition repr_str (s : string) : string :=
  String.append "'" (String.append s "'").

(** [SimHandle(1)] has made the object of [top] (object 0). *)
Definition with_top : store :=
  (SimHandle get_type get_name_string get_type_string 1 None init).2.

Definition top : SimObject :=
  {| cls := HandleObject.HierarchyObject; _handle := 1; _path := "top";
     _sub_handles := ∅; _discovered := false |}.

(** Then [top["clk"]], [top._discover_all()] and [top.nope]. *)
Definition explored : store :=
  exec_all get_type get_name_string get_type_string get_handle_by_name_
    get_handle_by_index_ iterate str_int repr_str
    [call___getitem__ 0 "clk"; call__discover_all 0; call___getattr__ 0 "nope"]
    with_top.

(** [top._discover_all()] at once. *)
Definition discovered : store :=
  _discover_all get_type get_name_string get_type_string iterate 0 with_top.

End DesignScenario.

Module SetScenario.
Import WriteScheduler Handle ValueObject.

(** A simulator that accepts every write; the logic array [nibble] of
    [TriggerScenario], four bits wide, is no constant and reads [10XZ]. *)
Definition invoke (f : bound_setter) (args : setter_args) : option exn := None.
Definition get_const (h : gpi_sim_hdl) : bool := false.
Definition get_signal_val_binstr (h : gpi_sim_hdl) : string := "10XZ".
Definition _path (self : HandleObject.t) : string := "top.nibble".

(** The write scheduler as it is loaded. *)
Definition loaded : write_state := init.

End SetScenario.

Module SingletonScenario.
Import Triggers TriggerScenario.

(** [ReadWrite()], then three other triggers. *)
Definition first : result trigger_id * heap :=
  construct get_sim_steps new_ReadWrite empty_heap.
Definition later : heap :=
  (construct_all get_sim_steps
     [new_ReadOnly; new_RisingEdge clk; new_NullTrigger None] first.2).2.

End SingletonScenario.

(** * Properties *)

(** ** Facts about [OrderedDict] *)

Module OrderedDictFacts.
Import OrderedDict.

Section ordered_dict_facts.
Context {K V : Type} `{EqDecision K}.
Implicit Types (k : K) (v : V) (d : OrderedDict.t K V).

Lemma contains_true k d : contains k d = true ↔ k ∈ keys d.
Proof. unfold contains. apply bool_decide_eq_true. Qed.

Lemma contains_false k d : contains k d = false ↔ k ∉ keys d.
Proof. unfold contains. apply bool_decide_eq_false. Qed.

Lemma keys_delitem_subseteq k d : keys (delitem k d) ⊆ keys d.
Proof.
  induction d as [|[k' v'] d IH]; simpl; [done|].
  intros x Hx. destruct (decide (k' = k)).
  - by right.
  - simpl in Hx. apply elem_of_cons in Hx as [->|Hx]; [left|right; by apply IH].
Qed.

Lemma delitem_absent k d : k ∉ keys d → delitem k d = d.
Proof.
  induction d as [|[k' v'] d IH]; simpl; [done|].
  intros Hk. destruct (decide (k' = k)) as [->|Hne].
  - exfalso. apply Hk. unfold keys. simpl. left.
  - f_equal. apply IH. intros Hin. apply Hk. unfold keys in *. simpl. by right.
Qed.

Lemma wf_delitem k d : wf d → wf (delitem k d).
Proof.
  unfold wf. induction d as [|[k' v'] d IH]; simpl; [done|].
  intros Hnd. apply NoDup_cons in Hnd as [Hk' Hnd].
  destruct (decide (k' = k)); [done|].
  simpl. apply NoDup_cons. split; [|by apply IH].
  intros Hin. apply Hk'. by apply (keys_delitem_subseteq k d).
Qed.

Lemma not_in_delitem k d : wf d → k ∉ keys (delitem k d).
Proof.
  unfold wf. induction d as [|[k' v'] d IH]; simpl.
  - intros _ Hin. by apply elem_of_nil in Hin.
  - intros Hnd. apply NoDup_cons in Hnd as [Hk' Hnd].
    destruct (decide (k' = k)) as [->|Hne]; [done|].
    simpl. intros Hin. apply elem_of_cons in Hin as [Heq|Hin]; [congruence|].
    by apply IH.
Qed.

Lemma setitem_absent k v d : k ∉ keys d → setitem k v d = d ++ [(k, v)].
Proof.
  induction d as [|[k' v'] d IH]; simpl; [done|].
  intros Hk. destruct (decide (k' = k)) as [->|Hne].
  - exfalso. apply Hk. left.
  - f_equal. apply IH. intros Hin. apply Hk. by right.
Qed.

Lemma keys_setitem_present k v d : k ∈ keys d → keys (setitem k v d) = keys d.
Proof.
  induction d as [|[k' v'] d IH]; simpl.
  - intros Hin. by apply elem_of_nil in Hin.
  - intros Hin. destruct (decide (k' = k)) as [->|Hne]; [done|].
    simpl. f_equal. apply IH. apply elem_of_cons in Hin as [Heq|Hin]; [congruence|done].
Qed.

Lemma wf_setitem k v d : wf d → wf (setitem k v d).
Proof.
  unfold wf. intros Hnd. destruct (decide (k ∈ keys d)) as [Hin|Hnin].
  - by rewrite keys_setitem_present.
  - rewrite setitem_absent by done. unfold keys. rewrite fmap_app. simpl.
    apply NoDup_app. split; [done|]. split.
    + intros x Hx Hx'. apply list_elem_of_singleton in Hx'. by subst.
    + apply NoDup_singleton.
Qed.

Lemma wf_popitem_first d kv d' : wf d → popitem_first d = Some (kv, d') → wf d'.
Proof.
  unfold wf. destruct d as [|kv0 d0]; simpl; [done|].
  intros Hnd [= <- <-]. by apply NoDup_cons in Hnd as [_ ?].
Qed.

Lemma get_setitem_eq k v d : get k (setitem k v d) = Some v.
Proof.
  induction d as [|[k' v'] d IH]; simpl.
  - by rewrite decide_True.
  - destruct (decide (k' = k)) as [->|Hne]; simpl.
    + by rewrite decide_True.
    + by rewrite decide_False.
Qed.

End ordered_dict_facts.

End OrderedDictFacts.

(** ** Facts about [list.remove] *)

Module PyListFacts.

Section remove.
Context {A : Type} `{EqDecision A}.
Implicit Types (l : list A).

Lemma remove_NoDup (t : A) l l' :
  PyList.remove t l = Some l' → NoDup l → t ∉ l'.
Proof.
  revert l'. induction l as [|x l IH]; intros l'; simpl; [done|].
  intros H [Hx Hnd]%NoDup_cons. destruct (decide (x = t)) as [->|Hne].
  - by injection H as <-.
  - destruct (PyList.remove t l) as [r|]; [|done]. injection H as <-.
    intros [?|?]%elem_of_cons; [done|]. by eapply IH.
Qed.

Lemma remove_elem_of (t : A) l : t ∈ l → is_Some (PyList.remove t l).
Proof.
  induction l as [|x l IH]; simpl.
  - intros H. by apply elem_of_nil in H.
  - intros H. destruct (decide (x = t)); [done|].
    apply elem_of_cons in H as [?|H]; [done|].
    destruct (IH H) as [r ->]. done.
Qed.

Lemma remove_sublist (t : A) l l' : PyList.remove t l = Some l' → sublist l' l.
Proof.
  revert l'. induction l as [|x l IH]; intros l'; simpl; [done|].
  destruct (decide (x = t)) as [->|Hne].
  - intros [= <-]. by apply sublist_cons.
  - destruct (PyList.remove t l) as [r|]; [|done]. intros [= <-].
    apply sublist_skip. by apply IH.
Qed.

End remove.

End PyListFacts.

(** ** The deferred-write scheduler *)

Module WriteSchedulerFacts.
Import OrderedDict OrderedDictFacts WriteScheduler.

Section write_scheduler_facts.
Context {Func Args : Type}.
Variable invoke : Func → Args → option exn.
Variable get_name_string : gpi_sim_hdl → string.

Local Abbreviation entry := (SimHandleBase * (Func * Args))%type.
Local Abbreviation state := (@WriteScheduler.state Func Args).
Local Abbreviation schedule_write := (WriteScheduler.schedule_write invoke get_name_string).
Local Abbreviation schedule_writes := (WriteScheduler.schedule_writes invoke get_name_string).
Local Abbreviation apply_scheduled_writes := (WriteScheduler.apply_scheduled_writes invoke).

Implicit Types (st : state) (calls l : list entry) (handle h : SimHandleBase).

(** *** The executable specification [last_scheduled] *)

Lemma keys_last_scheduled l k : k ∈ (last_scheduled l).*1 ↔ k ∈ l.*1.
Proof.
  induction l as [|[k' v] l IH]; simpl; [done|].
  destruct (decide (k' ∈ l.*1)) as [Hin|Hnin].
  - rewrite bool_decide_true by done. rewrite IH. split; [by right|].
    intros [->|?]%elem_of_cons; done.
  - rewrite bool_decide_false by done. simpl. rewrite !elem_of_cons, IH. done.
Qed.

Lemma last_scheduled_snoc l h w :
  last_scheduled (l ++ [(h, w)]) = delitem h (last_scheduled l) ++ [(h, w)].
Proof.
  induction l as [|[k v] l IH]; simpl; [done|].
  rewrite fmap_app. simpl.
  destruct (decide (k ∈ l.*1)) as [Hin|Hnin].
  - rewrite !bool_decide_true; [done|done|]. apply elem_of_app. by left.
  - rewrite (bool_decide_false (k ∈ l.*1)) by done. simpl.
    destruct (decide (k = h)) as [->|Hne].
    + rewrite bool_decide_true.
      2:{ apply elem_of_app. right. left. }
      rewrite IH. f_equal. apply delitem_absent.
      unfold keys. by rewrite keys_last_scheduled.
    + rewrite bool_decide_false.
      2:{ intros [?|Hin]%elem_of_app; [done|].
          apply list_elem_of_singleton in Hin. done. }
      simpl. by rewrite IH.
Qed.

Lemma wf_last_scheduled l : OrderedDict.wf (last_scheduled l).
Proof.
  unfold OrderedDict.wf, keys. induction l as [|[k v] l IH]; simpl.
  - apply NoDup_nil_2.
  - destruct (decide (k ∈ l.*1)) as [Hin|Hnin].
    + by rewrite bool_decide_true.
    + rewrite bool_decide_false by done. simpl. apply NoDup_cons. split; [|done].
      by rewrite keys_last_scheduled.
Qed.

Lemma last_scheduled_wf l : OrderedDict.wf l → last_scheduled l = l.
Proof.
  unfold OrderedDict.wf, keys. induction l as [|[k v] l IH]; simpl; [done|].
  intros [Hk Hnd]%NoDup_cons. rewrite bool_decide_false by done.
  f_equal. by apply IH.
Qed.

Lemma last_scheduled_sublist l : sublist (last_scheduled l) l.
Proof.
  induction l as [|[k v] l IH]; simpl; [done|].
  case_bool_decide; [by apply sublist_cons|by apply sublist_skip].
Qed.

(** An entry is pending exactly when no later call names its handle. *)
Lemma elem_of_last_scheduled l h w :
  (h, w) ∈ last_scheduled l ↔
  ∃ l1 l2, l = l1 ++ (h, w) :: l2 ∧ h ∉ l2.*1.
Proof.
  induction l as [|[k v] l IH]; simpl.
  - split.
    + intros Hin. by apply elem_of_nil in Hin.
    + intros (l1 & l2 & Heq & _). by destruct l1.
  - case_bool_decide as Hk.
    + rewrite IH. split.
      * intros (l1 & l2 & -> & Hn). by exists ((k, v) :: l1), l2.
      * intros (l1 & l2 & Heq & Hn). destruct l1 as [|c l1]; simplify_eq/=.
        -- done.
        -- by exists l1, l2.
    + rewrite elem_of_cons, IH. split.
      * intros [Heq|(l1 & l2 & -> & Hn)].
        -- simplify_eq. by exists [], l.
        -- by exists ((k, v) :: l1), l2.
      * intros (l1 & l2 & Heq & Hn). destruct l1 as [|c l1]; simplify_eq/=.
        -- by left.
        -- right. by exists l1, l2.
Qed.

(** *** [schedule_write] and [apply_scheduled_writes] *)

Lemma schedule_write_normal st h f a :
  sim_phase st = NORMAL →
  OrderedDict.wf (_write_calls st) →
  schedule_write h f a st =
    (Return tt,
     {| sim_phase := NORMAL;
        _write_calls := delitem h (_write_calls st) ++ [(h, (f, a))];
        _writes_pending := {| Event._pending_events := []; Event._fired := true |};
        trace := trace st
                 ++ map Callback (Event._pending_events (_writes_pending st)) |}).
Proof.
  intros Hphase Hwf. unfold WriteScheduler.schedule_write. rewrite Hphase. simpl.
  f_equal. f_equal.
  destruct (contains h (_write_calls st)) eqn:Hc.
  - apply setitem_absent. by apply not_in_delitem.
  - apply contains_false in Hc. rewrite (delitem_absent h) by done.
    by apply setitem_absent.
Qed.

Lemma schedule_writes_snoc calls c st :
  schedule_writes (calls ++ [c]) st
  = (schedule_write c.1 c.2.1 c.2.2 (schedule_writes calls st)).2.
Proof. unfold WriteScheduler.schedule_writes. by rewrite foldl_app. Qed.

Lemma schedule_writes_normal calls st :
  sim_phase st = NORMAL →
  OrderedDict.wf (_write_calls st) →
  sim_phase (schedule_writes calls st) = NORMAL
  ∧ _write_calls (schedule_writes calls st)
    = last_scheduled (_write_calls st ++ calls).
Proof.
  intros Hphase Hwf. induction calls as [|[h [f a]] calls [IHp IHd]] using rev_ind.
  - simpl. split; [done|]. rewrite app_nil_r. by rewrite last_scheduled_wf.
  - rewrite schedule_writes_snoc. simpl.
    rewrite schedule_write_normal; [|done|].
    2:{ rewrite IHd. apply wf_last_scheduled. }
    simpl. split; [done|].
    by rewrite IHd, app_assoc, last_scheduled_snoc.
Qed.

Lemma apply_loop_returns (d : list entry) tr :
  Forall (λ c, invoke c.2.1 c.2.2 = None) d →
  apply_loop invoke d tr = (Return tt, [], tr ++ map call_of d).
Proof.
  intros Hd. revert tr.
  induction Hd as [|[h [f a]] d Hc Hd IH]; intros tr; simpl.
  - by rewrite app_nil_r.
  - unfold run_call. simpl in Hc. rewrite Hc. rewrite IH.
    by rewrite <- app_assoc.
Qed.

(** C1.  Writes scheduled in the Normal phase coalesce per handle: a handle
    scheduled again loses its old entry and gets the new one at the tail;
    after any sequence of calls the pending map holds, for every handle, the
    write scheduled last, the handles in the order of their last scheduling;
    [apply_scheduled_writes] at the next ReadWrite calls exactly these
    writes in that order and leaves the map empty. *)
Theorem schedule_write_coalesces_per_handle st calls :
  sim_phase st = NORMAL →
  OrderedDict.wf (_write_calls st) →
  Forall (λ c, invoke c.2.1 c.2.2 = None)
         (last_scheduled (_write_calls st ++ calls)) →
  let st1 := schedule_writes calls st in
  let pending := last_scheduled (_write_calls st ++ calls) in
  (∀ h f a, h ∈ keys (_write_calls st) →
     _write_calls (schedule_write h f a st).2
     = delitem h (_write_calls st) ++ [(h, (f, a))]
     ∧ h ∉ keys (delitem h (_write_calls st)))
  ∧ _write_calls st1 = pending
  ∧ NoDup pending.*1
  ∧ (∀ h w, (h, w) ∈ pending ↔
       ∃ l1 l2, _write_calls st ++ calls = l1 ++ (h, w) :: l2 ∧ h ∉ l2.*1)
  ∧ sublist pending (_write_calls st ++ calls)
  ∧ apply_scheduled_writes (set_sim_phase READ_WRITE st1)
    = (Return tt,
       {| sim_phase := READ_WRITE;
          _write_calls := [];
          _writes_pending := Event.clear (_writes_pending st1);
          trace := trace st1 ++ map call_of pending |}).
Proof.
  intros Hphase Hwf Hinv st1 pending. subst st1 pending.
  destruct (schedule_writes_normal calls st Hphase Hwf) as [Hp1 Hd1].
  split; [|split; [|split; [|split; [|split]]]].
  - intros h f a Hin. rewrite schedule_write_normal by done. simpl.
    split; [done|]. by apply not_in_delitem.
  - done.
  - apply wf_last_scheduled.
  - intros h w. apply elem_of_last_scheduled.
  - apply last_scheduled_sublist.
  - unfold WriteScheduler.apply_scheduled_writes. simpl.
    rewrite Hd1. by rewrite (apply_loop_returns _ _ Hinv).
Qed.

(** C2.  [schedule_write] by phase.  In ReadWrite the function is called at
    once with its arguments and the pending map is left as it was; in
    ReadOnly the call raises (the [RuntimeError] the sources use for a write
    during the read-only phase) and the whole state, the pending map
    included, is unchanged; in the Normal phase the call returns, the write
    is pending for its handle and the writes-pending event is set. *)
Theorem schedule_write_by_phase st h f a :
  match sim_phase st with
  | READ_WRITE =>
      schedule_write h f a st
      = (run_call invoke f a,
         {| sim_phase := READ_WRITE;
            _write_calls := _write_calls st;
            _writes_pending := _writes_pending st;
            trace := trace st ++ [Call f a] |})
  | READ_ONLY =>
      schedule_write h f a st
      = (Raise (RuntimeError (read_only_message get_name_string h)), st)
  | NORMAL =>
      (schedule_write h f a st).1 = Return tt
      ∧ OrderedDict.get h (_write_calls (schedule_write h f a st).2) = Some (f, a)
      ∧ Event.is_set (_writes_pending (schedule_write h f a st).2) = true
      ∧ sim_phase (schedule_write h f a st).2 = NORMAL
      ∧ trace (schedule_write h f a st).2
        = trace st ++ map Callback (Event._pending_events (_writes_pending st))
  end.
Proof.
  unfold WriteScheduler.schedule_write.
  destruct (sim_phase st) eqn:Hphase; simpl.
  - split; [done|]. split; [apply get_setitem_eq|done].
  - done.
  - done.
Qed.

End write_scheduler_facts.

End WriteSchedulerFacts.

(** ** The coalescing scenario of the specification

    One Normal phase schedules [W1] to [H1], [W2] to [H2], then [W3] to
    [H1]. *)

Module WriteScenarioFacts.
Import WriteScheduler.
Import WriteScenario.

Lemma apply_order_H2_then_H1 :
  _write_calls scheduled = [(H2, (W2, tt)); (H1, (W3, tt))]
  ∧ apply_scheduled_writes invoke (set_sim_phase READ_WRITE scheduled)
    = (Return tt,
       {| sim_phase := READ_WRITE;
          _write_calls := [];
          _writes_pending := {| Event._pending_events := []; Event._fired := false |};
          trace := [Call W2 tt; Call W3 tt] |}).
Proof.
  destruct (WriteSchedulerFacts.schedule_write_coalesces_per_handle
              invoke get_name_string init calls)
    as (_ & Hpending & _ & _ & _ & Happly).
  - reflexivity.
  - apply NoDup_nil_2.
  - vm_compute. repeat constructor.
  - split; [exact Hpending|exact Happly].
Defined.

End WriteScenarioFacts.

(** ** Constructing triggers *)

Module TriggersFacts.
Import Triggers.

Section construction_facts.
Variable get_sim_steps : Q → string → string → result Z.
Variable sim_register : sim_request → option gpi_cb_hdl.

Local Abbreviation construct := (Triggers.construct get_sim_steps).
Local Abbreviation construct_all := (Triggers.construct_all get_sim_steps).

Lemma construct_singleton c h :
  construct (singleton_call c) h
  = (Return (singleton_new c h).1, (singleton_new c h).2).
Proof. destruct c; simpl; by destruct (singleton_new _ h). Qed.

Lemma instance_singleton_new c h :
  instance (singleton_new c h).2 c = Some (singleton_new c h).1.
Proof.
  unfold singleton_new. destruct (instance h c) eqn:E; simpl; [done|].
  by rewrite decide_True.
Qed.

Lemma instance_kept_singleton_new c' c i h :
  instance h c = Some i → instance (singleton_new c' h).2 c = Some i.
Proof.
  intros Hi. unfold singleton_new. destruct (instance h c') eqn:E; simpl; [done|].
  destruct (decide (c = c')) as [->|Hne]; [congruence|done].
Qed.

Lemma instance_kept_construct call c i h :
  instance h c = Some i → instance (construct call h).2 c = Some i.
Proof.
  intros Hi. destruct call; simpl; try done.
  - by destruct (Timer___init__ _ _ _ _).
  - pose proof (instance_kept_singleton_new SReadOnly c i h Hi).
    by destruct (singleton_new SReadOnly h).
  - pose proof (instance_kept_singleton_new SReadWrite c i h Hi).
    by destruct (singleton_new SReadWrite h).
  - pose proof (instance_kept_singleton_new SNextTimeStep c i h Hi).
    by destruct (singleton_new SNextTimeStep h).
Qed.

Lemma instance_kept_construct_all cs c i h :
  instance h c = Some i → instance (construct_all cs h).2 c = Some i.
Proof.
  revert h. induction cs as [|call cs IH]; intros h Hi; simpl; [done|].
  pose proof (instance_kept_construct call c i h Hi) as H1.
  destruct (construct call h) as [r h1]. simpl in H1.
  specialize (IH h1 H1). by destruct (construct_all cs h1).
Qed.

(** [ReadWrite() is ReadWrite()], and the same for [ReadOnly] and
    [NextTimeStep]: whatever is constructed in between, the second call
    returns the object of the first. *)
Lemma singleton_identity c cs h :
  (construct (singleton_call c)
     (construct_all cs (construct (singleton_call c) h).2).2).1
  = (construct (singleton_call c) h).1.
Proof.
  rewrite !construct_singleton. simpl.
  pose proof (instance_singleton_new c h) as Hi.
  apply (instance_kept_construct_all cs) in Hi.
  unfold singleton_new at 1. by rewrite Hi.
Qed.

(** C3, the part the code does not provide: [RisingEdge(s)] constructed
    twice for the same signal gives two different objects. *)
Theorem RisingEdge_constructed_twice_differs h s :
  (construct (new_RisingEdge s) h).1 = Return (next_id h)
  ∧ (construct (new_RisingEdge s) (construct (new_RisingEdge s) h).2).1
    = Return (S (next_id h))
  ∧ (construct (new_RisingEdge s) (construct (new_RisingEdge s) h).2).1
    ≠ (construct (new_RisingEdge s) h).1.
Proof. simpl. split; [done|]. split; [done|]. intros [= H]. lia. Qed.

(** C4, what the code does instead: the constructors of [RisingEdge] and
    [FallingEdge] return a new trigger for every signal, also for one that
    [__singleton_key__] rejects. *)
Theorem edge_construction_accepts_any_signal h s :
  (construct (new_RisingEdge s) h).1 = Return (next_id h)
  ∧ (construct (new_FallingEdge s) h).1 = Return (next_id h)
  ∧ (HandleObject.isinstance_LogicObject s = false →
     ∃ msg, scalar_singleton_key "RisingEdge" s = Raise (TypeError msg)).
Proof.
  split; [done|]. split; [done|]. intros Hs. unfold scalar_singleton_key.
  rewrite Hs. simpl. eauto.
Qed.

(** C6.  [Timer(time, units, round_mode)] with [time <= 0] raises
    [ValueError]; with a positive [time] that [get_sim_steps] converts to 0
    steps, the timer holds one step and priming it registers a timed
    callback of exactly one step. *)
Theorem Timer_rejects_nonpositive_and_promotes_zero time units round_mode :
  ((time <= 0)%Q →
     ∀ h, construct (new_Timer time units round_mode) h
          = (Raise (ValueError "Timer argument time must be positive"), h))
  ∧ ((0 < time)%Q →
     get_sim_steps time units (default Timer_round_mode round_mode) = Return 0%Z →
     ∀ h callback task_done,
       (construct (new_Timer time units round_mode) h).1 = Return (next_id h)
       ∧ kind <$> objects (construct (new_Timer time units round_mode) h).2
                  !! next_id h = Some (Timer 1)
       ∧ sim_calls (_prime sim_register task_done (next_id h) callback
                      (construct (new_Timer time units round_mode) h).2).2
         = sim_calls h ++ [register_timed_callback 1 callback (next_id h)]).
Proof.
  split.
  - intros Hle h. simpl. unfold Timer___init__.
    by rewrite (proj2 (Qle_bool_iff time 0) Hle).
  - intros Hlt Hsteps h callback task_done.
    assert (Timer___init__ get_sim_steps time units round_mode = Return 1%Z) as Hinit.
    { unfold Timer___init__.
      destruct (Qle_bool time 0) eqn:E.
      - apply Qle_bool_iff in E. by apply Qlt_not_le in Hlt.
      - destruct round_mode; simpl in *; by rewrite Hsteps. }
    simpl. rewrite Hinit. simpl. split; [done|].
    split; [by rewrite lookup_insert_eq|].
    unfold _prime. simpl. rewrite lookup_insert_eq. simpl.
    unfold gpi_prime. simpl. by destruct (sim_register _).
Qed.

End construction_facts.

(** Un-priming raises only for the trigger of an [Event] that is primed and
    missing from the waiter list of its event. *)
Lemma _unprime_returns self h :
  (∀ t parent e,
     objects h !! self = Some t → kind t = _Event parent → _primed t = true →
     events h !! parent = Some e → self ∈ Event._pending_events e) →
  (_unprime self h).1 = Return tt.
Proof.
  intros Hev. unfold _unprime. destruct (objects h !! self) as [t|] eqn:Et; [|done].
  destruct (kind t) as [| | | | | | |parent| |] eqn:Ek; try done.
  destruct (_primed t) eqn:Ep; [|done]. simpl.
  destruct (events h !! parent) as [e|] eqn:Ee; [|done].
  unfold Event._unprime_trigger.
  destruct (PyListFacts.remove_elem_of self (Event._pending_events e)) as [l ->];
    [|done].
  by eapply Hev.
Qed.

End TriggersFacts.

(** *** The trigger scenario *)

Module TriggerScenarioFacts.
Import Triggers TriggersFacts.
Import TriggerScenario.

Example phase_triggers_are_singletons :
  (construct_all get_sim_steps
     [new_ReadWrite; new_ReadOnly; new_ReadWrite; new_NextTimeStep;
      new_ReadOnly; new_NextTimeStep; new_ReadWrite] empty_heap).1
  = [Return 0; Return 1; Return 0; Return 2; Return 1; Return 2; Return 0].
Proof. vm_compute. reflexivity. Qed.

Example RisingEdge_clk_twice :
  (construct_all get_sim_steps [new_RisingEdge clk; new_RisingEdge clk]
     empty_heap).1
  = [Return 0; Return 1].
Proof. vm_compute. reflexivity. Qed.

Example RisingEdge_of_nibble :
  (construct get_sim_steps (new_RisingEdge nibble) empty_heap).1 = Return 0
  ∧ scalar_singleton_key "RisingEdge" nibble
    = Raise (TypeError "RisingEdge requires a scalar LogicObject.").
Proof. vm_compute. split; reflexivity. Qed.

(** [Timer(0)] and [Timer(0.1, 'ns', round_mode='floor')]. *)
Lemma Timer_zero_and_Timer_tenth_of_a_step :
  construct get_sim_steps (new_Timer 0 "step" None) empty_heap
  = (Raise (ValueError "Timer argument time must be positive"), empty_heap)
  ∧ sim_calls (_prime sim_register (λ _, false) 0 _sim_react_fn
                 (construct get_sim_steps
                    (new_Timer (1 # 10) "ns" (Some "floor")) empty_heap).2).2
    = [register_timed_callback 1 _sim_react_fn 0].
Proof.
  split.
  - apply (Timer_rejects_nonpositive_and_promotes_zero
             get_sim_steps sim_register 0 "step" None).
    vm_compute. discriminate.
  - apply (Timer_rejects_nonpositive_and_promotes_zero
             get_sim_steps sim_register (1 # 10) "ns" (Some "floor")).
    + reflexivity.
    + vm_compute. reflexivity.
Defined.

End TriggerScenarioFacts.

(** ** The scheduler and its tasks *)

Module SchedulerFacts.
Import OrderedDict OrderedDictFacts PyListFacts Triggers Scheduler.

(** *** The run queue never holds a task twice *)

Section run_queue.
Variable sim_register : sim_request → option gpi_cb_hdl.

Lemma queue_ok__schedule_task t o w r w' :
  _schedule_task t o w = (r, w') → queue_ok w → queue_ok w'.
Proof.
  unfold _schedule_task, queue_ok. case_match; intros [= <- <-]; [done|].
  simpl. apply wf_setitem.
Qed.

Lemma queue_ok_react_loop l w r w' :
  react_loop l w = (r, w') → queue_ok w → queue_ok w'.
Proof.
  revert w. induction l as [|t l IH]; simpl; intros w.
  - by intros [= <- <-].
  - destruct (_schedule_task _ _ _) as [[|e] w1] eqn:E; intros Hl Hw.
    + eapply IH; [done|]. eapply queue_ok__schedule_task; [done|]. done.
    + injection Hl as <- <-. eapply queue_ok__schedule_task; [done|]. done.
Qed.

Lemma queue_ok__react tr w r w' :
  _react tr w = (r, w') → queue_ok w → queue_ok w'.
Proof.
  unfold _react. destruct (_trigger2tasks w !! tr) as [l|].
  - destruct (react_loop _ _) as [[|e] w1] eqn:E; intros [= <- <-] Hw.
    + eapply queue_ok_react_loop in E; done.
    + eapply queue_ok_react_loop in E; done.
  - intros [= <- <-]. by case_match.
Qed.

Lemma queue_Task_complete t w :
  _scheduled_tasks (Task_complete t w).2 = _scheduled_tasks w.
Proof. unfold Task_complete. repeat case_match; done. Qed.

Lemma queue_unschedule_from_trigger t tr w :
  _scheduled_tasks (unschedule_from_trigger t tr w).2 = _scheduled_tasks w.
Proof. unfold unschedule_from_trigger. repeat case_match; done. Qed.

Lemma queue_ok__unschedule t w r w' :
  _unschedule t w = (r, w') → queue_ok w → queue_ok w'.
Proof.
  unfold _unschedule. intros H Hw.
  set (w0 := if contains t (_scheduled_tasks w) then _ else w) in H.
  assert (queue_ok w0) as Hw0.
  { subst w0. destruct (contains t (_scheduled_tasks w)); [|done].
    unfold queue_ok. simpl. by apply wf_delitem. }
  clearbody w0.
  destruct (tasks w0 !! t ≫= _trigger) as [tr|].
  - pose proof (queue_unschedule_from_trigger t tr w0) as Hq.
    destruct (unschedule_from_trigger t tr w0) as [[|e] w1]; simpl in Hq.
    + destruct (_terminate w1).
      * injection H as <- <-. unfold queue_ok. by rewrite Hq.
      * pose proof (queue_Task_complete t w1) as Hc.
        destruct (Task_complete t w1) as [c w2]. simpl in Hc.
        case_bool_decide.
        -- eapply queue_ok__react; [done|]. unfold queue_ok. by rewrite Hc, Hq.
        -- injection H as <- <-. unfold queue_ok. by rewrite Hc, Hq.
    + injection H as <- <-. unfold queue_ok. by rewrite Hq.
  - destruct (_terminate w0).
    + by injection H as <- <-.
    + pose proof (queue_Task_complete t w0) as Hc.
      destruct (Task_complete t w0) as [c w2]. simpl in Hc.
      case_bool_decide.
      * eapply queue_ok__react; [done|]. unfold queue_ok. by rewrite Hc.
      * injection H as <- <-. unfold queue_ok. by rewrite Hc.
Qed.

Lemma queue_run_callback cb t w :
  _scheduled_tasks (run_callback cb t w).2 = _scheduled_tasks w.
Proof.
  destruct cb. unfold run_callback, run__task_done_callback. simpl.
  destruct (tasks w !! t) as [T|]; [|done].
  destruct (cancelled T); [done|].
  pose proof (queue_Task_complete t (log (done_callback _task_done_callback t) w)) as Hc.
  destruct (Task_complete t _) as [c w1]. simpl in Hc.
  repeat case_match; simpl; done.
Qed.

Lemma queue_do_callbacks cbs t w :
  _scheduled_tasks (do_callbacks cbs t w).2 = _scheduled_tasks w.
Proof.
  revert w. induction cbs as [|cb cbs IH]; intros w; simpl; [done|].
  pose proof (queue_run_callback cb t w) as Hc.
  destruct (run_callback cb t w) as [[|e] w1]; simpl in *.
  - by rewrite IH.
  - done.
Qed.

Lemma queue__do_done_callbacks t w :
  _scheduled_tasks (_do_done_callbacks t w).2 = _scheduled_tasks w.
Proof.
  unfold _do_done_callbacks. case_match; [|done]. apply queue_do_callbacks.
Qed.

Lemma queue_close_coro t w :
  _scheduled_tasks (close_coro t w).2 = _scheduled_tasks w.
Proof. unfold close_coro. repeat case_match; done. Qed.

(** The common tail of [kill] and [cancel]. *)
Lemma queue_ok_terminate t s w r w' :
  match _unschedule t w with
  | (Raise e, w) => (Raise e, w)
  | (Return _, w) =>
      match close_coro t w with
      | (Raise e, w) => (Raise e, w)
      | (Return _, w) => _do_done_callbacks t (update_task t (set__state s) w)
      end
  end = (r, w') →
  queue_ok w → queue_ok w'.
Proof.
  intros H Hw.
  destruct (_unschedule t w) as [[|e] w1] eqn:E1;
    apply queue_ok__unschedule in E1; [| done | | done].
  - pose proof (queue_close_coro t w1) as Hc.
    destruct (close_coro t w1) as [[|e] w2]; simpl in Hc.
    + pose proof (queue__do_done_callbacks t (update_task t (set__state s) w2)) as Hd.
      rewrite H in Hd. simpl in Hd. unfold queue_ok. by rewrite Hd, Hc.
    + injection H as <- <-. unfold queue_ok. by rewrite Hc.
  - by injection H as <- <-.
Qed.

Lemma queue_ok_kill t w r w' : kill t w = (r, w') → queue_ok w → queue_ok w'.
Proof.
  unfold kill. destruct (task_done w t); [by intros [= <- <-]|].
  intros H Hw. by eapply queue_ok_terminate.
Qed.

Lemma queue_ok_cancel t msg w r w' :
  cancel t msg w = (r, w') → queue_ok w → queue_ok w'.
Proof.
  unfold cancel. destruct (task_done w t); [by intros [= <- <-]|].
  intros H Hw. by eapply queue_ok_terminate.
Qed.

Lemma queue__add_done_callback t cb w :
  _scheduled_tasks (_add_done_callback t cb w).2 = _scheduled_tasks w.
Proof.
  unfold _add_done_callback. destruct (task_done w t).
  - pose proof (queue_run_callback cb t w) as Hc.
    destruct (run_callback cb t w) as [[|e] w1]; done.
  - done.
Qed.

Lemma queue__advance t o sent w :
  _scheduled_tasks (_advance t o sent w).2 = _scheduled_tasks w.
Proof.
  unfold _advance. destruct sent; simpl; try done.
  - case_match; [|done].
    match goal with |- context [_do_done_callbacks t ?w0] =>
      pose proof (queue__do_done_callbacks t w0) as Hd;
      destruct (_do_done_callbacks t w0) as [[|e'] w1] end; done.
  - case_match; [|done].
    match goal with |- context [_do_done_callbacks t ?w0] =>
      pose proof (queue__do_done_callbacks t w0) as Hd;
      destruct (_do_done_callbacks t w0) as [[|e'] w1] end; done.
Qed.

Lemma queue_ok__schedule_task_upon t tr w r w' :
  _schedule_task_upon sim_register t tr w = (r, w') → queue_ok w → queue_ok w'.
Proof.
  unfold _schedule_task_upon. intros H Hw.
  repeat (case_match; simplify_eq/=; try done);
    repeat match goal with
    | H : _react _ _ = _ |- _ => apply queue_ok__react in H; [|done]
    | H : _schedule_task _ _ _ = _ |- _ => apply queue_ok__schedule_task in H; [|done]
    end; done.
Qed.

Lemma queue_ok__trigger_from_any v w r w' :
  _trigger_from_any v w = (r, w') → queue_ok w → queue_ok w'.
Proof.
  unfold _trigger_from_any. intros H Hw.
  destruct v; simplify_eq/=; try done.
  destruct (tasks w !! task) as [T|]; simplify_eq/=; [|done].
  destruct (decide (_state T = UNSTARTED)).
  - destruct (_schedule_task task _none_outcome w) as [[|?] w1] eqn:E;
      apply queue_ok__schedule_task in E; try done.
    + pose proof (queue_Task_complete task w1) as Hc.
      destruct (Task_complete task w1) as [c w2]. simplify_eq/=.
      unfold queue_ok. by rewrite Hc.
    + by simplify_eq/=.
  - pose proof (queue_Task_complete task w) as Hc.
    destruct (Task_complete task w) as [c w2]. simplify_eq/=.
    unfold queue_ok. by rewrite Hc.
Qed.

Lemma queue_ok_after_advance t res w r w' :
  (if _terminate w then (Return tt, w)
   else if task_done w t then (Return tt, w)
   else
     match _trigger_from_any (default PyNone res) w with
     | (Raise exc, w) =>
         if is_TypeError exc then _schedule_task t (Error exc) w
         else (Raise exc, w)
     | (Return trigger, w) => _schedule_task_upon sim_register t trigger w
     end) = (r, w') →
  queue_ok w → queue_ok w'.
Proof.
  intros H Hw.
  destruct (_terminate w); [by simplify_eq|].
  destruct (task_done w t); [by simplify_eq|].
  destruct (_trigger_from_any _ w) as [[tr|e3] w3] eqn:E3;
    apply queue_ok__trigger_from_any in E3; try done.
  - by apply queue_ok__schedule_task_upon in H.
  - destruct (is_TypeError e3); [|by simplify_eq].
    by apply queue_ok__schedule_task in H.
Qed.

Lemma queue_ok__resume_task t o sent w r w' :
  _resume_task sim_register t o sent w = (r, w') → queue_ok w → queue_ok w'.
Proof.
  unfold _resume_task. intros H Hw.
  destruct (_current_task w); [by simplify_eq/=|].
  injection H as <- <-.
  pose proof (queue__advance t o sent (set__current_task (Some t) w)) as Ha.
  destruct (_advance t o sent _) as [[res|?] w1]; simpl in Ha.
  2:{ unfold queue_ok. simpl. by rewrite Ha. }
  assert (queue_ok w1) as Hw1 by (unfold queue_ok; by rewrite Ha).
  destruct (task_done w1 t) eqn:Hd.
  - destruct (_unschedule t w1) as [[|?] w2] eqn:E;
      apply queue_ok__unschedule in E; try done.
    match goal with |- queue_ok (set__current_task None ?b.2) =>
      destruct b as [r4 w4] eqn:E4 end.
    by apply queue_ok_after_advance in E4.
  - match goal with |- queue_ok (set__current_task None ?b.2) =>
      destruct b as [r4 w4] eqn:E4 end.
    by apply queue_ok_after_advance in E4.
Qed.

Lemma queue_ok_start_soon w r w' :
  start_soon w = (r, w') → queue_ok w → queue_ok w'.
Proof.
  unfold start_soon. intros H Hw.
  match type of H with context [_add_done_callback ?t ?cb ?w0] =>
    pose proof (queue__add_done_callback t cb w0) as Ha;
    destruct (_add_done_callback t cb w0) as [[|?] w1] end; simpl in Ha.
  - destruct (_schedule_task _ _ _) as [[|?] w2] eqn:E;
      apply queue_ok__schedule_task in E; simplify_eq/=; try done;
      unfold queue_ok; by rewrite Ha.
  - simplify_eq/=. unfold queue_ok. by rewrite Ha.
Qed.

Lemma queue_ok_pop_scheduled w :
  queue_ok w → queue_ok (pop_scheduled w).2.
Proof.
  unfold pop_scheduled, queue_ok. intros Hw.
  destruct (popitem_first (_scheduled_tasks w)) as [[kv d]|] eqn:E; [|done].
  simpl. by eapply wf_popitem_first.
Qed.

Lemma queue_ok_exec c w : queue_ok w → queue_ok (exec sim_register c w).
Proof.
  intros Hw. destruct c; simpl.
  - by eapply queue_ok__schedule_task; [apply surjective_pairing|].
  - by eapply queue_ok__schedule_task_upon; [apply surjective_pairing|].
  - by eapply queue_ok__unschedule; [apply surjective_pairing|].
  - by eapply queue_ok__react; [apply surjective_pairing|].
  - by eapply queue_ok__resume_task; [apply surjective_pairing|].
  - unfold queue_ok. by rewrite queue__advance.
  - by apply queue_ok_pop_scheduled.
  - by eapply queue_ok_start_soon; [apply surjective_pairing|].
  - by eapply queue_ok_kill; [apply surjective_pairing|].
  - by eapply queue_ok_cancel; [apply surjective_pairing|].
  - done.
Qed.

Lemma queue_ok_exec_all cs w :
  queue_ok w → queue_ok (exec_all sim_register cs w).
Proof.
  revert w. induction cs as [|c cs IH]; intros w Hw; simpl; [done|].
  apply IH. by apply queue_ok_exec.
Qed.

(** C9.  In every state the scheduler reaches from its initial state by
    calls of its methods and of the task methods, a task is in the run
    queue at most once; and in any state [_schedule_task] on a task that is
    in the run queue raises and changes nothing. *)
Theorem run_queue_holds_a_task_once :
  (∀ cs, NoDup (keys (_scheduled_tasks (exec_all sim_register cs init))))
  ∧ (∀ w task outcome,
       task ∈ keys (_scheduled_tasks w) →
       _schedule_task task outcome w
       = (Raise (Exception "Task was queued more than once."), w)).
Proof.
  split.
  - intros cs. apply (queue_ok_exec_all cs init). apply NoDup_nil_2.
  - intros w task outcome Hin. unfold _schedule_task.
    by rewrite (proj2 (contains_true task _) Hin).
Qed.

End run_queue.

(** *** How the task objects change *)

Lemma lookup_update_task t f w t' :
  tasks (update_task t f w) !! t'
  = if decide (t' = t) then f <$> tasks w !! t else tasks w !! t'.
Proof.
  unfold update_task. simpl. destruct (tasks w !! t) as [T|] eqn:E.
  - destruct (decide (t' = t)) as [->|Hne].
    + by rewrite lookup_insert_eq.
    + by rewrite lookup_insert_ne.
  - destruct (decide (t' = t)) as [->|Hne]; [by rewrite E|done].
Qed.

Lemma lookup_update_task_eq t f w T :
  tasks w !! t = Some T → tasks (update_task t f w) !! t = Some (f T).
Proof. intros H. rewrite lookup_update_task, decide_True by done. by rewrite H. Qed.

Lemma Task_same_refl T : Task_same T T.
Proof. by repeat split. Qed.

Lemma Task_kept_refl T : Task_kept T T.
Proof. repeat split; auto. Qed.

Lemma Task_same_trans T1 T2 T3 : Task_same T1 T2 → Task_same T2 T3 → Task_same T1 T3.
Proof. unfold Task_same. intros (?&?&?&?&?&?) (?&?&?&?&?&?). repeat split; congruence. Qed.

Lemma Task_kept_trans T1 T2 T3 : Task_kept T1 T2 → Task_kept T2 T3 → Task_kept T1 T3.
Proof.
  unfold Task_kept. intros (?&?&?&?&?&Hs1) (?&?&?&?&?&Hs2).
  repeat split; try congruence; [auto|].
  destruct Hs2 as [Hs2|Hs2]; [|by right]. rewrite Hs2. done.
Qed.

Lemma Task_same_kept T T' : Task_same T T' → Task_kept T T'.
Proof.
  unfold Task_same, Task_kept. intros (?&?&?&?&?&?).
  repeat split; try congruence. by left.
Qed.

Lemma tasks_rel_refl R w : (∀ T, R T T) → tasks_rel R w w.
Proof. intros HR t T HT. eauto. Qed.

Lemma tasks_rel_trans R w1 w2 w3 :
  (∀ T1 T2 T3, R T1 T2 → R T2 T3 → R T1 T3) →
  tasks_rel R w1 w2 → tasks_rel R w2 w3 → tasks_rel R w1 w3.
Proof.
  intros HR H12 H23 t T HT.
  destruct (H12 t T HT) as (T2 & HT2 & HR2).
  destruct (H23 t T2 HT2) as (T3 & HT3 & HR3). eauto.
Qed.

Lemma tasks_rel_mono (R R' : Task → Task → Prop) w w' :
  (∀ T T', R T T' → R' T T') → tasks_rel R w w' → tasks_rel R' w w'.
Proof. intros HR H t T HT. destruct (H t T HT) as (T' & ? & ?). eauto. Qed.

Lemma tasks_rel_same_tasks R w w' :
  (∀ T, R T T) → tasks w' = tasks w → tasks_rel R w w'.
Proof. intros HR Heq t T HT. rewrite Heq. eauto. Qed.

Lemma tasks_rel_update_task R t f w :
  (∀ T, R T T) → (∀ T, R T (f T)) → tasks_rel R w (update_task t f w).
Proof.
  intros HR Hf t' T HT. rewrite lookup_update_task.
  destruct (decide (t' = t)) as [->|Hne].
  - rewrite HT. simpl. eauto.
  - eauto.
Qed.

Lemma kept_set__state t w :
  tasks_rel Task_kept w (update_task t (set__state SCHEDULED) w).
Proof.
  apply tasks_rel_update_task; [apply Task_kept_refl|].
  intros T. repeat split; auto.
Qed.

Lemma kept_set__trigger_None t w :
  tasks_rel Task_kept w (update_task t (set__trigger None) w).
Proof.
  apply tasks_rel_update_task; [apply Task_kept_refl|].
  intros T. repeat split; auto.
Qed.

Lemma same_Task_complete t w : tasks_rel Task_same w (Task_complete t w).2.
Proof.
  unfold Task_complete. destruct (tasks w !! t) as [T|] eqn:E.
  - destruct (complete T).
    + apply tasks_rel_refl, Task_same_refl.
    + simpl. intros t' T' HT'. rewrite lookup_update_task. simpl.
      destruct (decide (t' = t)) as [->|Hne]; [|eauto using Task_same_refl].
      rewrite HT'. simpl. eexists. split; [done|]. by repeat split.
  - apply tasks_rel_refl, Task_same_refl.
Qed.

Lemma kept__schedule_task t o w : tasks_rel Task_kept w (_schedule_task t o w).2.
Proof.
  unfold _schedule_task. case_match; simpl.
  - apply tasks_rel_refl, Task_kept_refl.
  - apply (kept_set__state t w).
Qed.

Lemma kept_react_loop l w : tasks_rel Task_kept w (react_loop l w).2.
Proof.
  revert w. induction l as [|t l IH]; intros w; simpl.
  - apply tasks_rel_refl, Task_kept_refl.
  - pose proof (kept__schedule_task t _none_outcome
                  (update_task t (set__trigger None) w)) as Hs.
    pose proof (kept_set__trigger_None t w) as Ht.
    destruct (_schedule_task _ _ _) as [[|e] w1]; simpl in Hs.
    + eapply tasks_rel_trans; [apply Task_kept_trans| |apply IH].
      eapply tasks_rel_trans; [apply Task_kept_trans|done|done].
    + simpl. eapply tasks_rel_trans; [apply Task_kept_trans|done|done].
Qed.

Lemma kept__react tr w : tasks_rel Task_kept w (_react tr w).2.
Proof.
  unfold _react. destruct (_trigger2tasks w !! tr) as [l|].
  - pose proof (kept_react_loop l (set__trigger2tasks (delete tr) w)) as Hl.
    destruct (react_loop _ _) as [[|e] w1]; simpl in *; done.
  - simpl. case_match; apply tasks_rel_same_tasks; done || apply Task_kept_refl.
Qed.

Lemma kept_unschedule_from_trigger t tr w :
  tasks_rel Task_kept w (unschedule_from_trigger t tr w).2.
Proof.
  unfold unschedule_from_trigger.
  pose proof (kept_set__trigger_None t w) as Ht.
  repeat case_match; simpl; done.
Qed.

Lemma kept__unschedule t w : tasks_rel Task_kept w (_unschedule t w).2.
Proof.
  unfold _unschedule.
  set (w0 := if contains t (_scheduled_tasks w) then _ else w).
  assert (tasks_rel Task_kept w w0) as H0.
  { subst w0. destruct (contains t (_scheduled_tasks w));
      (apply tasks_rel_same_tasks; [apply Task_kept_refl|done]). }
  clearbody w0.
  assert (∃ r1 w1, (match tasks w0 !! t ≫= _trigger with
                    | Some trigger => unschedule_from_trigger t trigger w0
                    | None => (Return (), w0)
                    end) = (r1, w1) ∧ tasks_rel Task_kept w w1)
    as (r1 & w1 & -> & H1).
  { destruct (tasks w0 !! t ≫= _trigger) as [tr|].
    - pose proof (kept_unschedule_from_trigger t tr w0) as Hu.
      destruct (unschedule_from_trigger t tr w0) as [r1 w1].
      exists r1, w1. split; [done|].
      eapply tasks_rel_trans; [apply Task_kept_trans|done|done].
    - by exists (Return tt), w0. }
  destruct r1 as [|e]; [|done].
  destruct (_terminate w1); [done|].
  pose proof (same_Task_complete t w1) as Hc.
  destruct (Task_complete t w1) as [c w2]. simpl in Hc.
  apply (tasks_rel_mono _ _ _ _ Task_same_kept) in Hc.
  assert (tasks_rel Task_kept w w2) as H2
    by (eapply tasks_rel_trans; [apply Task_kept_trans|done|done]).
  case_bool_decide; [|done].
  eapply tasks_rel_trans; [apply Task_kept_trans|done|apply kept__react].
Qed.

Lemma same_run_callback cb t w : tasks_rel Task_same w (run_callback cb t w).2.
Proof.
  destruct cb. unfold run_callback, run__task_done_callback. simpl.
  destruct (tasks w !! t) as [T|]; [|by apply tasks_rel_same_tasks; [apply Task_same_refl|]].
  destruct (cancelled T); [by apply tasks_rel_same_tasks; [apply Task_same_refl|]|].
  pose proof (same_Task_complete t (log (done_callback _task_done_callback t) w)) as Hc.
  destruct (Task_complete t _) as [c w1]. simpl in Hc.
  assert (tasks_rel Task_same w w1) as Hw1 by (intros t' T' HT'; by apply Hc).
  repeat case_match; simpl; done.
Qed.

Lemma same_do_callbacks cbs t w : tasks_rel Task_same w (do_callbacks cbs t w).2.
Proof.
  revert w. induction cbs as [|cb cbs IH]; intros w; simpl.
  - apply tasks_rel_refl, Task_same_refl.
  - pose proof (same_run_callback cb t w) as Hc.
    destruct (run_callback cb t w) as [[|e] w1]; simpl in *; [|done].
    eapply tasks_rel_trans; [apply Task_same_trans|done|apply IH].
Qed.

Lemma trace_run_callback cb t w w' :
  run_callback cb t w = (Return tt, w') →
  trace w' = trace w ++ [done_callback cb t].
Proof.
  destruct cb. unfold run_callback, run__task_done_callback. simpl.
  destruct (tasks w !! t) as [T|]; [|by intros [= <-]].
  destruct (cancelled T); [by intros [= <-]|].
  unfold Task_complete. simpl.
  repeat case_match; simplify_eq/=; try done; by intros [= <-].
Qed.

Lemma trace_do_callbacks cbs t w w' :
  do_callbacks cbs t w = (Return tt, w') →
  trace w' = trace w ++ map (λ cb, done_callback cb t) cbs.
Proof.
  revert w. induction cbs as [|cb cbs IH]; intros w; simpl.
  - intros [= <-]. by rewrite app_nil_r.
  - destruct (run_callback cb t w) as [[[]|e] w1] eqn:E; [|done].
    intros H. apply IH in H. apply trace_run_callback in E.
    by rewrite H, E, <- app_assoc.
Qed.

Lemma trace_Task_complete t w : trace (Task_complete t w).2 = trace w.
Proof. unfold Task_complete. repeat case_match; done. Qed.

Lemma trace__schedule_task t o w : trace (_schedule_task t o w).2 = trace w.
Proof. unfold _schedule_task. by case_match. Qed.

Lemma trace_react_loop l w : trace (react_loop l w).2 = trace w.
Proof.
  revert w. induction l as [|t l IH]; intros w; simpl; [done|].
  pose proof (trace__schedule_task t _none_outcome
                (update_task t (set__trigger None) w)) as Hs.
  destruct (_schedule_task _ _ _) as [[|e] w1]; simpl in Hs; [|done].
  by rewrite IH.
Qed.

Lemma trace__react_waited tr w :
  is_Some (_trigger2tasks w !! tr) → trace (_react tr w).2 = trace w.
Proof.
  intros [l Hl]. unfold _react. rewrite Hl.
  pose proof (trace_react_loop l (set__trigger2tasks (delete tr) w)) as Hr.
  destruct (react_loop _ _) as [[|e] w1]; done.
Qed.

Lemma trace_unschedule_from_trigger t tr w :
  trace (unschedule_from_trigger t tr w).2 = trace w.
Proof. unfold unschedule_from_trigger. repeat case_match; done. Qed.

Lemma trace__unschedule t w : trace (_unschedule t w).2 = trace w.
Proof.
  unfold _unschedule.
  set (w0 := if contains t (_scheduled_tasks w) then _ else w).
  assert (trace w0 = trace w) as H0 by (subst w0; by case_match).
  clearbody w0.
  assert (∃ r1 w1, (match tasks w0 !! t ≫= _trigger with
                    | Some trigger => unschedule_from_trigger t trigger w0
                    | None => (Return (), w0)
                    end) = (r1, w1) ∧ trace w1 = trace w)
    as (r1 & w1 & -> & H1).
  { destruct (tasks w0 !! t ≫= _trigger) as [tr|].
    - pose proof (trace_unschedule_from_trigger t tr w0) as Hu.
      destruct (unschedule_from_trigger t tr w0) as [r1 w1].
      exists r1, w1. split; [done|]. simpl in Hu. congruence.
    - by exists (Return tt), w0. }
  destruct r1 as [|e]; [|done].
  destruct (_terminate w1); [done|].
  pose proof (trace_Task_complete t w1) as Hc.
  destruct (Task_complete t w1) as [c w2]. simpl in Hc.
  case_bool_decide as Hin; simpl; [|congruence].
  rewrite trace__react_waited by done. congruence.
Qed.

(** *** The run queue and the waiter lists *)

Lemma keys_setitem (k : task_id) (v : Outcome) d x :
  x ∈ keys (setitem k v d) → x = k ∨ x ∈ keys d.
Proof.
  induction d as [|[k' v'] d IH]; simpl.
  - intros [->|Hx]%elem_of_cons; [by left|]. by apply elem_of_nil in Hx.
  - destruct (decide (k' = k)) as [->|Hne]; simpl.
    + intros ?. by right.
    + intros [->|Hx]%elem_of_cons; [right; left|].
      destruct (IH Hx) as [?|?]; [by left|right; by right].
Qed.

Lemma keys__schedule_task t o w x :
  x ∈ keys (_scheduled_tasks (_schedule_task t o w).2) →
  x = t ∨ x ∈ keys (_scheduled_tasks w).
Proof.
  unfold _schedule_task. case_match; simpl; [by right|]. apply keys_setitem.
Qed.

Lemma keys_react_loop l w x :
  x ∈ keys (_scheduled_tasks (react_loop l w).2) →
  x ∈ l ∨ x ∈ keys (_scheduled_tasks w).
Proof.
  revert w. induction l as [|t l IH]; intros w; simpl; [by right|].
  pose proof (keys__schedule_task t _none_outcome
                (update_task t (set__trigger None) w) x) as Hs.
  destruct (_schedule_task _ _ _) as [[|e] w1]; simpl in Hs.
  - intros [?|?]%IH; [left; by right|].
    destruct Hs as [->|?]; [done|left; left|by right].
  - simpl. intros H. destruct Hs as [->|?]; [done|left; left|by right].
Qed.

Lemma keys__react tr w x :
  x ∈ keys (_scheduled_tasks (_react tr w).2) →
  x ∈ keys (_scheduled_tasks w)
  ∨ ∃ l, _trigger2tasks w !! tr = Some l ∧ x ∈ l.
Proof.
  unfold _react. destruct (_trigger2tasks w !! tr) as [l|].
  - pose proof (keys_react_loop l (set__trigger2tasks (delete tr) w) x) as Hl.
    destruct (react_loop _ _) as [[|e] w1]; simpl in *;
      intros [?|?]%Hl; eauto.
  - simpl. case_match; by left.
Qed.

Lemma waiters__schedule_task t o w :
  _trigger2tasks (_schedule_task t o w).2 = _trigger2tasks w.
Proof. unfold _schedule_task. by case_match. Qed.

Lemma waiters_react_loop l w :
  _trigger2tasks (react_loop l w).2 = _trigger2tasks w.
Proof.
  revert w. induction l as [|t l IH]; intros w; simpl; [done|].
  pose proof (waiters__schedule_task t _none_outcome
                (update_task t (set__trigger None) w)) as Hs.
  destruct (_schedule_task _ _ _) as [[|e] w1]; simpl in Hs; [|done].
  by rewrite IH.
Qed.

Lemma waiters__react tr w tr' l :
  _trigger2tasks (_react tr w).2 !! tr' = Some l →
  _trigger2tasks w !! tr' = Some l.
Proof.
  unfold _react. destruct (_trigger2tasks w !! tr) as [l0|] eqn:E.
  - pose proof (waiters_react_loop l0 (set__trigger2tasks (delete tr) w)) as Hl.
    destruct (react_loop _ _) as [[|e] w1]; simpl in *; rewrite Hl;
      intros H; by apply lookup_delete_Some in H as [_ ?].
  - simpl. by case_match.
Qed.

Lemma waiters_Task_complete t w :
  _trigger2tasks (Task_complete t w).2 = _trigger2tasks w.
Proof. unfold Task_complete. repeat case_match; done. Qed.

Lemma tasks_unschedule_from_trigger t tr w :
  tasks (unschedule_from_trigger t tr w).2
  = tasks (update_task t (set__trigger None) w).
Proof. unfold unschedule_from_trigger. repeat case_match; done. Qed.

Lemma unschedule_from_trigger_waiters t tr w T r w' :
  _trigger T = Some tr →
  waits_on_its_trigger w t T →
  unschedule_from_trigger t tr w = (r, w') →
  ¬ waiting w' t.
Proof.
  intros HT Hwait. unfold unschedule_from_trigger. simpl.
  set (l0 := default [] (_trigger2tasks w !! tr)).
  set (l1 := if bool_decide (t ∈ l0) then default l0 (PyList.remove t l0) else l0).
  assert (t ∉ l1) as Hl1.
  { subst l1. case_bool_decide as Hin; [|done].
    assert (_trigger2tasks w !! tr = Some l0) as Hl0.
    { subst l0. destruct (_trigger2tasks w !! tr); [done|].
      simpl in Hin. by apply elem_of_nil in Hin. }
    destruct (Hwait tr l0 Hl0 Hin) as [_ Hnd].
    destruct (remove_elem_of t l0 Hin) as [l' E]. rewrite E.
    simpl. by eapply remove_NoDup. }
  assert (∀ tr' l, <[tr := l1]> (_trigger2tasks w) !! tr' = Some l → t ∉ l) as Hmap.
  { intros tr' l. destruct (decide (tr' = tr)) as [->|Hne].
    - rewrite lookup_insert_eq. by intros [= <-].
    - rewrite lookup_insert_ne by done. intros Hl Hin.
      destruct (Hwait tr' l Hl Hin) as [? _]. congruence. }
  clearbody l1. clear l0.
  destruct l1 as [|x l1].
  - destruct (_unprime tr _) as [[|e] h']; intros [= <- <-] (tr' & l & Hl & Hin);
      simpl in Hl.
    + apply lookup_delete_Some in Hl as [_ Hl]. by eapply Hmap.
    + by eapply Hmap.
  - intros [= <- <-] (tr' & l & Hl & Hin). by eapply Hmap.
Qed.

Lemma _unschedule_removes t w T w' :
  tasks w !! t = Some T →
  queue_ok w →
  waits_on_its_trigger w t T →
  _unschedule t w = (Return tt, w') →
  (t ∉ keys (_scheduled_tasks w'))
  ∧ ¬ waiting w' t
  ∧ ∃ T', tasks w' !! t = Some T' ∧ Task_kept T T' ∧ _trigger T' = None.
Proof.
  intros HT Hq Hwait. unfold _unschedule.
  set (w0 := if contains t (_scheduled_tasks w) then _ else w).
  assert (tasks w0 = tasks w ∧ _trigger2tasks w0 = _trigger2tasks w
          ∧ t ∉ keys (_scheduled_tasks w0)) as (Ht0 & Hm0 & Hq0).
  { subst w0. destruct (contains t (_scheduled_tasks w)) eqn:Hc; simpl.
    - split; [done|]. split; [done|]. by apply not_in_delitem.
    - split; [done|]. split; [done|]. by apply contains_false. }
  clearbody w0. rewrite Ht0, HT. simpl.
  assert (∃ r1 w1, (match _trigger T with
                    | Some trigger => unschedule_from_trigger t trigger w0
                    | None => (Return (), w0)
                    end) = (r1, w1)
                   ∧ _scheduled_tasks w1 = _scheduled_tasks w0
                   ∧ ¬ waiting w1 t
                   ∧ ∃ T1, tasks w1 !! t = Some T1 ∧ Task_kept T T1
                           ∧ _trigger T1 = None)
    as (r1 & w1 & -> & Hq1 & Hw1 & T1 & HT1 & Hk1 & Htr1).
  { destruct (_trigger T) as [tr|] eqn:Etr.
    - destruct (unschedule_from_trigger t tr w0) as [r1 w1] eqn:E.
      exists r1, w1. split; [done|]. split; [|split].
      + by rewrite <- (queue_unschedule_from_trigger t tr w0), E.
      + eapply unschedule_from_trigger_waiters; [done| |done].
        intros tr' l. rewrite Hm0. apply Hwait.
      + pose proof (tasks_unschedule_from_trigger t tr w0) as Hts.
        rewrite E in Hts. cbn [snd] in Hts. rewrite Hts.
        rewrite lookup_update_task, decide_True, Ht0, HT by done. simpl.
        eexists. split; [done|]. repeat split; auto.
    - exists (Return tt), w0. split; [done|]. split; [done|]. split.
      + intros (tr & l & Hl & Hin). rewrite Hm0 in Hl.
        destruct (Hwait tr l Hl Hin) as [? _]. congruence.
      + exists T. rewrite Ht0. split; [done|]. split; [apply Task_kept_refl|done]. }
  destruct r1 as [|e]; [|done].
  destruct (_terminate w1).
  { intros [= <-]. rewrite Hq1. eauto 10. }
  pose proof (queue_Task_complete t w1) as Hqc.
  pose proof (waiters_Task_complete t w1) as Hwc.
  pose proof (same_Task_complete t w1 t T1 HT1) as (T2 & HT2 & Hs2).
  destruct (Task_complete t w1) as [c w2]. simpl in *.
  assert (¬ waiting w2 t) as Hw2.
  { intros (tr & l & Hl & Hin). apply Hw1. exists tr, l. by rewrite <- Hwc. }
  assert (Task_kept T T2 ∧ _trigger T2 = None) as [Hk2 Htr2].
  { split.
    - eapply Task_kept_trans; [done|]. by apply Task_same_kept.
    - destruct Hs2 as (_ & _ & -> & _). done. }
  case_bool_decide as Hc.
  - intros Hr. assert (w' = (_react c w2).2) as -> by (by rewrite Hr).
    split; [|split].
    + intros Hin.
      apply keys__react in Hin as [Hin|(l & Hl & Hin)].
      * rewrite Hqc, Hq1 in Hin. done.
      * apply Hw2. by exists c, l.
    + intros (tr & l & Hl & Hin). apply Hw2. exists tr, l. split; [|done].
      by apply (waiters__react c w2).
    + pose proof (kept__react c w2 t T2 HT2) as (T3 & HT3 & Hk3).
      exists T3. split; [done|]. split.
      * by eapply Task_kept_trans.
      * destruct Hk3 as (_ & _ & _ & _ & Hn & _). by apply Hn.
  - intros [= <-]. rewrite Hqc, Hq1. eauto 10.
Qed.

Lemma waiters_run_callback cb t w :
  _trigger2tasks (run_callback cb t w).2 = _trigger2tasks w.
Proof.
  destruct cb. unfold run_callback, run__task_done_callback. simpl.
  destruct (tasks w !! t) as [T|]; [|done].
  destruct (cancelled T); [done|].
  pose proof (waiters_Task_complete t (log (done_callback _task_done_callback t) w)) as Hc.
  destruct (Task_complete t _) as [c w1]. simpl in Hc.
  repeat case_match; simpl; done.
Qed.

Lemma waiters_do_callbacks cbs t w :
  _trigger2tasks (do_callbacks cbs t w).2 = _trigger2tasks w.
Proof.
  revert w. induction cbs as [|cb cbs IH]; intros w; simpl; [done|].
  pose proof (waiters_run_callback cb t w) as Hc.
  destruct (run_callback cb t w) as [[|e] w1]; simpl in *.
  - by rewrite IH.
  - done.
Qed.

(** *** [kill] and [cancel] *)

Lemma kill_unfold t w :
  kill t w
  = if task_done w t then (Return tt, w)
    else terminate t FINISHED
           (update_task t (set__outcome (Some (Value PyNone))) w).
Proof. done. Qed.

Lemma cancel_unfold t msg w :
  cancel t msg w
  = if task_done w t then (Return tt, w)
    else terminate t CANCELLED
           (log (warn_FutureWarning t)
              (update_task t (set__cancelled_error (Some (CancelledError msg))) w)).
Proof. done. Qed.

Lemma terminate_fields t s w T w' :
  tasks w !! t = Some T →
  terminate t s w = (Return tt, w') →
  ∃ T', tasks w' !! t = Some T'
    ∧ _state T' = s
    ∧ _outcome T' = _outcome T
    ∧ _cancelled_error T' = _cancelled_error T
    ∧ _done_callbacks T' = _done_callbacks T
    ∧ _coro_closed T' = true
    ∧ trace w' = trace w ++ [coro_close t]
                 ++ map (λ cb, done_callback cb t) (_done_callbacks T).
Proof.
  intros HT. unfold terminate.
  pose proof (kept__unschedule t w t T HT) as (T2 & HT2 & Hk2).
  pose proof (trace__unschedule t w) as Htr2.
  destruct (_unschedule t w) as [[[]|e] w2]; [|done]. simpl in *.
  unfold close_coro. rewrite HT2.
  destruct (decide (_state T2 = RUNNING)); [done|].
  unfold _do_done_callbacks.
  set (w3 := update_task t (set__coro_closed true) w2).
  set (w4 := update_task t (set__state s) (log (coro_close t) w3)).
  assert (tasks w4 !! t = Some (set__state s (set__coro_closed true T2))) as HT4.
  { subst w4 w3. apply lookup_update_task_eq. simpl.
    change (tasks (update_task t (set__coro_closed true) w2) !! t = Some (set__coro_closed true T2)).
    by apply lookup_update_task_eq. }
  rewrite HT4. simpl. intros Hcb.
  pose proof (same_do_callbacks (_done_callbacks T2) t w4 t _ HT4) as (T' & HT' & Hs).
  rewrite Hcb in HT'. simpl in HT'.
  apply trace_do_callbacks in Hcb.
  destruct Hk2 as (Ho & Hc & Hd & _ & _ & _).
  destruct Hs as (Hs1 & Hs2 & Hs3 & Hs4 & Hs5 & Hs6). simpl in *.
  exists T'. split; [done|]. repeat split; try congruence.
  rewrite Hcb. subst w4 w3. simpl. rewrite Htr2, Hd. by rewrite <- app_assoc.
Qed.

Lemma terminate_removed t s w T w' :
  tasks w !! t = Some T →
  queue_ok w →
  waits_on_its_trigger w t T →
  terminate t s w = (Return tt, w') →
  (t ∉ keys (_scheduled_tasks w'))
  ∧ ¬ waiting w' t
  ∧ ∃ T', tasks w' !! t = Some T' ∧ _trigger T' = None.
Proof.
  intros HT Hq Hwait. unfold terminate.
  destruct (_unschedule t w) as [[[]|e] w2] eqn:E; [|done].
  destruct (_unschedule_removes t w T w2 HT Hq Hwait E)
    as (Hq2 & Hw2 & T2 & HT2 & Hk2 & Htr2).
  unfold close_coro. rewrite HT2.
  destruct (decide (_state T2 = RUNNING)); [done|].
  unfold _do_done_callbacks.
  set (w3 := update_task t (set__coro_closed true) w2).
  set (w4 := update_task t (set__state s) (log (coro_close t) w3)).
  assert (tasks w4 !! t = Some (set__state s (set__coro_closed true T2))) as HT4.
  { subst w4 w3. apply lookup_update_task_eq. simpl.
    change (tasks (update_task t (set__coro_closed true) w2) !! t = Some (set__coro_closed true T2)).
    by apply lookup_update_task_eq. }
  rewrite HT4. simpl. intros Hcb.
  pose proof (same_do_callbacks (_done_callbacks T2) t w4 t _ HT4) as (T' & HT' & Hs).
  pose proof (queue_do_callbacks (_done_callbacks T2) t w4) as Hqc.
  pose proof (waiters_do_callbacks (_done_callbacks T2) t w4) as Hwc.
  rewrite Hcb in HT', Hqc, Hwc. simpl in *.
  split; [|split].
  - by rewrite Hqc.
  - intros (tr & l & Hl & Hin). apply Hw2. exists tr, l. by rewrite <- Hwc.
  - exists T'. split; [done|]. destruct Hs as (_ & _ & -> & _). done.
Qed.

(** *** When [kill] and [cancel] return *)

Lemma react_loop_returns l w :
  NoDup l →
  (∀ x, x ∈ l → x ∉ keys (_scheduled_tasks w)) →
  (react_loop l w).1 = Return tt.
Proof.
  revert w. induction l as [|t l IH]; intros w Hnd Hq; simpl; [done|].
  apply NoDup_cons in Hnd as [Ht Hnd].
  unfold _schedule_task. simpl.
  rewrite (proj2 (contains_false t (_scheduled_tasks w))) by (apply Hq; left).
  apply IH; [done|]. simpl. intros x Hx Hin.
  apply keys_setitem in Hin as [->|Hin]; [done|].
  by apply (Hq x); [right|].
Qed.

Lemma _react_returns tr w : waiters_ok w → (_react tr w).1 = Return tt.
Proof.
  intros Hok. unfold _react. destruct (_trigger2tasks w !! tr) as [l|] eqn:E; [|done].
  destruct (Hok tr l E) as [Hnd Hq].
  pose proof (react_loop_returns l (set__trigger2tasks (delete tr) w) Hnd Hq) as Hr.
  destruct (react_loop _ _) as [[|e] w1]; done.
Qed.

Lemma heap_unschedule_from_trigger_1 t tr w :
  (_unprime tr (heap w)).1 = Return tt →
  (unschedule_from_trigger t tr w).1 = Return tt.
Proof.
  intros Hu. unfold unschedule_from_trigger. simpl.
  case_match; [|done]. destruct (_unprime tr (heap w)) as [[|e] h']; done.
Qed.

Lemma waiters_ok_unschedule_from_trigger t tr w :
  waiters_ok w → waiters_ok (unschedule_from_trigger t tr w).2.
Proof.
  intros Hok. unfold unschedule_from_trigger. simpl.
  set (l0 := default [] (_trigger2tasks w !! tr)).
  set (l1 := if bool_decide (t ∈ l0) then default l0 (PyList.remove t l0) else l0).
  assert (NoDup l0 ∧ ∀ x, x ∈ l0 → x ∉ keys (_scheduled_tasks w)) as [Hnd0 Hq0].
  { subst l0. destruct (_trigger2tasks w !! tr) as [l|] eqn:E; simpl.
    - by apply (Hok tr).
    - split; [apply NoDup_nil_2|]. intros x Hx. by apply elem_of_nil in Hx. }
  assert (sublist l1 l0) as Hsub.
  { subst l1. case_bool_decide; [|done].
    destruct (PyList.remove t l0) as [l'|] eqn:E; [|done].
    simpl. by apply remove_sublist in E. }
  assert (∀ tr' l, <[tr := l1]> (_trigger2tasks w) !! tr' = Some l →
            NoDup l ∧ ∀ x, x ∈ l → x ∉ keys (_scheduled_tasks w)) as Hmap.
  { intros tr' l. destruct (decide (tr' = tr)) as [->|Hne].
    - rewrite lookup_insert_eq. intros [= <-]. split.
      + by eapply sublist_NoDup.
      + intros x Hx. apply Hq0. by eapply elem_of_sublist.
    - rewrite lookup_insert_ne by done. apply Hok. }
  clearbody l1. clear l0 Hnd0 Hq0 Hsub.
  destruct l1 as [|x l1].
  - destruct (_unprime tr _) as [[|e] h']; intros tr' l Hl; simpl in *.
    + apply lookup_delete_Some in Hl as [_ Hl]. by eapply Hmap.
    + by eapply Hmap.
  - intros tr' l Hl. by eapply Hmap.
Qed.

Lemma _unschedule_returns t w T :
  tasks w !! t = Some T →
  waiters_ok w →
  (∀ tr, _trigger T = Some tr → (_unprime tr (heap w)).1 = Return tt) →
  (_unschedule t w).1 = Return tt.
Proof.
  intros HT Hok Hun. unfold _unschedule.
  set (w0 := if contains t (_scheduled_tasks w) then _ else w).
  assert (tasks w0 = tasks w ∧ heap w0 = heap w ∧ waiters_ok w0) as (Ht0 & Hh0 & Hok0).
  { subst w0. destruct (contains t (_scheduled_tasks w)) eqn:Hc; [|done].
    split; [done|]. split; [done|]. intros tr l Hl. simpl in *.
    destruct (Hok tr l Hl) as [Hnd Hq]. split; [done|].
    intros x Hx Hin. apply (Hq x Hx). by eapply keys_delitem_subseteq. }
  clearbody w0. rewrite Ht0, HT. simpl.
  assert (∃ w1, (match _trigger T with
                 | Some trigger => unschedule_from_trigger t trigger w0
                 | None => (Return (), w0)
                 end) = (Return tt, w1) ∧ waiters_ok w1)
    as (w1 & -> & Hok1).
  { destruct (_trigger T) as [tr|] eqn:Etr.
    - pose proof (heap_unschedule_from_trigger_1 t tr w0) as Hr.
      rewrite Hh0 in Hr. specialize (Hr (Hun tr eq_refl)).
      pose proof (waiters_ok_unschedule_from_trigger t tr w0 Hok0) as Hw.
      destruct (unschedule_from_trigger t tr w0) as [[[]|e] w1]; [|done].
      by exists w1.
    - by exists w0. }
  destruct (_terminate w1); [done|].
  pose proof (queue_Task_complete t w1) as Hqc.
  pose proof (waiters_Task_complete t w1) as Hwc.
  destruct (Task_complete t w1) as [c w2]. simpl in *.
  case_bool_decide; [|done].
  apply _react_returns. intros tr l. rewrite Hwc, Hqc. apply Hok1.
Qed.

Lemma do_callbacks_returns cbs t w T :
  tasks w !! t = Some T →
  (_state T = CANCELLED
   ∨ (_state T = FINISHED ∧ ∃ v, _outcome T = Some (Value v))) →
  (do_callbacks cbs t w).1 = Return tt.
Proof.
  revert w T. induction cbs as [|cb cbs IH]; intros w T HT Hs; simpl; [done|].
  pose proof (same_run_callback cb t w t T HT) as (T1 & HT1 & Hsame).
  assert ((run_callback cb t w).1 = Return tt) as Hr.
  { destruct cb. unfold run_callback, run__task_done_callback. simpl. rewrite HT.
    unfold cancelled.
    destruct Hs as [Hs|[Hs (v & Hv)]].
    - by rewrite bool_decide_true.
    - rewrite bool_decide_false by congruence.
      destruct (Task_complete t _) as [c w1]. case_bool_decide; [done|].
      unfold exception. by rewrite Hs, Hv. }
  destruct (run_callback cb t w) as [[[]|e] w1]; [|done]. simpl in *.
  eapply IH; [done|].
  destruct Hsame as (-> & -> & _). done.
Qed.

Lemma terminate_returns t s w T :
  tasks w !! t = Some T →
  waiters_ok w →
  (∀ tr, _trigger T = Some tr → (_unprime tr (heap w)).1 = Return tt) →
  _state T ≠ RUNNING →
  (s = CANCELLED ∨ (s = FINISHED ∧ ∃ v, _outcome T = Some (Value v))) →
  (terminate t s w).1 = Return tt.
Proof.
  intros HT Hok Hun Hrun Hs. unfold terminate.
  pose proof (_unschedule_returns t w T HT Hok Hun) as Hr.
  pose proof (kept__unschedule t w t T HT) as (T2 & HT2 & Hk2).
  destruct (_unschedule t w) as [[[]|e] w2]; [|done]. simpl in *.
  destruct Hk2 as (Ho & _ & _ & _ & _ & Hst).
  unfold close_coro. rewrite HT2.
  destruct (decide (_state T2 = RUNNING)) as [Heq|_].
  { destruct Hst as [Hst|Hst]; congruence. }
  unfold _do_done_callbacks.
  set (w3 := update_task t (set__coro_closed true) w2).
  set (w4 := update_task t (set__state s) (log (coro_close t) w3)).
  assert (tasks w4 !! t = Some (set__state s (set__coro_closed true T2))) as HT4.
  { subst w4 w3. apply lookup_update_task_eq. simpl.
    change (tasks (update_task t (set__coro_closed true) w2) !! t = Some (set__coro_closed true T2)).
    by apply lookup_update_task_eq. }
  rewrite HT4. simpl.
  eapply do_callbacks_returns; [done|]. simpl.
  destruct Hs as [->|[-> (v & Hv)]]; [by left|right].
  split; [done|]. exists v. congruence.
Qed.

Lemma terminate_terminated t s w T :
  tasks w !! t = Some T →
  queue_ok w →
  waiters_ok w →
  (∀ tr l, _trigger2tasks w !! tr = Some l → t ∈ l → _trigger T = Some tr) →
  (∀ tr, _trigger T = Some tr → (_unprime tr (heap w)).1 = Return tt) →
  _state T ≠ RUNNING →
  (s = CANCELLED ∨ (s = FINISHED ∧ ∃ v, _outcome T = Some (Value v))) →
  ∃ w', terminate t s w = (Return tt, w')
        ∧ terminated w w' t T s (_outcome T) (_cancelled_error T) [coro_close t].
Proof.
  intros HT Hq Hok Hlink Hun Hrun Hs.
  pose proof (terminate_returns t s w T HT Hok Hun Hrun Hs) as Hr.
  destruct (terminate t s w) as [[[]|e] w'] eqn:E; [|done].
  exists w'. split; [done|].
  destruct (terminate_fields t s w T w' HT E)
    as (T' & HT' & Hst & Ho & Hc & Hd & Hcl & Htr).
  assert (waits_on_its_trigger w t T) as Hwait.
  { intros tr l Hl Hin. split; [by eapply Hlink|]. by apply (Hok tr l). }
  destruct (terminate_removed t s w T w' HT Hq Hwait E)
    as (Hnq & Hnw & T'' & HT'' & Htrig).
  assert (T'' = T') as -> by congruence.
  exists T'. repeat split; done.
Qed.

(** C5, as the code has it.  On a task that is already terminal [kill] and
    [cancel] return at once and change nothing.  On a task that is not
    terminal (and is not the task that is running) they return, and then:
    [kill] has set the outcome to [Value(None)] and the state to
    [FINISHED]; [cancel] has stored the [CancelledError] and set the state
    to [CANCELLED]; either way [_unschedule] has taken the task off the run
    queue and off the waiter list of its trigger, the coroutine is closed
    and the completion callbacks were called in registration order. *)
Theorem kill_and_cancel_end_a_task w t T :
  tasks w !! t = Some T →
  queue_ok w →
  waiters_ok w →
  (∀ tr l, _trigger2tasks w !! tr = Some l → t ∈ l → _trigger T = Some tr) →
  (∀ tr, _trigger T = Some tr → (_unprime tr (heap w)).1 = Return tt) →
  _state T ≠ RUNNING →
  (done T = true →
     kill t w = (Return tt, w) ∧ ∀ msg, cancel t msg w = (Return tt, w))
  ∧ (done T = false →
     (∃ w', kill t w = (Return tt, w')
            ∧ terminated w w' t T FINISHED (Some (Value PyNone))
                (_cancelled_error T) [coro_close t])
     ∧ (∀ msg, ∃ w', cancel t msg w = (Return tt, w')
            ∧ terminated w w' t T CANCELLED (_outcome T)
                (Some (CancelledError msg))
                [warn_FutureWarning t; coro_close t])).
Proof.
  intros HT Hq Hok Hlink Hun Hrun.
  assert (task_done w t = done T) as Hdone by (unfold task_done; by rewrite HT).
  split.
  - intros Hd. rewrite kill_unfold. split; [by rewrite Hdone, Hd|].
    intros msg. by rewrite cancel_unfold, Hdone, Hd.
  - intros Hd. split.
    + rewrite kill_unfold, Hdone, Hd.
      set (T1 := set__outcome (Some (Value PyNone)) T).
      set (w1 := update_task t (set__outcome (Some (Value PyNone))) w).
      assert (tasks w1 !! t = Some T1) as HT1 by by apply lookup_update_task_eq.
      destruct (terminate_terminated t FINISHED w1 T1 HT1 Hq Hok Hlink Hun Hrun)
        as (w' & E & (T' & ? & ? & ? & ? & ? & ? & ? & ? & ?)).
      { right. split; [done|]. by exists PyNone. }
      exists w'. split; [done|]. exists T'. repeat split; done.
    + intros msg. rewrite cancel_unfold, Hdone, Hd.
      set (T1 := set__cancelled_error (Some (CancelledError msg)) T).
      set (w1 := log (warn_FutureWarning t)
                   (update_task t (set__cancelled_error (Some (CancelledError msg))) w)).
      assert (tasks w1 !! t = Some T1) as HT1.
      { subst w1. simpl.
        change (tasks (update_task t (set__cancelled_error (Some (CancelledError msg))) w) !! t = Some T1).
        by apply lookup_update_task_eq. }
      destruct (terminate_terminated t CANCELLED w1 T1 HT1 Hq Hok Hlink Hun Hrun)
        as (w' & E & (T' & ? & ? & ? & ? & ? & ? & ? & ? & Htr)); [by left|].
      exists w'. split; [done|]. exists T'. repeat split; try done.
      rewrite Htr. subst w1. simpl. by rewrite <- !app_assoc.
Qed.

(** C10.  When [kill] returns on a task that was not terminal, the task is
    done, it is not cancelled, and [result()] returns [None]. *)
Theorem kill_leaves_task_finished_with_None w t T w' :
  tasks w !! t = Some T →
  done T = false →
  kill t w = (Return tt, w') →
  ∃ T', tasks w' !! t = Some T'
        ∧ done T' = true ∧ cancelled T' = false ∧ result_ T' = Return PyNone.
Proof.
  intros HT Hd. rewrite kill_unfold.
  assert (task_done w t = false) as -> by (unfold task_done; by rewrite HT).
  intros E.
  eapply terminate_fields in E as (T' & HT' & Hst & Ho & _);
    [|by apply lookup_update_task_eq].
  exists T'. split; [done|]. unfold done, cancelled, result_.
  rewrite Hst, Ho. done.
Qed.

(** *** Awaiting a task that failed *)

Lemma get_setitem_same (a x : task_id) (v : Outcome) d :
  get a d = Some v → get a (setitem x v d) = Some v.
Proof.
  induction d as [|[k v'] d IH]; simpl; [done|].
  destruct (decide (k = a)) as [->|Hne].
  - intros [= ->]. destruct (decide (a = x)) as [->|Hne]; simpl.
    + by rewrite decide_True.
    + by rewrite decide_True.
  - intros H. destruct (decide (k = x)) as [->|Hne']; simpl.
    + by rewrite decide_False.
    + rewrite decide_False by done. by apply IH.
Qed.

Lemma get_react_loop_keep l a w :
  get a (_scheduled_tasks w) = Some _none_outcome →
  get a (_scheduled_tasks (react_loop l w).2) = Some _none_outcome.
Proof.
  revert w. induction l as [|t l IH]; intros w Ha; simpl; [done|].
  unfold _schedule_task. destruct (contains _ _); simpl; [done|].
  apply IH. simpl. by apply get_setitem_same.
Qed.

Lemma get_react_loop l a w w' :
  react_loop l w = (Return tt, w') →
  a ∈ l →
  get a (_scheduled_tasks w') = Some _none_outcome.
Proof.
  revert w. induction l as [|t l IH]; intros w; simpl.
  - intros _ Hin. by apply elem_of_nil in Hin.
  - unfold _schedule_task. destruct (contains _ _); simpl; [done|].
    intros Hl [->|Hin]%elem_of_cons.
    + assert (w' = (react_loop l
                  (set__scheduled_tasks (setitem t _none_outcome)
                     (update_task t (set__state SCHEDULED)
                        (update_task t (set__trigger None) w)))).2) as ->
        by (by rewrite Hl).
      apply get_react_loop_keep. simpl. apply get_setitem_eq.
    + by eapply IH.
Qed.

(** The tasks that waited on a trigger are queued with [Value(None)]. *)
Lemma _react_queues_none_outcome c l a w w' :
  _trigger2tasks w !! c = Some l →
  a ∈ l →
  _react c w = (Return tt, w') →
  get a (_scheduled_tasks w') = Some _none_outcome.
Proof.
  intros Hl Hin. unfold _react. rewrite Hl.
  destruct (react_loop _ _) as [[[]|e] w1] eqn:E; [|done].
  intros [= <-]. simpl. by eapply get_react_loop.
Qed.

(** A task whose coroutine raises finishes with that error. *)
Lemma _advance_raised t o e w T :
  tasks w !! t = Some T →
  ∃ T', tasks (_advance t o (Raised e) w).2 !! t = Some T'
        ∧ _state T' = FINISHED ∧ _outcome T' = Some (Error e).
Proof.
  intros HT. unfold _advance.
  set (w1 := update_task t (set__state FINISHED) _).
  assert (tasks w1 !! t
          = Some (set__state FINISHED (set__outcome (Some (Error e))
                    (set__state RUNNING T)))) as HT1.
  { subst w1. apply lookup_update_task_eq, lookup_update_task_eq. simpl.
    change (tasks (update_task t (set__state RUNNING) w) !! t
            = Some (set__state RUNNING T)).
    by apply lookup_update_task_eq. }
  assert (task_done w1 t = true) as -> by (unfold task_done; by rewrite HT1).
  unfold _do_done_callbacks. rewrite HT1.
  pose proof (same_do_callbacks (_done_callbacks T) t w1 t _ HT1)
    as (T' & HT' & Hst & Ho & _).
  simpl in *. destruct (do_callbacks _ _ _) as [[|e'] w2]; simpl in *; eauto.
Qed.

(** C7.  For a task that finished with the error [e]: the generator of
    [Trigger.__await__], resumed with the outcome the scheduler queues for
    the waiters of a trigger that fired ([Value(None)]), returns the trigger
    and does not raise; the generator of [Task.__await__], resumed the same
    way, re-raises [e] through [result()]; and [exception()] returns [e]. *)
Theorem await_of_a_failed_task w t T e :
  tasks w !! t = Some T →
  _state T = FINISHED →
  _outcome T = Some (Error e) →
  (∀ c l a w', _trigger2tasks w !! c = Some l → a ∈ l →
       _react c w = (Return tt, w') →
       get a (_scheduled_tasks w') = Some _none_outcome)
  ∧ (∀ c, Trigger___await__ c _none_outcome = Return (PyTrigger c))
  ∧ Task___await__ t _none_outcome w = Raise e
  ∧ result_ T = Raise e
  ∧ exception T = Return (Some e).
Proof.
  intros HT Hst Ho. split; [|split; [|split; [|split]]].
  - intros c l a w'. apply _react_queues_none_outcome.
  - done.
  - simpl. rewrite HT. unfold result_. by rewrite Hst, Ho.
  - unfold result_. by rewrite Hst, Ho.
  - unfold exception. by rewrite Hst, Ho.
Qed.

End SchedulerFacts.

(** ** Scenarios for the tasks *)

Module TaskScenarioFacts.
Import OrderedDict OrderedDictFacts Triggers Scheduler SchedulerFacts.
Import TaskScenario.

Lemma pending_waiters : _trigger2tasks pending = {[ 0 := [0] ]}.
Proof. vm_compute. reflexivity. Qed.

Lemma kill_pending_not_cancelled :
  (kill 0 pending).1 = Return tt
  ∧ done <$> tasks pending !! 0 = Some false
  ∧ _state <$> tasks (kill 0 pending).2 !! 0 = Some FINISHED
  ∧ cancelled <$> tasks (kill 0 pending).2 !! 0 = Some false.
Proof. vm_compute. repeat split. Qed.

Lemma kill_and_cancel_pending :
  (∃ w', kill 0 pending = (Return tt, w')
         ∧ terminated pending w' 0 pending_task FINISHED (Some (Value PyNone))
             None [coro_close 0])
  ∧ (∀ msg, ∃ w', cancel 0 msg pending = (Return tt, w')
         ∧ terminated pending w' 0 pending_task CANCELLED None
             (Some (CancelledError msg)) [warn_FutureWarning 0; coro_close 0]).
Proof.
  assert (∀ tr l, _trigger2tasks pending !! tr = Some l → tr = 0 ∧ l = [0]) as Hmap.
  { intros tr l. rewrite pending_waiters. intros H.
    apply lookup_singleton_Some in H as [<- <-]. done. }
  apply (kill_and_cancel_end_a_task pending 0 pending_task).
  - vm_compute. reflexivity.
  - vm_compute. apply NoDup_nil_2.
  - intros tr l H. apply Hmap in H as [-> ->]. split.
    + apply NoDup_singleton.
    + intros x Hx Hin. vm_compute in Hin. by apply elem_of_nil in Hin.
  - intros tr l H _. apply Hmap in H as [-> ->]. reflexivity.
  - intros tr [= <-]. vm_compute. reflexivity.
  - discriminate.
  - reflexivity.
Defined.

Lemma kill_pending_observed :
  ∃ T', tasks (kill 0 pending).2 !! 0 = Some T'
        ∧ done T' = true ∧ cancelled T' = false ∧ result_ T' = Return PyNone.
Proof.
  apply (kill_leaves_task_finished_with_None pending 0 pending_task).
  - vm_compute. reflexivity.
  - reflexivity.
  - vm_compute. reflexivity.
Defined.

End TaskScenarioFacts.

(** Task 0 awaits task 1; then the coroutine of task 1 raises. *)

Module AwaitScenarioFacts.
Import OrderedDict OrderedDictFacts Triggers Scheduler SchedulerFacts.
Import AwaitScenario.

Example task_0_waits_for_task_1 :
  _state <$> tasks awaiting !! 0 = Some PENDING
  ∧ _trigger2tasks awaiting !! 0 = Some [0]
  ∧ kind <$> objects (heap awaiting) !! 0 = Some (TaskComplete 1).
Proof. vm_compute. repeat split. Qed.

Example task_0_is_woken_with_None :
  (pop_scheduled failed).1 = Some (0, _none_outcome).
Proof. vm_compute. reflexivity. Qed.

Example late_awaiter_is_queued_with_None :
  (pop_scheduled late).1 = Some (2, _none_outcome)
  ∧ Trigger___await__ 0 _none_outcome = Return (PyTrigger 0).
Proof. vm_compute. split; reflexivity. Qed.

Lemma await_of_failed_task_1 :
  (∀ c l a w', _trigger2tasks failed !! c = Some l → a ∈ l →
       _react c failed = (Return tt, w') →
       get a (_scheduled_tasks w') = Some _none_outcome)
  ∧ (∀ c, Trigger___await__ c _none_outcome = Return (PyTrigger c))
  ∧ Task___await__ 1 _none_outcome failed = Raise oops
  ∧ result_ failed_task = Raise oops
  ∧ exception failed_task = Return (Some oops).
Proof.
  apply (await_of_a_failed_task failed 1 failed_task oops).
  - vm_compute. reflexivity.
  - reflexivity.
  - reflexivity.
Defined.

End AwaitScenarioFacts.

(** ** Integer writes to a logic array *)

Module HandleFacts.
Import Handle.

Local Open Scope Z_scope.

Lemma in_vector_range_leb n v :
  in_vector_range n v →
  ((- 2 ^ (n - 1) <=? v) && (v <=? 2 ^ n - 1))%Z = true.
Proof.
  intros [H1 H2]. apply andb_true_iff. split; by apply Z.leb_le.
Qed.

Lemma not_in_vector_range_leb n v :
  ¬ in_vector_range n v →
  ((- 2 ^ (n - 1) <=? v) && (v <=? 2 ^ n - 1))%Z = false.
Proof.
  intros H. apply andb_false_iff. unfold in_vector_range in H.
  destruct (Z.leb_spec (- 2 ^ (n - 1)) v); [|by left].
  right. apply Z.leb_gt. lia.
Qed.

(** In range and at most 32 bits wide: the integer itself goes to
    [set_signal_val_int]. *)
Lemma narrow_integer_is_passed_as_int n v action :
  n <= 32 → in_vector_range n v →
  _set_value n (Int v) action
  = Return {| write_func := set_signal_val_int; write_action := action;
              write_payload := PInt v |}.
Proof.
  intros Hn Hv. unfold _set_value, _set_value_in. simpl.
  rewrite (in_vector_range_leb n v Hv).
  by rewrite (proj2 (Z.leb_le n 32) Hn).
Qed.

(** Out of range: [OverflowError], whatever the width. *)
Lemma integer_out_of_range_overflows n v action :
  ¬ in_vector_range n v →
  _set_value n (Int v) action
  = Raise (OverflowError "Int value out of range for assignment").
Proof.
  intros Hv. unfold _set_value, _set_value_in. simpl.
  by rewrite (not_in_vector_range_leb n v Hv).
Qed.

(** C8, what the code does for a wide handle: an integer in range written to
    a logic array of more than 32 bits raises [NameError], because
    [handle.py] uses [Range] and does not import it. *)
Theorem wide_integer_write_raises_NameError n v action :
  32 < n → in_vector_range n v →
  _set_value n (Int v) action = Raise (NameError "name 'Range' is not defined").
Proof.
  intros Hn Hv. unfold _set_value, _set_value_in. simpl.
  rewrite (in_vector_range_leb n v Hv).
  rewrite (proj2 (Z.leb_gt n 32)) by lia. reflexivity.
Qed.

Lemma zero_to_33_bits_raises_NameError :
  _set_value 33 (Int 0) DEPOSIT = Raise (NameError "name 'Range' is not defined").
Proof.
  apply (wide_integer_write_raises_NameError 33 0 DEPOSIT).
  - reflexivity.
  - unfold in_vector_range. simpl. lia.
Defined.

(** With [Range] bound in the module, the same write renders the integer as
    a binary string of the width of the handle. *)

Lemma length_append (s1 s2 : string) :
  String.length (String.append s1 s2) = (String.length s1 + String.length s2)%nat.
Proof. induction s1 as [|c s1 IH]; simpl; [done|]. f_equal. apply IH. Qed.

Lemma length_zeros k : String.length (zeros k) = k.
Proof. induction k as [|k IH]; simpl; [done|]. f_equal. apply IH. Qed.

Lemma length_bits_of_positive p :
  Z.of_nat (String.length (bits_of_positive p)) = Z.pos (Pos.size p).
Proof.
  induction p as [p IH|p IH|]; simpl; try done;
    rewrite length_append; simpl; lia.
Qed.

Lemma bit_length_pos p : bit_length (Z.pos p) = Z.pos (Pos.size p).
Proof. unfold bit_length. destruct p; simpl; lia. Qed.

Lemma bit_length_bound n v : 0 < n → 0 <= v < 2 ^ n → bit_length v <= n.
Proof.
  intros Hn [H0 Hv]. destruct v as [|p|p]; [simpl; lia| |lia].
  change (Z.log2 (Z.pos p) + 1 <= n).
  assert (Z.log2 (Z.pos p) < n) by (apply Z.log2_lt_pow2; lia). lia.
Qed.

Lemma length_format_binary n v :
  0 < n → 0 <= v < 2 ^ n →
  Z.of_nat (String.length (format_binary n v)) = n.
Proof.
  intros Hn Hv. pose proof (bit_length_bound n v Hn Hv) as Hb.
  unfold format_binary. rewrite length_append, length_zeros.
  destruct v as [|p|p]; [simpl; lia| |lia].
  rewrite bit_length_pos in Hb.
  pose proof (length_bits_of_positive p). lia.
Qed.

Lemma LogicArray_of_int_fits n v :
  0 < n → 0 <= v < 2 ^ n → LogicArray_of_int v n = Return (format_binary n v).
Proof.
  intros Hn Hv. pose proof (bit_length_bound n v Hn Hv) as Hb.
  unfold LogicArray_of_int.
  rewrite (proj2 (Z.ltb_ge v 0)) by lia.
  rewrite (proj2 (Z.ltb_ge n _)) by lia. done.
Qed.

Lemma wide_integer_write_with_Range n v action :
  32 < n → in_vector_range n v →
  ∃ s, _set_value_in module_names_with_Range n (Int v) action
       = Return {| write_func := set_signal_val_binstr;
                   write_action := action; write_payload := PBinstr s |}
       ∧ Z.of_nat (String.length s) = n.
Proof.
  intros Hn Hv. unfold _set_value_in. simpl.
  rewrite (in_vector_range_leb n v Hv).
  rewrite (proj2 (Z.leb_gt n 32)) by lia.
  change (load_global module_names_with_Range "Range") with (@Return unit tt).
  cbv beta iota. destruct Hv as [Hlo Hhi].
  assert (2 ^ n = 2 * 2 ^ (n - 1)) as Hpow.
  { rewrite <- Z.pow_succ_r by lia. f_equal. lia. }
  assert (0 < 2 ^ (n - 1)) by (apply Z.pow_pos_nonneg; lia).
  destruct (Z.ltb_spec v 0) as [Hneg|Hpos].
  - unfold from_signed. rewrite (proj2 (Z.ltb_lt v 0)) by done.
    rewrite (proj2 (Z.ltb_ge (v + 2 ^ n) 0)) by lia.
    rewrite LogicArray_of_int_fits by lia.
    eexists. split; [done|]. apply length_format_binary; lia.
  - unfold from_unsigned. rewrite LogicArray_of_int_fits by lia.
    eexists. split; [done|]. apply length_format_binary; lia.
Qed.

End HandleFacts.

(** * Further properties *)

(** ** Priming and un-priming of triggers ([triggers.py]) *)

Module PrimingFacts.
Import Triggers.

Section priming_facts.
Variable sim_register : sim_request → option gpi_cb_hdl.
Variable task_done : task_id → bool.

Local Abbreviation _prime := (Triggers._prime sim_register task_done).

Lemma set_objects_id f h : f (objects h) = objects h → set_objects f h = h.
Proof. intros Hf. destruct h. unfold set_objects. simpl in *. by rewrite Hf. Qed.

Lemma update_trigger_id self f h t :
  objects h !! self = Some t → f t = t → update_trigger self f h = h.
Proof.
  intros Ht Hf. unfold update_trigger. apply set_objects_id.
  rewrite Ht, Hf. by apply insert_id.
Qed.

Lemma objects_update_trigger self f h t :
  objects h !! self = Some t →
  objects (update_trigger self f h) !! self = Some (f t).
Proof.
  intros Ht. unfold update_trigger, set_objects. simpl.
  rewrite Ht. by rewrite lookup_insert_eq.
Qed.

Lemma objects_update_trigger_None self f h :
  objects h !! self = None → update_trigger self f h = h.
Proof.
  intros Ht. unfold update_trigger. apply set_objects_id. by rewrite Ht.
Qed.

Lemma objects_log_sim_call r h : objects (log_sim_call r h) = objects h.
Proof. done. Qed.

Lemma Trigger__cleanup_unprimed self h t :
  objects h !! self = Some t → _primed t = false → Trigger__cleanup self h = h.
Proof.
  intros Ht Hp. eapply update_trigger_id; [done|].
  destruct t; simpl in *; by subst.
Qed.

Lemma GPITrigger__cleanup_clean self h t :
  objects h !! self = Some t → _primed t = false → _cbhdl t = None →
  GPITrigger__cleanup self h = h.
Proof.
  intros Ht Hp Hc. unfold GPITrigger__cleanup.
  rewrite (update_trigger_id self (set__cbhdl None) h t); [|done|].
  - by eapply Trigger__cleanup_unprimed.
  - destruct t; simpl in *; by subst.
Qed.

Lemma objects_Trigger__cleanup self h t :
  objects h !! self = Some t →
  objects (Trigger__cleanup self h) !! self = Some (set__primed false t).
Proof. apply objects_update_trigger. Qed.

Lemma objects_GPITrigger__cleanup self h t :
  objects h !! self = Some t →
  objects (GPITrigger__cleanup self h) !! self
  = Some (set__primed false (set__cbhdl None t)).
Proof.
  intros Ht. unfold GPITrigger__cleanup.
  apply objects_Trigger__cleanup. by apply objects_update_trigger.
Qed.

(** X1.  Un-priming twice is un-priming once ([Trigger._unprime]: "Calling
    [_unprime] multiple times is allowed, subsequent calls should be a
    no-op"): when [_unprime] has returned, a second call returns too, makes
    no simulator call (no second [deregister]) and leaves every object as
    it is. *)
Theorem _unprime_twice self h h1 :
  _unprime self h = (Return tt, h1) → _unprime self h1 = (Return tt, h1).
Proof.
  unfold _unprime at 1. destruct (objects h !! self) as [t|] eqn:Et.
  2:{ intros [= <-]. unfold _unprime. by rewrite Et. }
  assert (Hgpi : ∀ h0, objects h0 !! self = Some t →
            is_GPITrigger (kind t) = true →
            _unprime self (GPITrigger__cleanup self h0)
            = (Return tt, GPITrigger__cleanup self h0)).
  { intros h0 E0 Hk. unfold _unprime.
    rewrite (objects_GPITrigger__cleanup self h0 t E0). simpl.
    rewrite (GPITrigger__cleanup_clean self (GPITrigger__cleanup self h0)
               (set__primed false (set__cbhdl None t)));
      [|by apply objects_GPITrigger__cleanup|done..].
    by destruct (kind t). }
  assert (Hpy : ∀ h0, objects h0 !! self = Some t →
            is_GPITrigger (kind t) = false →
            _unprime self (Trigger__cleanup self h0)
            = (Return tt, Trigger__cleanup self h0)).
  { intros h0 E0 Hk. unfold _unprime.
    rewrite (objects_Trigger__cleanup self h0 t E0). simpl.
    rewrite (Trigger__cleanup_unprimed self (Trigger__cleanup self h0)
               (set__primed false t));
      [|by apply objects_Trigger__cleanup|done].
    by destruct (kind t). }
  destruct (kind t) as [| | | | | | |parent| |] eqn:Ek;
    try (intros [= <-]; first
      [ by apply Hpy
      | destruct (_cbhdl t); by apply Hgpi ]).
  destruct (_primed t) eqn:Ep; simpl.
  2:{ intros [= <-]. unfold _unprime. by rewrite Et, Ek, Ep. }
  destruct (events h !! parent) as [e|] eqn:Ee.
  2:{ intros [= <-]. by apply Hpy. }
  destruct (Event._unprime_trigger self e) as [e'|err]; [|done].
  intros [= <-]. by apply Hpy.
Qed.

Lemma Trigger__prime_primed self h t :
  objects h !! self = Some t → _primed t = true → Trigger__prime self h = h.
Proof.
  intros Ht Hp. eapply update_trigger_id; [done|].
  destruct t; simpl in *; by subst.
Qed.

Lemma gpi_prime_inv self t req h h1 :
  objects h !! self = Some t →
  gpi_prime sim_register self t req h = (Return tt, h1) →
  sim_phase h1 = sim_phase h
  ∧ ∃ c, objects h1 = <[self := set__primed true (set__cbhdl (Some c) t)]> (objects h)
    ∧ ((_cbhdl t = Some c ∧ sim_calls h1 = sim_calls h)
       ∨ (_cbhdl t = None ∧ sim_register req = Some c
          ∧ sim_calls h1 = sim_calls h ++ [req])).
Proof.
  intros Ht. unfold gpi_prime. destruct (_cbhdl t) as [c|] eqn:Ec.
  - intros [= <-]. split; [done|]. exists c. split; [|by left].
    unfold Trigger__prime, update_trigger, set_objects. simpl. rewrite Ht.
    f_equal. destruct t; simpl in *; by subst.
  - destruct (sim_register req) as [c|] eqn:Er; [|done].
    intros [= <-]. split; [done|]. exists c. split; [|by right].
    unfold Trigger__prime, update_trigger, set_objects. simpl. rewrite Ht.
    rewrite lookup_insert_eq. by rewrite insert_insert_eq.
Qed.

(** What a returning [_prime] of a simulator trigger leaves: the phase as it
    was, the trigger primed and holding a callback handle, which is the one
    it held or the one a single registration has just returned. *)
Lemma _prime_GPITrigger_inv self cb h h1 t r :
  objects h !! self = Some t → is_GPITrigger (kind t) = true →
  _prime self cb h = (Return r, h1) →
  r = None ∧ sim_phase h1 = sim_phase h
  ∧ (kind t = ReadOnly ∨ kind t = ReadWrite → sim_phase h ≠ READ_ONLY)
  ∧ ∃ c, objects h1 = <[self := set__primed true (set__cbhdl (Some c) t)]> (objects h)
    ∧ ((_cbhdl t = Some c ∧ sim_calls h1 = sim_calls h)
       ∨ (_cbhdl t = None
          ∧ ∃ req, sim_register req = Some c
                   ∧ sim_calls h1 = sim_calls h ++ [req])).
Proof.
  intros Ht Hk. unfold Triggers._prime. rewrite Ht.
  assert (Hgpi : ∀ req,
    (let '(r0, h') := gpi_prime sim_register self t req h in
     (match r0 with Return _ => Return None | Raise e => Raise e end, h'))
    = (Return r, h1) →
    r = None ∧ sim_phase h1 = sim_phase h
    ∧ ∃ c, objects h1 = <[self := set__primed true (set__cbhdl (Some c) t)]> (objects h)
      ∧ ((_cbhdl t = Some c ∧ sim_calls h1 = sim_calls h)
         ∨ (_cbhdl t = None
            ∧ ∃ req, sim_register req = Some c
                     ∧ sim_calls h1 = sim_calls h ++ [req]))).
  { intros req. destruct (gpi_prime sim_register self t req h) as [[[]|e] h'] eqn:Eg;
      [|done]. intros [= <- <-].
    destruct (gpi_prime_inv self t req h h' Ht Eg) as (Hp & c & Ho & Hc).
    split; [done|]. split; [done|]. exists c. split; [done|].
    destruct Hc as [Hc|(Hc & Hr & Hs)]; [by left|right]. split; [done|].
    by exists req. }
  destruct (kind t) eqn:Ek; try done.
  - intros H. destruct (Hgpi _ H) as (? & ? & ?). repeat split; try done.
    by intros [|].
  - destruct (decide (sim_phase h = READ_ONLY)) as [|Hne]; [done|].
    intros H. destruct (Hgpi _ H) as (? & ? & ?). by repeat split.
  - destruct (decide (sim_phase h = READ_ONLY)) as [|Hne]; [done|].
    intros H. destruct (Hgpi _ H) as (? & ? & ?). by repeat split.
  - intros H. destruct (Hgpi _ H) as (? & ? & ?). repeat split; try done.
    by intros [|].
  - intros H. destruct (Hgpi _ H) as (? & ? & ?). repeat split; try done.
    by intros [|].
  - intros H. destruct (Hgpi _ H) as (? & ? & ?). repeat split; try done.
    by intros [|].
  - intros H. destruct (Hgpi _ H) as (? & ? & ?). repeat split; try done.
    by intros [|].
Qed.

(** X2.  A simulator trigger registers with the simulator once: when
    [_prime] has returned for a [GPITrigger], priming it again, with any
    callback, returns without a call to the simulator and changes
    nothing, so the callback of the second call is never registered. *)
Theorem _prime_registers_once self cb h h1 t r :
  objects h !! self = Some t → is_GPITrigger (kind t) = true →
  _prime self cb h = (Return r, h1) →
  ∀ cb', _prime self cb' h1 = (Return None, h1).
Proof.
  intros Ht Hk Hp cb'.
  destruct (_prime_GPITrigger_inv self cb h h1 t r Ht Hk Hp)
    as (_ & Hph & Hro & c & Ho & _).
  assert (Ho' : objects h1 !! self
                = Some (set__primed true (set__cbhdl (Some c) t)))
    by (by rewrite Ho, lookup_insert_eq).
  pose proof (Trigger__prime_primed self h1 _ Ho' eq_refl) as Htp.
  unfold Triggers._prime. rewrite Ho'. simpl. rewrite Hph, Htp.
  destruct (kind t) eqn:Ek; try done.
  - rewrite decide_False; [done|]. apply Hro. by left.
  - rewrite decide_False; [done|]. apply Hro. by right.
Qed.

(** X3.  Priming and un-priming a simulator trigger that holds no callback
    handle registers one callback, de-registers the handle the simulator
    gave for it, and leaves the trigger as it was: unprimed, with no
    handle, ready to be primed again. *)
Theorem prime_then_unprime self cb h h1 t r :
  objects h !! self = Some t → is_GPITrigger (kind t) = true →
  _primed t = false → _cbhdl t = None →
  _prime self cb h = (Return r, h1) →
  ∃ req c h2,
    sim_register req = Some c
    ∧ _unprime self h1 = (Return tt, h2)
    ∧ sim_calls h2 = sim_calls h ++ [req; deregister c]
    ∧ objects h2 = objects h.
Proof.
  intros Ht Hk Hpr Hcb Hp.
  destruct (_prime_GPITrigger_inv self cb h h1 t r Ht Hk Hp)
    as (_ & Hph & _ & c & Ho & [[Hc _]|(_ & req & Hr & Hs)]); [congruence|].
  exists req, c. eexists. split; [done|].
  unfold _unprime. rewrite Ho, lookup_insert_eq.
  assert (Hkk : kind (set__primed true (set__cbhdl (Some c) t)) = kind t) by done.
  rewrite Hkk. simpl.
  split; [by destruct (kind t)|]. split.
  - simpl. rewrite Hs. by rewrite <- app_assoc.
  - unfold GPITrigger__cleanup, Trigger__cleanup, update_trigger, set_objects.
    simpl. rewrite Ho. rewrite !lookup_insert_eq. rewrite !insert_insert_eq.
    apply insert_id. rewrite Ht. f_equal. destruct t; simpl in *; by subst.
Qed.

End priming_facts.

End PrimingFacts.

(** ** A deferred write that fails ([_write_scheduler.py]) *)

Module AppliedWritesFacts.
Import OrderedDict WriteScheduler WriteSchedulerFacts.

Section applied_writes_facts.
Context {Func Args : Type}.
Variable invoke : Func → Args → option exn.

Local Abbreviation entry := (SimHandleBase * (Func * Args))%type.
Local Abbreviation state := (@WriteScheduler.state Func Args).
Local Abbreviation apply_scheduled_writes := (WriteScheduler.apply_scheduled_writes invoke).

Lemma apply_loop_raises (pre post : list entry) h f a e tr :
  Forall (λ c, invoke c.2.1 c.2.2 = None) pre →
  invoke f a = Some e →
  apply_loop invoke (pre ++ (h, (f, a)) :: post) tr
  = (Raise e, post, tr ++ map call_of pre ++ [Call f a]).
Proof.
  intros Hpre Hf. revert tr.
  induction Hpre as [|[h' [f' a']] pre Hc Hpre IH]; intros tr; simpl.
  - unfold run_call. by rewrite Hf.
  - unfold run_call. simpl in Hc. rewrite Hc. rewrite IH.
    by rewrite <- app_assoc.
Qed.

(** X4.  When a pending write raises, [apply_scheduled_writes] raises the
    same exception at once: the writes queued before it have been made, in
    order, and are gone from the pending map together with the failing
    one; the writes queued after it were not made and stay pending; and
    the pending-writes event is not cleared. *)
Theorem apply_scheduled_writes_stops_at_a_failure
    (st : state) (pre post : list entry) h f a e :
  _write_calls st = pre ++ (h, (f, a)) :: post →
  Forall (λ c, invoke c.2.1 c.2.2 = None) pre →
  invoke f a = Some e →
  apply_scheduled_writes st
  = (Raise e,
     {| sim_phase := sim_phase st;
        _write_calls := post;
        _writes_pending := _writes_pending st;
        trace := trace st ++ map call_of pre ++ [Call f a] |}).
Proof.
  intros Hd Hpre Hf. unfold WriteScheduler.apply_scheduled_writes.
  by rewrite Hd, (apply_loop_raises pre post h f a e _ Hpre Hf).
Qed.

End applied_writes_facts.

End AppliedWritesFacts.

(** ** Waking and queueing tasks ([_scheduler.py]) *)

Module WakingFacts.
Import OrderedDict OrderedDictFacts Triggers Scheduler SchedulerFacts SchedulerLoop.

Lemma woken_nil w : woken [] w w.
Proof.
  unfold woken. simpl. rewrite app_nil_r. repeat split; try done.
Qed.

Lemma react_loop_woken l w :
  NoDup l →
  (∀ x, x ∈ l → x ∉ keys (_scheduled_tasks w)) →
  ∃ w', react_loop l w = (Return tt, w')
    ∧ woken l w w'
    ∧ heap w' = heap w
    ∧ _trigger2tasks w' = _trigger2tasks w.
Proof.
  intros Hnd. revert w. induction Hnd as [|t l Hnin Hnd IH]; intros w Hq.
  - exists w. split; [done|]. split; [apply woken_nil|done].
  - simpl. unfold _schedule_task.
    assert (Hc : contains t (_scheduled_tasks (update_task t (set__trigger None) w))
                 = false).
    { apply contains_false. apply Hq. by left. }
    rewrite Hc.
    set (w1 := set__scheduled_tasks (setitem t _none_outcome)
                 (update_task t (set__state SCHEDULED)
                    (update_task t (set__trigger None) w))).
    destruct (IH w1) as (w' & Hr & (Hq' & Ht' & Htr & Hte & Hcu & Hnt) & Hh & Hw).
    { intros x Hx. unfold w1. simpl.
      rewrite setitem_absent by (apply Hq; by left).
      unfold keys. rewrite fmap_app, elem_of_app. simpl.
      intros [Hin|Hin%list_elem_of_singleton].
      - apply (Hq x); [by right|done].
      - by subst. }
    exists w'. split; [done|]. split; [|by rewrite Hh, Hw].
    unfold woken. split.
    { rewrite Hq'. unfold w1. simpl.
      rewrite setitem_absent by (apply Hq; by left).
      by rewrite <- app_assoc. }
    split; [|by rewrite Htr, Hte, Hcu, Hnt].
    intros x. rewrite Ht'. unfold w1.
    change (tasks (set__scheduled_tasks ?f ?w)) with (tasks w).
    rewrite !lookup_update_task.
    destruct (decide (x = t)) as [->|Hne].
    + rewrite ?decide_True by done. rewrite bool_decide_false by done.
      rewrite bool_decide_true by (by left).
      by destruct (tasks w !! t).
    + rewrite ?decide_False by done.
      destruct (decide (x ∈ l)) as [Hin|Hni].
      * rewrite !bool_decide_true; [done|by right|done].
      * rewrite !bool_decide_false; [done| |done].
        by intros [?|?]%elem_of_cons.
Qed.

(** [_react] of a trigger with waiters, in the form the later proofs use. *)
Lemma _react_woken tr l w :
  _trigger2tasks w !! tr = Some l →
  NoDup l →
  (∀ x, x ∈ l → x ∉ keys (_scheduled_tasks w)) →
  ∃ w', _react tr w = (Return tt, w')
    ∧ woken l w w'
    ∧ _trigger2tasks w' = delete tr (_trigger2tasks w)
    ∧ heap w' = _cleanup tr (heap w).
Proof.
  intros Hl Hnd Hq. unfold _react. rewrite Hl.
  destruct (react_loop_woken l (set__trigger2tasks (delete tr) w) Hnd Hq)
    as (w' & Hr & Hwk & Hh & Hw).
  rewrite Hr. eexists. split; [done|]. split; [|split].
  - destruct Hwk as (? & ? & ? & ? & ? & ?). by repeat split.
  - simpl. by rewrite Hw.
  - simpl. by rewrite Hh.
Qed.

(** X5.  When a trigger fires, [_react] wakes the tasks that wait on it in
    the order in which they began to wait: they are appended to the run
    queue in that order with the outcome [Value(None)]; the trigger leaves
    the waiter map and is cleaned up; no task is run by [_react] itself.
    If the trigger fires again it finds no waiter: nothing is queued, and
    the scheduler only logs the firing when it is a simulator trigger. *)
Theorem _react_wakes_the_waiters_in_order tr l w :
  _trigger2tasks w !! tr = Some l →
  NoDup l →
  (∀ x, x ∈ l → x ∉ keys (_scheduled_tasks w)) →
  ∃ w', _react tr w = (Return tt, w')
    ∧ woken l w w'
    ∧ _trigger2tasks w' = delete tr (_trigger2tasks w)
    ∧ heap w' = _cleanup tr (heap w)
    ∧ _react tr w'
      = (Return tt,
         if isinstance_GPITrigger w' tr then log (log_critical tr) w' else w').
Proof.
  intros Hl Hnd Hq.
  destruct (_react_woken tr l w Hl Hnd Hq) as (w' & Hr & Hwk & Hw' & Hh').
  exists w'. split; [done|]. split; [done|]. split; [done|]. split; [done|].
  unfold _react. by rewrite Hw', lookup_delete_eq.
Qed.

Section schedule_upon.
Variable sim_register : sim_request → option gpi_cb_hdl.

Local Abbreviation _schedule_task_upon := (Scheduler._schedule_task_upon sim_register).
Local Abbreviation _prime := (Triggers._prime sim_register).

Lemma woken_task_waiting T tr :
  woken_task (set__state PENDING (set__trigger (Some tr) T)) = woken_task T.
Proof. by destruct T. Qed.

(** Only the triggers of the simulator fail to prime, whatever the tasks
    are, and they fail with a [RuntimeError]. *)
Lemma _prime_raises td self cb h e h' :
  _prime td self cb h = (Raise e, h') →
  (∃ msg, e = RuntimeError msg)
  ∧ (∃ t, objects h !! self = Some t ∧ is_GPITrigger (kind t) = true)
  ∧ ∀ td', _prime td' self cb h = (Raise e, h').
Proof.
  unfold Triggers._prime. destruct (objects h !! self) as [t|] eqn:Et; [|done].
  assert (Hgpi : ∀ req,
    (let '(r0, h0) := gpi_prime sim_register self t req h in
     (match r0 with
      | Return _ => Return (None : option react_fn)
      | Raise e => Raise e
      end, h0)) = (Raise e, h') → ∃ msg, e = RuntimeError msg).
  { intros req. unfold gpi_prime. destruct (_cbhdl t); [done|].
    destruct (sim_register req); [done|]. intros [= <- _]. by eexists. }
  destruct (kind t) eqn:Ek; intros H;
    repeat match type of H with
    | context [decide ?P] => destruct (decide P)
    | context [if ?b then _ else _] => destruct b
    end;
    try done.
  all: split; [|split; [by exists t; rewrite Ek|intros td'; exact H]].
  all: first [by eapply Hgpi | injection H as <- _; by eexists].
Qed.

(** [_schedule_task_upon] with a trigger that is no simulator trigger and
    whose [_prime] calls the callback at once. *)
Lemma fires_at_once_woken task trigger w T t :
  tasks w !! task = Some T →
  task ∉ keys (_scheduled_tasks w) →
  _trigger2tasks w !! trigger = None →
  objects (heap w) !! trigger = Some t →
  _primed t = false →
  is_GPITrigger (kind t) = false →
  (∀ td, (∀ t', t' ≠ task → td t' = task_done w t') →
         _prime td trigger _react_fn (heap w)
         = (Return (Some _react_fn), heap w)) →
  ∃ w', _schedule_task_upon task trigger w = (Return tt, w')
    ∧ woken [task] w w'
    ∧ heap w' = heap w
    ∧ _trigger2tasks w' = _trigger2tasks w.
Proof.
  intros HT Hq Hw Ht Hp Hk Hpr. unfold Scheduler._schedule_task_upon.
  set (w1 := update_task task (set__state PENDING)
               (update_task task (set__trigger (Some trigger)) w)).
  assert (Hw1 : _trigger2tasks w1 !! trigger = None) by done.
  rewrite Hw1. simpl.
  set (w2 := set__trigger2tasks (<[trigger := [task]]>) w1).
  change (heap w2) with (heap w). rewrite Ht, Hp. simpl.
  rewrite bool_decide_true by done. simpl.
  assert (Hgpi : isinstance_GPITrigger w2 trigger = false).
  { unfold isinstance_GPITrigger. change (heap w2) with (heap w).
    by rewrite Ht. }
  rewrite Hgpi.
  assert (Hprime : _prime (task_done w2) trigger _react_fn (heap w)
                   = (Return (Some _react_fn), heap w)).
  { apply Hpr. intros t' Hne. unfold task_done.
    change (tasks w2) with (tasks w1). unfold w1.
    by rewrite !lookup_update_task, !decide_False by done. }
  rewrite Hprime.
  destruct (_react_woken trigger [task]
              (set_heap (λ _, heap w) w2))
    as (w' & Hr & (Hq' & Ht' & Htr & Hte & Hcu & Hnt) & Hw' & Hh').
  { simpl. by rewrite lookup_insert_eq. }
  { apply NoDup_singleton. }
  { intros x ->%list_elem_of_singleton. done. }
  rewrite Hr. exists w'. split; [done|]. split; [|split].
  - unfold woken. split; [done|]. split; [|done].
    intros x. rewrite Ht'.
    change (tasks (set_heap _ w2)) with (tasks w1). unfold w1.
    rewrite !lookup_update_task.
    destruct (decide (x = task)) as [->|Hne].
    + rewrite ?decide_True by done.
      rewrite bool_decide_true by (by left). rewrite HT. simpl.
      by rewrite woken_task_waiting.
    + rewrite bool_decide_false; [done|]. by intros ?%list_elem_of_singleton.
  - rewrite Hh'. simpl. unfold Triggers._cleanup. rewrite Ht.
    rewrite Hk. by eapply PrimingFacts.Trigger__cleanup_unprimed.
  - rewrite Hw'. simpl. rewrite delete_insert_eq. by apply delete_id.
Qed.

(** X6.  A trigger that fires while it is primed puts the task straight
    back into the run queue: when a task awaits a [NullTrigger], or the
    completion of a task that is already done, [_schedule_task_upon] leaves
    the task at the tail of the run queue with the outcome [Value(None)],
    behind every task queued before, and on no waiter list. *)
Theorem a_trigger_that_fires_at_once_requeues_the_task task trigger w T t :
  tasks w !! task = Some T →
  done T = false →
  task ∉ keys (_scheduled_tasks w) →
  _trigger2tasks w !! trigger = None →
  objects (heap w) !! trigger = Some t →
  _primed t = false →
  (∃ name, kind t = NullTrigger name)
  ∨ (∃ t', kind t = TaskComplete t' ∧ task_done w t' = true) →
  ∃ w', _schedule_task_upon task trigger w = (Return tt, w')
    ∧ woken [task] w w'
    ∧ heap w' = heap w
    ∧ _trigger2tasks w' = _trigger2tasks w.
Proof.
  intros HT Hd Hq Hw Ht Hp Hk.
  apply (fires_at_once_woken task trigger w T t); try done.
  - by destruct Hk as [[? ->]|(? & -> & _)].
  - intros td Htd. unfold Triggers._prime. rewrite Ht.
    destruct Hk as [[? ->]|(t' & -> & Hd')]; [done|].
    assert (Hne : t' ≠ task).
    { intros ->. unfold task_done in Hd'. rewrite HT in Hd'. congruence. }
    by rewrite (Htd t' Hne), Hd'.
Qed.

(** X7.  A trigger that cannot be primed does not stop the scheduler: the
    exception of [_prime] (a [RuntimeError]: [ReadOnly] or [ReadWrite]
    awaited in the read-only phase, or a registration the simulator
    refuses) is caught, the trigger is dropped from the waiter map, and
    the task is queued with the outcome [Error(e)], so that the exception
    is raised at its [await]. *)
Theorem a_failed_priming_is_thrown_into_the_task task trigger w T t e h' :
  tasks w !! task = Some T →
  task ∉ keys (_scheduled_tasks w) →
  _trigger2tasks w !! trigger = None →
  objects (heap w) !! trigger = Some t →
  _primed t = false →
  _prime (task_done w) trigger _sim_react_fn (heap w) = (Raise e, h') →
  ∃ w', _schedule_task_upon task trigger w = (Return tt, w')
    ∧ _scheduled_tasks w' = _scheduled_tasks w ++ [(task, Error e)]
    ∧ tasks w'
      = <[task := set__state SCHEDULED (set__trigger (Some trigger) T)]> (tasks w)
    ∧ _trigger2tasks w' = _trigger2tasks w
    ∧ heap w' = h'
    ∧ trace w' = trace w.
Proof.
  intros HT Hq Hw Ht Hp Hprime.
  destruct (_prime_raises _ _ _ _ _ _ Hprime) as ([msg ->] & (t0 & Ht0 & Hk) & Hany).
  assert (t0 = t) as -> by congruence.
  unfold Scheduler._schedule_task_upon.
  set (w1 := update_task task (set__state PENDING)
               (update_task task (set__trigger (Some trigger)) w)).
  assert (Hw1 : _trigger2tasks w1 !! trigger = None) by done.
  rewrite Hw1. simpl.
  set (w2 := set__trigger2tasks (<[trigger := [task]]>) w1).
  change (heap w2) with (heap w). rewrite Ht, Hp. simpl.
  rewrite bool_decide_true by done. simpl.
  assert (Hgpi : isinstance_GPITrigger w2 trigger = true).
  { unfold isinstance_GPITrigger. change (heap w2) with (heap w). by rewrite Ht. }
  rewrite Hgpi, (Hany (task_done w2)). simpl.
  rewrite lookup_insert_eq. unfold _schedule_task. simpl.
  assert (contains task (_scheduled_tasks w) = false) as ->
    by (by apply contains_false).
  eexists. split; [done|]. simpl. rewrite setitem_absent by done.
  split; [done|]. split; [|split; [|done]].
  - unfold w1. rewrite HT. cbv beta iota.
    rewrite lookup_insert_eq. cbv beta iota.
    rewrite lookup_insert_eq. by rewrite !insert_insert_eq.
  - rewrite delete_insert_eq. by apply delete_id.
Qed.

End schedule_upon.

End WakingFacts.

(** ** A task that ends ([task.py], [_scheduler.py], [__init__.py]) *)

Module FinishingFacts.
Import OrderedDict OrderedDictFacts Triggers Scheduler SchedulerFacts SchedulerLoop.
Import WakingFacts.

Lemma Task_complete_cached t w T c :
  tasks w !! t = Some T → complete T = Some c → Task_complete t w = (c, w).
Proof. intros HT Hc. unfold Task_complete. by rewrite HT, Hc. Qed.

(** [_unschedule] of a task that is neither queued nor waiting. *)
Lemma _unschedule_idle t w T :
  tasks w !! t = Some T → _trigger T = None →
  t ∉ keys (_scheduled_tasks w) →
  _unschedule t w
  = if _terminate w then (Return tt, w)
    else let '(c, w1) := Task_complete t w in
         if bool_decide (is_Some (_trigger2tasks w1 !! c)) then _react c w1
         else (Return tt, w1).
Proof.
  intros HT Htr Hq. unfold _unschedule.
  assert (contains t (_scheduled_tasks w) = false) as ->
    by (by apply contains_false).
  rewrite HT. simpl. by rewrite Htr.
Qed.

(** The callbacks of a task somebody awaits, or of a task that ended with
    a value, return; each is called once, in order. *)
Lemma do_callbacks_quiet cbs t w T :
  tasks w !! t = Some T →
  _state T = FINISHED →
  (∃ c l, complete T = Some c ∧ _trigger2tasks w !! c = Some l)
  ∨ ((∃ v, _outcome T = Some (Value v))
     ∧ ∃ c, complete T = Some c ∧ _trigger2tasks w !! c = None) →
  do_callbacks cbs t w
  = (Return tt, foldl (λ w cb, log (done_callback cb t) w) w cbs).
Proof.
  intros HT Hst Hc. revert w HT Hc.
  induction cbs as [|[] cbs IH]; intros w HT Hc; [done|].
  simpl. unfold run__task_done_callback.
  change (tasks (log ?e ?w)) with (tasks w). rewrite HT.
  assert (cancelled T = false) as ->.
  { unfold cancelled. rewrite Hst. by apply bool_decide_eq_false. }
  destruct Hc as [(c & l & Hco & Hl)|([v Hv] & c & Hco & Hl)].
  - rewrite (Task_complete_cached _ _ T c) by done.
    change (_trigger2tasks (log ?e ?w)) with (_trigger2tasks w).
    rewrite Hl. rewrite bool_decide_true by done.
    apply IH; [done|]. left. by exists c, l.
  - rewrite (Task_complete_cached _ _ T c) by done.
    change (_trigger2tasks (log ?e ?w)) with (_trigger2tasks w).
    rewrite Hl. rewrite bool_decide_false by (by intros [? ?]).
    unfold exception. rewrite Hst, Hv.
    apply IH; [done|]. right. split; [by exists v|by exists c].
Qed.

Lemma foldl_log_fields (t : task_id) cbs w :
  let w' := foldl (λ w cb, log (done_callback cb t) w) w cbs in
  heap w' = heap w ∧ tasks w' = tasks w ∧ next_task w' = next_task w
  ∧ _trigger2tasks w' = _trigger2tasks w
  ∧ _scheduled_tasks w' = _scheduled_tasks w
  ∧ _terminate w' = _terminate w ∧ _current_task w' = _current_task w
  ∧ trace w' = trace w ++ map (λ cb, done_callback cb t) cbs.
Proof.
  revert w. induction cbs as [|cb cbs IH]; intros w; simpl.
  - by rewrite app_nil_r.
  - destruct (IH (log (done_callback cb t) w))
      as (-> & -> & -> & -> & -> & -> & -> & ->).
    simpl. by rewrite <- app_assoc.
Qed.

Lemma tasks_update_task_insert t f w T :
  tasks w !! t = Some T → tasks (update_task t f w) = <[t := f T]> (tasks w).
Proof. intros HT. unfold update_task. simpl. by rewrite HT. Qed.

(** The task object after its coroutine has ended with the outcome [o]. *)
Lemma finished_task_fields o T :
  let T' := set__state FINISHED (set__outcome (Some o) (set__state RUNNING T)) in
  _state T' = FINISHED ∧ _outcome T' = Some o ∧ _trigger T' = _trigger T
  ∧ complete T' = complete T ∧ _done_callbacks T' = _done_callbacks T.
Proof. done. Qed.

Section resume.
Variable sim_register : sim_request → option gpi_cb_hdl.

Local Abbreviation _resume_task := (Scheduler._resume_task sim_register).

(** The world in which the callbacks of the ended task are run. *)
Lemma _advance_ends t outcome sent o w T :
  tasks w !! t = Some T →
  final_outcome sent = Some o →
  ∃ w4,
    _advance t outcome sent w
    = match _do_done_callbacks t w4 with
      | (Return _, w5) => (Return None, w5)
      | (Raise e, w5) => (Raise e, w5)
      end
    ∧ tasks w4
      = <[t := set__state FINISHED (set__outcome (Some o) (set__state RUNNING T))]>
          (tasks w)
    ∧ trace w4 = trace w ++ [coro_send t outcome]
    ∧ heap w4 = heap w ∧ next_task w4 = next_task w
    ∧ _trigger2tasks w4 = _trigger2tasks w
    ∧ _scheduled_tasks w4 = _scheduled_tasks w
    ∧ _terminate w4 = _terminate w ∧ _current_task w4 = _current_task w.
Proof.
  intros HT Ho.
  exists (update_task t (set__state FINISHED)
            (update_task t (set__outcome (Some o))
               (log (coro_send t outcome)
                  (update_task t (set__state RUNNING) w)))).
  split.
  - unfold _advance.
    assert (Hd : ∀ w0 T0, tasks w0 !! t = Some T0 →
               task_done (update_task t (set__state FINISHED) w0) t = true).
    { intros w0 T0 H0. unfold task_done.
      by rewrite (lookup_update_task_eq _ _ _ T0 H0). }
    destruct sent; simplify_eq/=.
    + erewrite Hd; [done|].
      apply lookup_update_task_eq.
      change (tasks (log ?e ?w)) with (tasks w).
      by apply lookup_update_task_eq.
    + erewrite Hd; [done|].
      apply lookup_update_task_eq.
      change (tasks (log ?e ?w)) with (tasks w).
      by apply lookup_update_task_eq.
  - split; [|done].
    pose proof (tasks_update_task_insert t (set__state RUNNING) w T HT) as H1.
    set (w1 := update_task t (set__state RUNNING) w) in *.
    set (w2 := log (coro_send t outcome) w1).
    assert (H2 : tasks w2 !! t = Some (set__state RUNNING T)).
    { change (tasks w2) with (tasks w1). by rewrite H1, lookup_insert_eq. }
    pose proof (tasks_update_task_insert t (set__outcome (Some o)) w2 _ H2) as H3.
    set (w3 := update_task t (set__outcome (Some o)) w2) in *.
    assert (H4 : tasks w3 !! t
                 = Some (set__outcome (Some o) (set__state RUNNING T))).
    { by rewrite H3, lookup_insert_eq. }
    rewrite (tasks_update_task_insert t (set__state FINISHED) w3 _ H4).
    rewrite H3. change (tasks w2) with (tasks w1). rewrite H1.
    by rewrite !insert_insert_eq.
Qed.

(** X8.  When the coroutine of a resumed task ends, by returning a value or
    by raising, and other tasks await the task, [_resume_task] returns
    normally: the task is [FINISHED] with the outcome of the coroutine, its
    done-callbacks have run without ending the simulation (also when the
    outcome is an error), and the awaiting tasks have joined the run queue
    in the order in which they began to wait, each with [Value(None)]. *)
Theorem an_ended_task_wakes_the_tasks_that_await_it
    task outcome sent o w T l :
  _current_task w = None →
  _terminate w = false →
  tasks w !! task = Some T →
  _trigger T = None →
  task ∉ keys (_scheduled_tasks w) →
  final_outcome sent = Some o →
  awaited_by w T l →
  NoDup l → task ∉ l →
  (∀ a, a ∈ l → a ∉ keys (_scheduled_tasks w)) →
  ∃ w', _resume_task task outcome sent w = (Return tt, w')
    ∧ _scheduled_tasks w'
      = _scheduled_tasks w ++ map (λ a, (a, _none_outcome)) l
    ∧ (∃ T', tasks w' !! task = Some T'
             ∧ _state T' = FINISHED ∧ _outcome T' = Some o)
    ∧ (∀ a, a ∈ l → tasks w' !! a = woken_task <$> tasks w !! a)
    ∧ trace w'
      = trace w ++ coro_send task outcome
                   :: map (λ cb, done_callback cb task) (_done_callbacks T)
    ∧ (∀ c, complete T = Some c →
            _trigger2tasks w' = delete c (_trigger2tasks w))
    ∧ _current_task w' = None.
Proof.
  intros Hcur Hterm HT Htr Hq Ho (c & Hco & Hl) Hnd Hnl Hlq.
  unfold Scheduler._resume_task. rewrite Hcur.
  set (w0 := set__current_task (Some task) w).
  destruct (_advance_ends task outcome sent o w0 T HT Ho)
    as (w4 & Hadv & Ht4 & Htr4 & Hh4 & Hn4 & Hw4 & Hq4 & Hte4 & Hcu4).
  rewrite Hadv. clear Hadv.
  set (T4 := set__state FINISHED (set__outcome (Some o) (set__state RUNNING T)))
    in *.
  assert (HT4 : tasks w4 !! task = Some T4) by (by rewrite Ht4, lookup_insert_eq).
  unfold _do_done_callbacks. rewrite HT4.
  rewrite (do_callbacks_quiet _ task w4 T4 HT4 eq_refl).
  2:{ left. exists c, l. by rewrite Hw4. }
  change (_done_callbacks T4) with (_done_callbacks T).
  destruct (foldl_log_fields task (_done_callbacks T) w4)
    as (Hh5 & Ht5 & Hn5 & Hw5 & Hq5 & Hte5 & Hcu5 & Htr5).
  set (w5 := foldl _ w4 _) in *.
  assert (HT5 : tasks w5 !! task = Some T4) by (by rewrite Ht5).
  assert (task_done w5 task = true) as -> by (unfold task_done; by rewrite HT5).
  rewrite (_unschedule_idle task w5 T4 HT5 Htr).
  2:{ by rewrite Hq5, Hq4. }
  rewrite Hte5, Hte4. change (_terminate w0) with (_terminate w). rewrite Hterm.
  rewrite (Task_complete_cached task w5 T4 c HT5 Hco).
  rewrite Hw5, Hw4. change (_trigger2tasks w0) with (_trigger2tasks w).
  rewrite Hl. rewrite bool_decide_true by done.
  destruct (_react_woken c l w5)
    as (w6 & Hr & (Hq6 & Ht6 & Htr6 & Hte6 & Hcu6 & Hn6) & Hw6 & Hh6).
  { by rewrite Hw5, Hw4. }
  { done. }
  { intros a Ha. rewrite Hq5, Hq4. by apply Hlq. }
  rewrite Hr. rewrite Hte6, Hte5, Hte4.
  change (_terminate w0) with (_terminate w). rewrite Hterm.
  assert (HT6 : tasks w6 !! task = Some T4).
  { rewrite Ht6. by rewrite bool_decide_false. }
  assert (task_done w6 task = true) as -> by (unfold task_done; by rewrite HT6).
  eexists. split; [done|]. simpl.
  split; [by rewrite Hq6, Hq5, Hq4|].
  split; [by exists T4|].
  split.
  { intros a Ha. rewrite Ht6. rewrite bool_decide_true by done.
    rewrite Ht5, Ht4. rewrite lookup_insert_ne; [done|]. by intros ->. }
  split; [by rewrite Htr6, Htr5, Htr4, <- app_assoc|].
  split; [|done].
  intros c' Hc'. assert (c' = c) as -> by congruence.
  by rewrite Hw6, Hw5, Hw4.
Qed.

(** X9.  A failure that nobody awaits ends the simulation: when the
    coroutine of a task started with [start_soon] raises [e] and no task
    awaits the completion of the task, its done-callback logs the
    exception and calls [sys.exit()]; the [SystemExit] leaves
    [_resume_task], which still resets the current task.  The task is
    [FINISHED] with [Error(e)], and no other callback of the task is
    called. *)
Theorem a_failure_that_nobody_awaits_ends_the_simulation
    task outcome e w T :
  _current_task w = None →
  tasks w !! task = Some T →
  _done_callbacks T ≠ [] →
  unawaited w T →
  waiters_exist w →
  ∃ w', _resume_task task outcome (Raised e) w = (Raise SystemExit, w')
    ∧ trace w'
      = trace w ++ [coro_send task outcome;
                    done_callback _task_done_callback task;
                    log_error task e]
    ∧ (∃ T', tasks w' !! task = Some T'
             ∧ _state T' = FINISHED ∧ _outcome T' = Some (Error e))
    ∧ _scheduled_tasks w' = _scheduled_tasks w
    ∧ _trigger2tasks w' = _trigger2tasks w
    ∧ _current_task w' = None.
Proof.
  intros Hcur HT Hcbs Hun Hex.
  unfold Scheduler._resume_task. rewrite Hcur.
  set (w0 := set__current_task (Some task) w).
  destruct (_advance_ends task outcome (Raised e) (Error e) w0 T HT eq_refl)
    as (w4 & Hadv & Ht4 & Htr4 & Hh4 & Hn4 & Hw4 & Hq4 & Hte4 & Hcu4).
  rewrite Hadv. clear Hadv.
  set (T4 := set__state FINISHED
               (set__outcome (Some (Error e)) (set__state RUNNING T))) in *.
  assert (HT4 : tasks w4 !! task = Some T4) by (by rewrite Ht4, lookup_insert_eq).
  unfold _do_done_callbacks. rewrite HT4.
  change (_done_callbacks T4) with (_done_callbacks T).
  destruct (_done_callbacks T) as [|[] cbs]; [done|]. simpl.
  unfold run__task_done_callback.
  change (tasks (log ?e ?w)) with (tasks w). rewrite HT4.
  assert (cancelled T4 = false) as -> by done.
  unfold Task_complete.
  change (tasks (log ?e ?w)) with (tasks w). rewrite HT4.
  change (complete T4) with (complete T).
  unfold unawaited in Hun. destruct (complete T) as [c|] eqn:Hco.
  - change (_trigger2tasks (log ?e ?w)) with (_trigger2tasks w).
    rewrite Hw4. change (_trigger2tasks w0) with (_trigger2tasks w).
    rewrite Hun. rewrite bool_decide_false by (by intros [? ?]).
    simpl. eexists. split; [done|]. simpl.
    split; [by rewrite Htr4, <- !app_assoc|].
    split; [by exists T4|]. by rewrite Hq4, Hw4.
  - match goal with
    | |- context [bool_decide (is_Some (?m !! ?k))] =>
        assert (m !! k = None) as ->
    end.
    { simpl. rewrite Hw4, Hh4. change (_trigger2tasks w0) with (_trigger2tasks w).
      change (heap w0) with (heap w).
      destruct (_trigger2tasks w !! next_id (heap w)) eqn:E; [|done].
      assert (next_id (heap w) < next_id (heap w)) by (by apply Hex).
      lia. }
    rewrite bool_decide_false by (by intros [? ?]).
    simpl. eexists. split; [done|]. simpl.
    split; [by rewrite Htr4, <- !app_assoc|].
    split; [|by rewrite Hq4, Hw4].
    rewrite HT4. rewrite lookup_insert_eq. by eexists.
Qed.

End resume.

End FinishingFacts.

(** ** Awaiting a task that is killed or cancelled ([task.py]) *)

Module KilledFacts.
Import OrderedDict OrderedDictFacts Triggers Scheduler SchedulerFacts SchedulerLoop.
Import WakingFacts FinishingFacts.

Lemma waiters_unschedule_from_trigger_ne t tr w c :
  c ≠ tr →
  _trigger2tasks (unschedule_from_trigger t tr w).2 !! c = _trigger2tasks w !! c.
Proof.
  intros Hne. unfold unschedule_from_trigger.
  set (waiting := if bool_decide _ then _ else _).
  destruct waiting; simpl.
  - destruct (_unprime tr _) as [[[]|e] h']; simpl.
    + rewrite lookup_delete_ne by done. by rewrite lookup_insert_ne.
    + by rewrite lookup_insert_ne.
  - by rewrite lookup_insert_ne.
Qed.

Lemma _terminate_unschedule_from_trigger t tr w :
  _terminate (unschedule_from_trigger t tr w).2 = _terminate w.
Proof.
  unfold unschedule_from_trigger.
  set (waiting := if bool_decide _ then _ else _).
  destruct waiting; simpl; [|done].
  by destruct (_unprime tr _) as [[[]|e] h'].
Qed.

(** [_unschedule] fires the completion trigger of the task: the tasks that
    await it are queued with [Value(None)]. *)
Lemma _unschedule_wakes t w T c l w' :
  tasks w !! t = Some T →
  complete T = Some c →
  _terminate w = false →
  _trigger2tasks w !! c = Some l →
  _trigger T ≠ Some c →
  _unschedule t w = (Return tt, w') →
  ∀ a, a ∈ l → get a (_scheduled_tasks w') = Some _none_outcome.
Proof.
  intros HT Hco Hte Hl Hne. unfold _unschedule.
  set (w1 := if contains t (_scheduled_tasks w) then _ else w).
  assert (Ht1 : tasks w1 = tasks w) by (unfold w1; by destruct (contains _ _)).
  assert (Hw1 : _trigger2tasks w1 = _trigger2tasks w)
    by (unfold w1; by destruct (contains _ _)).
  assert (Hte1 : _terminate w1 = _terminate w)
    by (unfold w1; by destruct (contains _ _)).
  rewrite Ht1, HT. simpl.
  assert (Hstep : ∀ w2 (r : result unit),
    tasks w2 !! t = Some (set__trigger None T) ∨ tasks w2 !! t = Some T →
    _terminate w2 = false → _trigger2tasks w2 !! c = Some l →
    match r with
    | Raise e => (Raise e, w2)
    | Return _ =>
        if _terminate w2 then (Return tt, w2)
        else let '(c, w) := Task_complete t w2 in
             if bool_decide (is_Some (_trigger2tasks w !! c)) then _react c w
             else (Return tt, w)
    end = (Return tt, w') →
    ∀ a, a ∈ l → get a (_scheduled_tasks w') = Some _none_outcome).
  { intros w2 r HT2 Hte2 Hl2. destruct r as [[]|e]; [|done].
    rewrite Hte2.
    assert (Task_complete t w2 = (c, w2)) as ->.
    { destruct HT2 as [HT2|HT2]; by eapply Task_complete_cached. }
    rewrite Hl2, bool_decide_true by done.
    intros Hr a Ha. by eapply _react_queues_none_outcome. }
  destruct (_trigger T) as [tr|] eqn:Etr.
  - pose proof (tasks_unschedule_from_trigger t tr w1) as Ht2.
    pose proof (waiters_unschedule_from_trigger_ne t tr w1 c) as Hw2.
    pose proof (_terminate_unschedule_from_trigger t tr w1) as Hte2.
    destruct (unschedule_from_trigger t tr w1) as [r w2]. simpl in *.
    apply Hstep.
    + left. rewrite Ht2. apply lookup_update_task_eq. by rewrite Ht1.
    + by rewrite Hte2, Hte1.
    + rewrite Hw2, Hw1; [done|]. congruence.
  - apply (Hstep w1 (Return tt));
      [right; by rewrite Ht1|by rewrite Hte1|by rewrite Hw1].
Qed.

Lemma terminate_wakes t s w T c l w' :
  tasks w !! t = Some T →
  complete T = Some c →
  _terminate w = false →
  _trigger2tasks w !! c = Some l →
  _trigger T ≠ Some c →
  terminate t s w = (Return tt, w') →
  ∀ a, a ∈ l → get a (_scheduled_tasks w') = Some _none_outcome.
Proof.
  intros HT Hco Hte Hl Hne. unfold terminate.
  destruct (_unschedule t w) as [[[]|e] w2] eqn:Eu; [|done].
  pose proof (_unschedule_wakes t w T c l w2 HT Hco Hte Hl Hne Eu) as Hw.
  pose proof (queue_close_coro t w2) as Hq1.
  destruct (close_coro t w2) as [[[]|e] w3]; [|done]. simpl in Hq1.
  pose proof (queue__do_done_callbacks t (update_task t (set__state s) w3)) as Hq2.
  intros E a Ha. rewrite E in Hq2. simpl in Hq2. rewrite Hq2, Hq1. by apply Hw.
Qed.

(** X10.  Killing or cancelling a task that other tasks await wakes them:
    each is queued with the outcome [Value(None)].  When such a task is
    resumed, its [await task] returns [None] if the task was killed, and
    raises the [CancelledError] of the cancellation if it was cancelled. *)
Theorem awaiting_a_task_that_is_killed_or_cancelled w t T c l :
  tasks w !! t = Some T →
  done T = false →
  queue_ok w →
  waiters_ok w →
  (∀ tr l, _trigger2tasks w !! tr = Some l → t ∈ l → _trigger T = Some tr) →
  (∀ tr, _trigger T = Some tr → (_unprime tr (heap w)).1 = Return tt) →
  _state T ≠ RUNNING →
  _terminate w = false →
  complete T = Some c →
  _trigger2tasks w !! c = Some l →
  _trigger T ≠ Some c →
  (∃ w', kill t w = (Return tt, w')
     ∧ (∀ a, a ∈ l → get a (_scheduled_tasks w') = Some (Value PyNone))
     ∧ Task___await__ t (Value PyNone) w' = Return PyNone)
  ∧ (∀ msg, ∃ w', cancel t msg w = (Return tt, w')
     ∧ (∀ a, a ∈ l → get a (_scheduled_tasks w') = Some (Value PyNone))
     ∧ Task___await__ t (Value PyNone) w' = Raise (CancelledError msg)).
Proof.
  intros HT Hd Hq Hok Hlink Hun Hrun Hte Hco Hl Hne.
  assert (task_done w t = false) as Hdone by (unfold task_done; by rewrite HT).
  split.
  - rewrite kill_unfold, Hdone.
    set (T1 := set__outcome (Some (Value PyNone)) T).
    set (w1 := update_task t (set__outcome (Some (Value PyNone))) w).
    assert (tasks w1 !! t = Some T1) as HT1 by by apply lookup_update_task_eq.
    destruct (terminate_terminated t FINISHED w1 T1 HT1 Hq Hok Hlink Hun Hrun)
      as (w' & E & (T' & HT' & Hst & Ho & _)).
    { right. split; [done|]. by exists PyNone. }
    exists w'. split; [done|]. split.
    + by apply (terminate_wakes t FINISHED w1 T1 c l w' HT1).
    + simpl. rewrite HT'. unfold result_. by rewrite Hst, Ho.
  - intros msg. rewrite cancel_unfold, Hdone.
    set (T1 := set__cancelled_error (Some (CancelledError msg)) T).
    set (w1 := log (warn_FutureWarning t)
                 (update_task t (set__cancelled_error (Some (CancelledError msg))) w)).
    assert (tasks w1 !! t = Some T1) as HT1.
    { subst w1. simpl.
      change (tasks (update_task t (set__cancelled_error (Some (CancelledError msg))) w) !! t = Some T1).
      by apply lookup_update_task_eq. }
    destruct (terminate_terminated t CANCELLED w1 T1 HT1 Hq Hok Hlink Hun Hrun)
      as (w' & E & (T' & HT' & Hst & Ho & Hce & _)); [by left|].
    exists w'. split; [done|]. split.
    + by apply (terminate_wakes t CANCELLED w1 T1 c l w' HT1).
    + simpl. rewrite HT'. unfold result_. by rewrite Hst, Hce.
Qed.

End KilledFacts.

(** ** The last task to leave a trigger ([_scheduler.py]) *)

Module UnscheduleFacts.
Import OrderedDict OrderedDictFacts Triggers Scheduler SchedulerFacts SchedulerLoop.
Import PyListFacts WakingFacts FinishingFacts KilledFacts.

Lemma sim_calls__cleanup tr h : sim_calls (_cleanup tr h) = sim_calls h.
Proof.
  unfold _cleanup. destruct (objects h !! tr) as [t|]; [|done].
  by destruct (is_GPITrigger (kind t)).
Qed.

Lemma heap_react_loop l w : heap (react_loop l w).2 = heap w.
Proof.
  revert w. induction l as [|t l IH]; intros w; simpl; [done|].
  unfold _schedule_task. destruct (contains _ _); [done|]. by rewrite IH.
Qed.

Lemma sim_calls__react c w : sim_calls (heap (_react c w).2) = sim_calls (heap w).
Proof.
  unfold _react. destruct (_trigger2tasks w !! c) as [l|].
  - pose proof (heap_react_loop l (set__trigger2tasks (delete c) w)) as Hh.
    destruct (react_loop _ _) as [[[]|e] w1]; simpl in *.
    + by rewrite sim_calls__cleanup, Hh.
    + by rewrite Hh.
  - by destruct (isinstance_GPITrigger w c).
Qed.

Lemma waiters__react_ne c w tr :
  tr ≠ c → _trigger2tasks (_react c w).2 !! tr = _trigger2tasks w !! tr.
Proof.
  intros Hne. unfold _react. destruct (_trigger2tasks w !! c) as [l|].
  - pose proof (waiters_react_loop l (set__trigger2tasks (delete c) w)) as Hw.
    destruct (react_loop _ _) as [[[]|e] w1]; simpl in *;
      rewrite Hw; by rewrite lookup_delete_ne.
  - by destruct (isinstance_GPITrigger w c).
Qed.

Lemma sim_calls_Task_complete t w :
  sim_calls (heap (Task_complete t w).2) = sim_calls (heap w).
Proof.
  unfold Task_complete. destruct (tasks w !! t) as [T|]; [|done].
  by destruct (complete T).
Qed.

(** The trigger [Task.complete] answers: the cached one, or a new
    object. *)
Lemma Task_complete_is t w T :
  tasks w !! t = Some T →
  (Task_complete t w).1 = default (next_id (heap w)) (complete T).
Proof.
  intros HT. unfold Task_complete. rewrite HT. by destruct (complete T).
Qed.

Lemma objects__cleanup_ne c h tr :
  tr ≠ c → objects (_cleanup c h) !! tr = objects h !! tr.
Proof.
  intros Hne. unfold _cleanup. destruct (objects h !! c) as [t|] eqn:E; [|done].
  destruct (is_GPITrigger (kind t));
    unfold GPITrigger__cleanup, Trigger__cleanup, update_trigger, set_objects;
    simpl; rewrite ?E, ?lookup_insert_eq; by rewrite ?lookup_insert_ne.
Qed.

Lemma objects__react_ne c w tr :
  tr ≠ c → objects (heap (_react c w).2) !! tr = objects (heap w) !! tr.
Proof.
  intros Hne. unfold _react. destruct (_trigger2tasks w !! c) as [l|].
  - pose proof (heap_react_loop l (set__trigger2tasks (delete c) w)) as Hh.
    destruct (react_loop _ _) as [[[]|e] w1]; simpl in *.
    + by rewrite objects__cleanup_ne, Hh.
    + by rewrite Hh.
  - by destruct (isinstance_GPITrigger w c).
Qed.

Lemma objects_Task_complete t w (tr : trigger_id) :
  tr < next_id (heap w) →
  objects (heap (Task_complete t w).2) !! tr = objects (heap w) !! tr.
Proof.
  intros Hlt. unfold Task_complete. destruct (tasks w !! t) as [T|]; [|done].
  destruct (complete T); [done|]. simpl. rewrite lookup_insert_ne; [done|lia].
Qed.

(** The end of [_unschedule], after the task has left the run queue and
    its trigger: firing the completion trigger [c] of the task touches no
    other trigger and calls nothing in the simulator. *)
Lemma _unschedule_end_keeps t w1 T (tr : trigger_id) :
  tasks w1 !! t = Some T →
  waiters_ok w1 →
  tr < next_id (heap w1) →
  complete T ≠ Some tr →
  let end_ :=
    if _terminate w1 then (Return tt, w1)
    else let '(c, w) := Task_complete t w1 in
         if bool_decide (is_Some (_trigger2tasks w !! c)) then _react c w
         else (Return tt, w) in
  end_.1 = Return tt
  ∧ _trigger2tasks end_.2 !! tr = _trigger2tasks w1 !! tr
  ∧ objects (heap end_.2) !! tr = objects (heap w1) !! tr
  ∧ sim_calls (heap end_.2) = sim_calls (heap w1).
Proof.
  intros HT Hok Hlt Hne. simpl. destruct (_terminate w1); [done|].
  pose proof (Task_complete_is t w1 T HT) as Hc.
  pose proof (waiters_Task_complete t w1) as Hw.
  pose proof (queue_Task_complete t w1) as Hq.
  pose proof (objects_Task_complete t w1 tr Hlt) as Ho.
  pose proof (sim_calls_Task_complete t w1) as Hs.
  destruct (Task_complete t w1) as [c w2]. simpl in *.
  assert (Hnc : tr ≠ c).
  { subst c. destruct (complete T) as [c|]; simpl; [|lia].
    intros ->. by apply Hne. }
  case_bool_decide; simpl; [|by rewrite Hw, Ho, Hs].
  split; [|split; [|split]].
  - apply _react_returns. intros tr' l. rewrite Hw, Hq. apply Hok.
  - rewrite waiters__react_ne by done. by rewrite Hw.
  - rewrite objects__react_ne by done. exact Ho.
  - by rewrite sim_calls__react, Hs.
Qed.

(** X11.  A simulator trigger stays registered while a task waits on it.
    When a task that waits on a primed simulator trigger is unscheduled
    (killed, cancelled), it leaves the waiter list, the other waiters
    keeping their order.  If other tasks still wait, the trigger is left
    as it is and the simulator is not called; if the task was the last
    one, the trigger is un-primed: its callback is de-registered, it loses
    its callback handle, and its entry leaves the waiter map. *)
Theorem the_last_waiter_to_leave_deregisters_the_trigger
    t (tr : trigger_id) w T l tg cb :
  tasks w !! t = Some T →
  _trigger T = Some tr →
  waiters_ok w →
  waiters_exist w →
  _trigger2tasks w !! tr = Some l →
  t ∈ l →
  objects (heap w) !! tr = Some tg →
  is_GPITrigger (kind tg) = true →
  _cbhdl tg = Some cb →
  complete T ≠ Some tr →
  ∃ w' l', _unschedule t w = (Return tt, w')
    ∧ PyList.remove t l = Some l'
    ∧ (l' ≠ [] →
         _trigger2tasks w' !! tr = Some l'
         ∧ objects (heap w') !! tr = Some tg
         ∧ sim_calls (heap w') = sim_calls (heap w))
    ∧ (l' = [] →
         _trigger2tasks w' !! tr = None
         ∧ objects (heap w') !! tr
           = Some (set__primed false (set__cbhdl None tg))
         ∧ sim_calls (heap w') = sim_calls (heap w) ++ [deregister cb]).
Proof.
  intros HT Htr Hok Hex Hl Hin Htg Hk Hcb Hne.
  destruct (remove_elem_of t l Hin) as [l' Hrem].
  assert (Hlt : tr < next_id (heap w)) by (apply Hex; by exists l).
  unfold _unschedule.
  set (w0 := if contains t (_scheduled_tasks w) then _ else w).
  assert (tasks w0 = tasks w ∧ heap w0 = heap w
          ∧ _trigger2tasks w0 = _trigger2tasks w ∧ waiters_ok w0)
    as (Ht0 & Hh0 & Hw0 & Hok0).
  { subst w0. destruct (contains t (_scheduled_tasks w)) eqn:Hc; [|done].
    split; [done|]. split; [done|]. split; [done|].
    intros tr' l0 Hl0. simpl in *.
    destruct (Hok tr' l0 Hl0) as [Hnd Hq]. split; [done|].
    intros x Hx Hin'. apply (Hq x Hx). by eapply keys_delitem_subseteq. }
  clearbody w0. rewrite Ht0, HT. simpl. rewrite Htr.
  pose proof (waiters_ok_unschedule_from_trigger t tr w0 Hok0) as Hok1.
  pose proof (tasks_unschedule_from_trigger t tr w0) as Ht1.
  revert Hok1 Ht1. unfold unschedule_from_trigger. cbv zeta.
  change (_trigger2tasks (update_task ?a ?b ?w)) with (_trigger2tasks w).
  rewrite Hw0, Hl. simpl. rewrite bool_decide_true by done. rewrite Hrem. simpl.
  assert (HT1 : ∀ w1, tasks w1 = tasks (update_task t (set__trigger None) w0) →
                 tasks w1 !! t = Some (set__trigger None T)).
  { intros w1 ->. apply lookup_update_task_eq. by rewrite Ht0. }
  destruct l' as [|x l'].
  - change (heap (set__trigger2tasks ?f (update_task ?a ?b ?w))) with (heap w).
    rewrite Hh0. unfold _unprime. rewrite Htg, Hcb.
    assert ((match kind tg with
             | _Event parent =>
                 if negb (_primed tg) then (Return tt, heap w)
                 else match events (heap w) !! parent with
                      | Some e =>
                          match Event._unprime_trigger tr e with
                          | Return e' =>
                              (Return tt,
                               Trigger__cleanup tr
                                 (set_events <[parent:=e']> (heap w)))
                          | Raise err => (Raise err, heap w)
                          end
                      | None => (Return tt, Trigger__cleanup tr (heap w))
                      end
             | NullTrigger _ | TaskComplete _ =>
                 (Return tt, Trigger__cleanup tr (heap w))
             | _ => (Return tt,
                     GPITrigger__cleanup tr (log_sim_call (deregister cb) (heap w)))
             end)
            = (Return tt,
               GPITrigger__cleanup tr (log_sim_call (deregister cb) (heap w))))
      as -> by (by destruct (kind tg)).
    intros Hok1 Ht1.
    match goal with
    | |- context [if _terminate ?w1 then _ else _] =>
        destruct (_unschedule_end_keeps t w1 (set__trigger None T) tr)
          as (Hr & Hw' & Ho' & Hs'); [by apply HT1|done|done|done|]
    end.
    match goal with
    | |- context [if _terminate ?w1 then ?a else ?b] =>
        destruct (if _terminate w1 then a else b) as [[[]|e] w']; [|done]
    end.
    exists w', []. split; [done|]. split; [done|]. split; [done|]. intros _.
    simpl in *. split; [|split].
    + rewrite Hw'. by rewrite lookup_delete_eq.
    + rewrite Ho'. by apply (PrimingFacts.objects_GPITrigger__cleanup tr _ tg).
    + by rewrite Hs'.
  - intros Hok1 Ht1.
    match goal with
    | |- context [if _terminate ?w1 then _ else _] =>
        destruct (_unschedule_end_keeps t w1 (set__trigger None T) tr)
          as (Hr & Hw' & Ho' & Hs'); [by apply HT1|done|simpl; by rewrite Hh0|done|]
    end.
    match goal with
    | |- context [if _terminate ?w1 then ?a else ?b] =>
        destruct (if _terminate w1 then a else b) as [[[]|e] w']; [|done]
    end.
    exists w', (x :: l'). split; [done|]. split; [done|]. split; [|done].
    intros _. simpl in *. split; [|split].
    + rewrite Hw'. by rewrite lookup_insert_eq.
    + rewrite Ho'. by rewrite Hh0.
    + rewrite Hs'. by rewrite Hh0.
Qed.

End UnscheduleFacts.

(** ** Starting a task ([__init__.py]) *)

Module StartingFacts.
Import OrderedDict OrderedDictFacts Triggers Scheduler SchedulerFacts SchedulerLoop.

(** X12.  [start_soon] does not run the new task: it makes the task,
    registers the done-callback of the package on it and puts it into the
    run queue behind every task queued before, with the outcome
    [Value(None)]; nothing is sent to a coroutine and no callback is
    called. *)
Theorem start_soon_queues_the_new_task_last w :
  next_task w ∉ keys (_scheduled_tasks w) →
  ∃ w', start_soon w = (Return (next_task w), w')
    ∧ _scheduled_tasks w'
      = _scheduled_tasks w ++ [(next_task w, _none_outcome)]
    ∧ tasks w'
      = <[next_task w :=
            set__state SCHEDULED
              (set__done_callbacks [_task_done_callback] new_Task)]> (tasks w)
    ∧ next_task w' = S (next_task w)
    ∧ trace w' = trace w
    ∧ heap w' = heap w
    ∧ _trigger2tasks w' = _trigger2tasks w.
Proof.
  intros Hq. unfold start_soon.
  set (w1 := Build_world _ _ _ _ _ _ _ _).
  assert (H1 : tasks w1 !! next_task w = Some new_Task)
    by apply lookup_insert_eq.
  unfold _add_done_callback, task_done. rewrite H1.
  change (done new_Task) with false. cbv iota beta.
  set (f := λ T : Task, set__done_callbacks _ T).
  pose proof (FinishingFacts.tasks_update_task_insert (next_task w) f w1 _ H1)
    as H2.
  set (w2 := update_task (next_task w) f w1) in *.
  unfold _schedule_task.
  assert (contains (next_task w) (_scheduled_tasks w2) = false) as ->
    by (by apply contains_false).
  assert (H3 : tasks w2 !! next_task w = Some (f new_Task))
    by (by rewrite H2, lookup_insert_eq).
  eexists. split; [done|].
  split; [simpl; by rewrite setitem_absent|].
  split; [|done].
  change (tasks (set__scheduled_tasks ?g ?w0)) with (tasks w0).
  rewrite (FinishingFacts.tasks_update_task_insert _ _ w2 _ H3), H2.
  unfold w1. simpl. by rewrite !insert_insert_eq.
Qed.

End StartingFacts.

(** ** Events ([triggers.py]) *)

Module EventFacts.
Import OrderedDict OrderedDictFacts Triggers Scheduler SchedulerFacts SchedulerLoop.
Import WakingFacts UnscheduleFacts.

Lemma woken_app l1 l2 w w1 w2 :
  (∀ x, x ∈ l1 → x ∉ l2) →
  woken l1 w w1 → woken l2 w1 w2 → woken (l1 ++ l2) w w2.
Proof.
  intros Hdisj (Hq1 & Ht1 & Htr1 & Hte1 & Hc1 & Hn1)
               (Hq2 & Ht2 & Htr2 & Hte2 & Hc2 & Hn2).
  unfold woken. split; [|split].
  - by rewrite Hq2, Hq1, map_app, app_assoc.
  - intros t. rewrite Ht2, Ht1.
    destruct (decide (t ∈ l2)) as [H2|H2], (decide (t ∈ l1)) as [H1|H1].
    + by destruct (Hdisj t).
    + rewrite (bool_decide_true (t ∈ l2)), (bool_decide_false (t ∈ l1)) by done.
      rewrite bool_decide_true; [done|]. apply elem_of_app. by right.
    + rewrite (bool_decide_false (t ∈ l2)), (bool_decide_true (t ∈ l1)) by done.
      rewrite bool_decide_true; [done|]. apply elem_of_app. by left.
    + rewrite (bool_decide_false (t ∈ l2)), (bool_decide_false (t ∈ l1)) by done.
      rewrite bool_decide_false; [done|]. by intros [?|?]%elem_of_app.
  - by rewrite Htr2, Hte2, Hc2, Hn2.
Qed.

Lemma events__cleanup tr h : events (_cleanup tr h) = events h.
Proof.
  unfold _cleanup. destruct (objects h !! tr) as [t|]; [|done].
  by destruct (is_GPITrigger (kind t)).
Qed.

Section event_facts.
Variable _sim_react : trigger_id → world → result unit * world.

Local Abbreviation fire_all := (SchedulerLoop.fire_all _sim_react).
Local Abbreviation Event_set := (SchedulerLoop.Event_set _sim_react).

(** [_react] on a trigger of an event. *)
Lemma _react_of_an_event_trigger ev tr w :
  primed_for w ev tr →
  NoDup (waiters_of w tr) →
  (∀ a, a ∈ waiters_of w tr → a ∉ keys (_scheduled_tasks w)) →
  ∃ w', SchedulerLoop.call__callback _sim_react tr w = (Return tt, w')
    ∧ woken (waiters_of w tr) w w'
    ∧ _trigger2tasks w' = delete tr (_trigger2tasks w)
    ∧ events (heap w') = events (heap w)
    ∧ ∀ tr', tr' ≠ tr → objects (heap w') !! tr' = objects (heap w) !! tr'.
Proof.
  intros (t & Ht & Hk & Hcb) Hnd Hq.
  unfold call__callback. rewrite Ht. simpl. rewrite Hcb.
  unfold waiters_of in *. destruct (_trigger2tasks w !! tr) as [l|] eqn:El.
  - destruct (_react_woken tr l w El Hnd Hq)
      as (w' & Hr & Hwk & Hw & Hh).
    exists w'. split; [done|]. split; [done|]. split; [done|].
    rewrite Hh. split; [apply events__cleanup|].
    intros tr' Hne. by apply objects__cleanup_ne.
  - exists w. unfold _react. rewrite El.
    assert (isinstance_GPITrigger w tr = false) as ->
      by (unfold isinstance_GPITrigger; by rewrite Ht, Hk).
    split; [done|]. split; [apply woken_nil|]. split; [|done].
    symmetry. by apply delete_id.
Qed.

Lemma fire_all_woken ev pending w :
  NoDup pending →
  (∀ tr, tr ∈ pending → primed_for w ev tr) →
  NoDup (pending ≫= waiters_of w) →
  (∀ a, a ∈ pending ≫= waiters_of w → a ∉ keys (_scheduled_tasks w)) →
  ∃ w', fire_all pending w = (Return tt, w')
    ∧ woken (pending ≫= waiters_of w) w w'
    ∧ events (heap w') = events (heap w)
    ∧ (∀ tr, tr ∈ pending → _trigger2tasks w' !! tr = None)
    ∧ (∀ tr, tr ∉ pending → _trigger2tasks w' !! tr = _trigger2tasks w !! tr).
Proof.
  intros Hnd. revert w. induction Hnd as [|tr rest Hnin Hnd IH]; intros w Hp Hl Hq.
  - exists w. split; [done|]. split; [apply woken_nil|]. split; [done|].
    split; [|done]. by intros tr ?%elem_of_nil.
  - simpl in *. apply NoDup_app in Hl as (Hl1 & Hl12 & Hl2).
    destruct (_react_of_an_event_trigger ev tr w) as (w1 & Hc & Hwk & Hw1 & He1 & Ho1).
    { apply Hp. by left. }
    { done. }
    { intros a Ha. apply Hq. apply elem_of_app. by left. }
    rewrite Hc.
    assert (Hws : ∀ tr', tr' ∈ rest → waiters_of w1 tr' = waiters_of w tr').
    { intros tr' Hin. unfold waiters_of. rewrite Hw1, lookup_delete_ne; [done|].
      by intros ->. }
    assert (Hbind : rest ≫= waiters_of w1 = rest ≫= waiters_of w).
    { clear -Hws. induction rest as [|x rest IH]; [done|].
      rewrite !bind_cons. rewrite Hws by (by left). f_equal.
      apply IH. intros tr' Hin. apply Hws. by right. }
    destruct (IH w1) as (w2 & Hf & Hwk2 & He2 & Hin2 & Hout2).
    { intros tr' Hin. destruct (Hp tr') as (t' & Ht' & Hk' & Hcb'); [by right|].
      exists t'. split; [|done]. rewrite Ho1; [done|]. by intros ->. }
    { by rewrite Hbind. }
    { rewrite Hbind. intros a Ha. destruct Hwk as (-> & _).
      unfold keys. rewrite fmap_app, elem_of_app. intros [Hin|Hin].
      - apply (Hq a); [|done]. apply elem_of_app. by right.
      - rewrite <- list_fmap_compose in Hin. simpl in Hin.
        rewrite list_fmap_id in Hin. by apply (Hl12 a). }
    exists w2. split; [done|]. split; [|split; [|split]].
    + rewrite Hbind in Hwk2. by eapply woken_app.
    + by rewrite He2.
    + intros tr' [->|Hin]%elem_of_cons.
      * rewrite Hout2 by done. by rewrite Hw1, lookup_delete_eq.
      * by apply Hin2.
    + intros tr' Hni. apply not_elem_of_cons in Hni as [Hne Hni].
      rewrite Hout2 by done. by rewrite Hw1, lookup_delete_ne.
Qed.

Lemma set_heap_id f w : f (heap w) = heap w → set_heap f w = w.
Proof. intros Hf. destruct w. unfold set_heap. simpl in *. by rewrite Hf. Qed.

Lemma set_events_id f h : f (events h) = events h → set_events f h = h.
Proof. intros Hf. destruct h. unfold set_events. simpl in *. by rewrite Hf. Qed.

(** [Event.set()] with waiting tasks: the call returns and wakes them. *)
Lemma Event_set_woken ev w e :
  events (heap w) !! ev = Some e →
  NoDup (Event._pending_events e) →
  (∀ tr, tr ∈ Event._pending_events e → primed_for w ev tr) →
  NoDup (Event._pending_events e ≫= waiters_of w) →
  (∀ a, a ∈ Event._pending_events e ≫= waiters_of w →
        a ∉ keys (_scheduled_tasks w)) →
  ∃ w', Event_set ev w = (Return tt, w')
    ∧ woken (Event._pending_events e ≫= waiters_of w) w w'.
Proof.
  intros He Hnd Hp Hl Hq. unfold SchedulerLoop.Event_set. rewrite He. simpl.
  set (w0 := set_heap _ w).
  destruct (fire_all_woken ev (Event._pending_events e) w0)
    as (w' & Hf & Hwk & _); try done.
  exists w'. split; [done|].
  destruct Hwk as (? & ? & ? & ? & ? & ?). by repeat split.
Qed.

(** X13.  [Event.set()] wakes every task that waits on the event, once: the
    tasks join the run queue with the outcome [Value(None)], in the order
    in which their triggers were primed (and, on one trigger, in the order
    in which they began to wait); the event is set and has no pending
    trigger left, so that setting it again wakes nobody and changes
    nothing. *)
Theorem Event_set_wakes_the_waiting_tasks ev w e :
  events (heap w) !! ev = Some e →
  NoDup (Event._pending_events e) →
  (∀ tr, tr ∈ Event._pending_events e → primed_for w ev tr) →
  NoDup (Event._pending_events e ≫= waiters_of w) →
  (∀ a, a ∈ Event._pending_events e ≫= waiters_of w →
        a ∉ keys (_scheduled_tasks w)) →
  ∃ w', Event_set ev w = (Return tt, w')
    ∧ woken (Event._pending_events e ≫= waiters_of w) w w'
    ∧ events (heap w') !! ev
      = Some {| Event._pending_events := []; Event._fired := true |}
    ∧ (∀ tr, tr ∈ Event._pending_events e → _trigger2tasks w' !! tr = None)
    ∧ Event_set ev w' = (Return tt, w').
Proof.
  intros He Hnd Hp Hl Hq. unfold SchedulerLoop.Event_set at 1. rewrite He. simpl.
  set (w0 := set_heap _ w).
  destruct (fire_all_woken ev (Event._pending_events e) w0)
    as (w' & Hf & Hwk & Hev & Hin & _); try done.
  exists w'. split; [done|]. split; [|split; [|split]].
  - destruct Hwk as (? & ? & ? & ? & ? & ?). by repeat split.
  - rewrite Hev. unfold w0. simpl. by rewrite lookup_insert_eq.
  - done.
  - unfold SchedulerLoop.Event_set. rewrite Hev. unfold w0 at 1. simpl.
    rewrite lookup_insert_eq. simpl.
    rewrite set_heap_id; [done|]. apply set_events_id.
    apply insert_id. rewrite Hev. unfold w0. simpl. by rewrite lookup_insert_eq.
Qed.

End event_facts.

Section await_event.
Variable sim_register : sim_request → option gpi_cb_hdl.
Variable Event___repr__ : event_id → string.

Local Abbreviation _schedule_task_upon := (Scheduler._schedule_task_upon sim_register).
Local Abbreviation Event_wait := (SchedulerLoop.Event_wait Event___repr__).

(** Awaiting the trigger of an event that is not set: the trigger joins
    the pending triggers of the event and the task waits on it. *)
Lemma awaiting_an_event_trigger task tr w T t ev e :
  tasks w !! task = Some T →
  _trigger2tasks w !! tr = None →
  objects (heap w) !! tr = Some t →
  kind t = _Event ev → _primed t = false →
  events (heap w) !! ev = Some e →
  ∃ w1, _schedule_task_upon task tr w = (Return tt, w1)
    ∧ tasks w1 = <[task := set__state PENDING (set__trigger (Some tr) T)]> (tasks w)
    ∧ _trigger2tasks w1 = <[tr := [task]]> (_trigger2tasks w)
    ∧ _scheduled_tasks w1 = _scheduled_tasks w
    ∧ events (heap w1) = <[ev := Event._prime_trigger tr e]> (events (heap w))
    ∧ objects (heap w1)
      = <[tr := set__primed true (set__callback (Some _react_fn) t)]>
          (objects (heap w))
    ∧ next_id (heap w1) = next_id (heap w).
Proof.
  intros HT Hw Ht Hk Hp He. unfold Scheduler._schedule_task_upon.
  set (w1 := update_task task (set__state PENDING)
               (update_task task (set__trigger (Some tr)) w)).
  assert (Ht1 : tasks w1
                = <[task := set__state PENDING (set__trigger (Some tr) T)]> (tasks w)).
  { unfold w1. erewrite !FinishingFacts.tasks_update_task_insert;
      [|done|by erewrite FinishingFacts.tasks_update_task_insert, lookup_insert_eq].
    by rewrite insert_insert_eq. }
  assert (Hh1 : heap w1 = heap w) by done.
  assert (Hw1 : _trigger2tasks w1 = _trigger2tasks w) by done.
  assert (Hq1 : _scheduled_tasks w1 = _scheduled_tasks w) by done.
  clearbody w1. rewrite Hw1, Hw. simpl. rewrite Hh1, Ht, Hp. simpl.
  rewrite bool_decide_true by done. simpl.
  unfold isinstance_GPITrigger. simpl. rewrite Hh1, Ht, Hk. simpl.
  unfold _prime. rewrite Ht, Hk, Hp.
  eexists. split; [done|]. simpl. rewrite Ht. simpl. rewrite He.
  rewrite lookup_insert_eq, insert_insert_eq. by rewrite Hw1.
Qed.

Lemma fresh_trigger_has_no_waiters w :
  waiters_exist w → _trigger2tasks w !! next_id (heap w) = None.
Proof.
  intros Hex. destruct (_trigger2tasks w !! next_id (heap w)) eqn:E; [|done].
  assert (next_id (heap w) < next_id (heap w)) by (apply Hex; by eexists). lia.
Qed.

(** X14.  Awaiting [event.wait()] of an event that is set does not block:
    [wait] answers a [NullTrigger], and the awaiting task goes straight
    back to the tail of the run queue with the outcome [Value(None)]. *)
Theorem awaiting_a_set_event_does_not_block ev w e task T :
  events (heap w) !! ev = Some e →
  Event._fired e = true →
  tasks w !! task = Some T →
  done T = false →
  task ∉ keys (_scheduled_tasks w) →
  waiters_exist w →
  ∃ w', _schedule_task_upon task (Event_wait ev (heap w)).1
          (set_heap (λ _, (Event_wait ev (heap w)).2) w) = (Return tt, w')
    ∧ woken [task] w w'
    ∧ _trigger2tasks w' = _trigger2tasks w.
Proof.
  intros He Hf HT Hd Hq Hex.
  unfold SchedulerLoop.Event_wait, Event.is_set. rewrite He. simpl. rewrite Hf.
  simpl.
  pose proof (fresh_trigger_has_no_waiters w Hex) as Hfr.
  set (nt := NullTrigger (Some (String.append (Event___repr__ ev) ".wait()"))).
  destruct (fires_at_once_woken sim_register task
              (next_id (heap w))
              (set_heap (λ _, (new_trigger nt (heap w)).2) w) T
              {| kind := nt; _primed := false; _cbhdl := None;
                 _callback := None |} HT Hq Hfr)
    as (w' & Hs & Hwk & Hh & Hw).
  - simpl. by rewrite lookup_insert_eq.
  - done.
  - done.
  - intros td _. unfold Triggers._prime. simpl. by rewrite lookup_insert_eq.
  - exists w'. split; [done|]. split; [|done].
    destruct Hwk as (? & ? & ? & ? & ? & ?). by repeat split.
Qed.

(** X15.  Awaiting [event.wait()] of an event that is not set blocks the
    task until the event is set: the task is in no run queue after the
    [await]; a later [Event.set()] queues it, with the outcome
    [Value(None)], behind the tasks that waited on the event before it. *)
Theorem a_task_that_awaits_an_event_is_woken_by_set
    (_sim_react : trigger_id → world → result unit * world) ev w e task T :
  events (heap w) !! ev = Some e →
  Event._fired e = false →
  NoDup (Event._pending_events e) →
  (∀ tr, tr ∈ Event._pending_events e → primed_for w ev tr) →
  NoDup (Event._pending_events e ≫= waiters_of w) →
  (∀ a, a ∈ Event._pending_events e ≫= waiters_of w →
        a ∉ keys (_scheduled_tasks w)) →
  tasks w !! task = Some T →
  task ∉ keys (_scheduled_tasks w) →
  task ∉ (Event._pending_events e ≫= waiters_of w) →
  waiters_exist w →
  heap_ok (heap w) →
  ∃ w1 w2,
    _schedule_task_upon task (Event_wait ev (heap w)).1
      (set_heap (λ _, (Event_wait ev (heap w)).2) w) = (Return tt, w1)
    ∧ (task ∉ keys (_scheduled_tasks w1))
    ∧ SchedulerLoop.Event_set _sim_react ev w1 = (Return tt, w2)
    ∧ _scheduled_tasks w2
      = _scheduled_tasks w
        ++ map (λ a, (a, _none_outcome))
             ((Event._pending_events e ≫= waiters_of w) ++ [task]).
Proof.
  intros He Hf Hnd Hp Hl Hq HT Hqt Hnt Hex Hok.
  unfold SchedulerLoop.Event_wait, Event.is_set. rewrite He. simpl. rewrite Hf.
  simpl.
  set (tr := next_id (heap w)).
  set (t := {| kind := _Event ev; _primed := false; _cbhdl := None;
               _callback := None |}).
  set (w0 := set_heap _ w).
  assert (Hfresh : objects (heap w) !! tr = None).
  { destruct (objects (heap w) !! tr) eqn:E; [|done].
    assert (tr < next_id (heap w)) by (apply Hok; by eexists).
    unfold tr in *. lia. }
  assert (Hntr : tr ∉ Event._pending_events e).
  { intros Hin. destruct (Hp tr Hin) as (? & ? & _). congruence. }
  destruct (awaiting_an_event_trigger task tr w0 T t ev e)
    as (w1 & Hs & Ht1 & Hw1 & Hq1 & He1 & Ho1 & _); try done.
  { exact (fresh_trigger_has_no_waiters w Hex). }
  { unfold w0. simpl. by rewrite lookup_insert_eq. }
  exists w1.
  assert (Hws : ∀ tr', tr' ∈ Event._pending_events e →
             waiters_of w1 tr' = waiters_of w tr').
  { intros tr' Hin. unfold waiters_of. rewrite Hw1.
    rewrite lookup_insert_ne; [done|]. intros Heq. apply Hntr. by rewrite Heq. }
  assert (Hbind : Event._pending_events e ≫= waiters_of w1
                  = Event._pending_events e ≫= waiters_of w).
  { clear -Hws. induction (Event._pending_events e) as [|x rest IH]; [done|].
    rewrite !bind_cons. rewrite Hws by (by left). f_equal.
    apply IH. intros tr' Hin. apply Hws. by right. }
  assert (Hall : (Event._pending_events e ++ [tr]) ≫= waiters_of w1
                 = (Event._pending_events e ≫= waiters_of w) ++ [task]).
  { rewrite bind_app, Hbind. f_equal. rewrite bind_cons. simpl.
    unfold waiters_of. rewrite Hw1, lookup_insert_eq. done. }
  destruct (Event_set_woken _sim_react ev w1
              (Event._prime_trigger tr e))
    as (w2 & Hset & (Hq2 & _)).
  { by rewrite He1, lookup_insert_eq. }
  { simpl. apply NoDup_app. split; [done|]. split; [|apply NoDup_singleton].
    intros x Hx ->%list_elem_of_singleton. done. }
  { simpl. intros tr' [Hin|Hin]%elem_of_app;
      [|apply list_elem_of_singleton in Hin as ->].
    - destruct (Hp tr' Hin) as (t' & Ht' & Hk' & Hcb'). exists t'.
      assert (tr ≠ tr') by (intros Heq; apply Hntr; by rewrite Heq).
      split; [|done]. rewrite Ho1, lookup_insert_ne by done.
      unfold w0. simpl. by rewrite lookup_insert_ne.
    - eexists. split; [by rewrite Ho1, lookup_insert_eq|]. done. }
  { simpl. rewrite Hall. apply NoDup_app. split; [done|].
    split; [|apply NoDup_singleton].
    intros x Hx ->%list_elem_of_singleton. done. }
  { simpl. rewrite Hall, Hq1. intros a [Hin|Hin]%elem_of_app;
      [|apply list_elem_of_singleton in Hin as ->].
    - by apply Hq.
    - done. }
  exists w2. split; [done|]. split; [by rewrite Hq1|]. split; [done|].
  simpl in Hq2. by rewrite Hq2, Hall, Hq1.
Qed.

End await_event.

End EventFacts.

(** ** The handle objects and the hierarchy ([handle.py]) *)

Module HierarchyFacts.
Import HandleObject Hierarchy.

Lemma kept_refl st : kept st st.
Proof. split; [done|]. intros obj o Ho. by exists o. Qed.

Lemma kept_trans st1 st2 st3 : kept st1 st2 → kept st2 st3 → kept st1 st3.
Proof.
  intros [Hh1 Ho1] [Hh2 Ho2]. split.
  - intros h obj H. by apply Hh2, Hh1.
  - intros obj o H. destruct (Ho1 obj o H) as (o' & H' & Hc & Hhd & Hp).
    destruct (Ho2 obj o' H') as (o'' & H'' & Hc' & Hhd' & Hp').
    exists o''. split; [done|]. by rewrite Hc', Hhd', Hp'.
Qed.

Lemma update_object_ok self f st :
  (∀ o, cls (f o) = cls o ∧ _handle (f o) = _handle o ∧ _path (f o) = _path o) →
  store_ok st →
  store_ok (update_object self f st) ∧ kept st (update_object self f st).
Proof.
  intros Hf [Hlt Hint]. unfold update_object, set_objects.
  destruct (objects st !! self) as [o|] eqn:Eo.
  2:{ split; [by split|]. split; [done|]. intros obj o' Ho'. by exists o'. }
  split; [split|split]; simpl.
  - intros obj [o' Ho']. apply Hlt.
    destruct (decide (obj = self)) as [->|Hne]; [by eexists|].
    rewrite lookup_insert_ne in Ho' by done. by eexists.
  - intros h obj Hh. destruct (Hint h obj Hh) as (o' & Ho' & Hhd).
    destruct (decide (obj = self)) as [->|Hne].
    + rewrite lookup_insert_eq. eexists. split; [done|].
      destruct (Hf o) as (_ & -> & _). congruence.
    + rewrite lookup_insert_ne by done. by exists o'.
  - done.
  - intros obj o' Ho'. destruct (decide (obj = self)) as [->|Hne].
    + rewrite lookup_insert_eq. eexists. split; [done|].
      assert (o' = o) as -> by congruence. apply Hf.
    + rewrite lookup_insert_ne by done. by exists o'.
Qed.

Lemma set__sub_handles_same f o :
  cls (set__sub_handles f o) = cls o
  ∧ _handle (set__sub_handles f o) = _handle o
  ∧ _path (set__sub_handles f o) = _path o.
Proof. done. Qed.

Lemma set__discovered_same b o :
  cls (set__discovered b o) = cls o
  ∧ _handle (set__discovered b o) = _handle o
  ∧ _path (set__discovered b o) = _path o.
Proof. done. Qed.

Section hierarchy_facts.
Variable get_type : gpi_sim_hdl → gpi_type.
Variable get_name_string : gpi_sim_hdl → string.
Variable get_type_string : gpi_sim_hdl → string.
Variable get_handle_by_name_ : gpi_sim_hdl → string → option gpi_sim_hdl.
Variable get_handle_by_index_ : gpi_sim_hdl → Z → option gpi_sim_hdl.
Variable iterate : gpi_sim_hdl → list gpi_sim_hdl.
Variable str_int : Z → string.
Variable repr_str : string → string.

Local Abbreviation SimHandle :=
  (Hierarchy.SimHandle get_type get_name_string get_type_string).
Local Abbreviation HierarchyObject___getitem__ :=
  (Hierarchy.HierarchyObject___getitem__ get_type get_name_string
     get_type_string get_handle_by_name_).
Local Abbreviation HierarchyObject___getattr__ :=
  (Hierarchy.HierarchyObject___getattr__ get_type get_name_string
     get_type_string get_handle_by_name_ repr_str).
Local Abbreviation discover_loop :=
  (Hierarchy.discover_loop get_type get_name_string get_type_string).
Local Abbreviation _discover_all :=
  (Hierarchy._discover_all get_type get_name_string get_type_string iterate).
Local Abbreviation ArrayObject___getitem__ :=
  (Hierarchy.ArrayObject___getitem__ get_type get_name_string get_type_string
     get_handle_by_index_ str_int).
Local Abbreviation exec :=
  (Hierarchy.exec get_type get_name_string get_type_string get_handle_by_name_
     get_handle_by_index_ iterate str_int repr_str).
Local Abbreviation exec_all :=
  (Hierarchy.exec_all get_type get_name_string get_type_string
     get_handle_by_name_ get_handle_by_index_ iterate str_int repr_str).

Lemma SimHandle_ok handle path st :
  store_ok st →
  store_ok (SimHandle handle path st).2
  ∧ kept st (SimHandle handle path st).2
  ∧ sim_queries (SimHandle handle path st).2 = sim_queries st
  ∧ ∀ obj, (SimHandle handle path st).1 = Returns obj →
      _handle2obj (SimHandle handle path st).2 !! handle = Some obj.
Proof.
  intros [Hlt Hint]. unfold Hierarchy.SimHandle.
  destruct (_handle2obj st !! handle) as [obj|] eqn:Eh.
  { simpl. split; [by split|]. split; [apply kept_refl|]. split; [done|].
    by intros ? [= <-]. }
  destruct (_type2cls (get_type handle)) as [c|]; simpl.
  2:{ split; [by split|]. split; [apply kept_refl|]. done. }
  assert (Hfresh : objects st !! next_obj st = None).
  { destruct (objects st !! next_obj st) eqn:E; [|done].
    assert (next_obj st < next_obj st) by (apply Hlt; by eexists). lia. }
  split; [split|split; [split|split]]; simpl.
  - intros obj [o Ho]. destruct (decide (obj = next_obj st)) as [->|Hne]; [lia|].
    rewrite lookup_insert_ne in Ho by done.
    assert (obj < next_obj st) by (apply Hlt; by eexists). lia.
  - intros h obj Hh. destruct (decide (h = handle)) as [->|Hne].
    + rewrite lookup_insert_eq in Hh. injection Hh as <-.
      rewrite lookup_insert_eq. by eexists.
    + rewrite lookup_insert_ne in Hh by done.
      destruct (Hint h obj Hh) as (o & Ho & Hhd). exists o. split; [|done].
      rewrite lookup_insert_ne; [done|]. intros <-. congruence.
  - intros h obj Hh. rewrite lookup_insert_ne; [done|]. intros <-. congruence.
  - intros obj o Ho. exists o. split; [|done].
    rewrite lookup_insert_ne; [done|]. intros <-. congruence.
  - done.
  - intros obj [= <-]. by rewrite lookup_insert_eq.
Qed.

Lemma log_query_ok q st :
  store_ok st → store_ok (log_query q st) ∧ kept st (log_query q st).
Proof.
  intros [Hlt Hint]. split; [by split|]. split; [done|].
  intros obj o Ho. by exists o.
Qed.

Lemma log_exception_ok msg st :
  store_ok st → store_ok (log_exception msg st) ∧ kept st (log_exception msg st).
Proof.
  intros [Hlt Hint]. split; [by split|]. split; [done|].
  intros obj o Ho. by exists o.
Qed.

(** A step that keeps the invariant and takes nothing back. *)
Local Abbreviation step_ok st st' := (store_ok st' ∧ kept st st').

Lemma step_ok_trans st1 st2 st3 :
  step_ok st1 st2 → step_ok st2 st3 → step_ok st1 st3.
Proof. intros [_ Hk1] [Hok Hk2]. split; [done|]. by eapply kept_trans. Qed.

Lemma HierarchyObject___getitem___ok self key st :
  store_ok st → step_ok st (HierarchyObject___getitem__ self key st).2.
Proof.
  intros Hok. unfold Hierarchy.HierarchyObject___getitem__.
  destruct (objects st !! self) as [o|]; [|split; [done|apply kept_refl]].
  destruct (_sub_handles o !! inl key); [split; [done|apply kept_refl]|].
  pose proof (log_query_ok (get_handle_by_name (_handle o) key) st Hok) as H1.
  destruct (get_handle_by_name_ (_handle o) key) as [new_handle|]; [|done].
  destruct H1 as [Hok1 Hk1].
  destruct (SimHandle_ok new_handle (Some (_child_path get_type_string o key))
              _ Hok1) as (Hok2 & Hk2 & _).
  destruct (SimHandle _ _ _) as [[sub|e] st2]; simpl in *.
  - eapply step_ok_trans; [split; [exact Hok1|exact Hk1]|].
    eapply step_ok_trans; [split; [exact Hok2|exact Hk2]|].
    apply update_object_ok; [|done]. intros ?. apply set__sub_handles_same.
  - split; [done|]. exact (kept_trans _ _ _ Hk1 Hk2).
Qed.

Lemma HierarchyObject___getattr___ok self name st :
  store_ok st → step_ok st (HierarchyObject___getattr__ self name st).2.
Proof.
  intros Hok. unfold Hierarchy.HierarchyObject___getattr__.
  destruct (startswith_underscore name); [split; [done|apply kept_refl]|].
  pose proof (HierarchyObject___getitem___ok self name st Hok) as H.
  destruct (HierarchyObject___getitem__ self name st) as [[obj|[[]| |]] st1]; done.
Qed.

Lemma discover_loop_ok self things st :
  store_ok st → step_ok st (discover_loop self things st).
Proof.
  revert st. induction things as [|thing rest IH]; intros st Hok; simpl.
  { split; [done|apply kept_refl]. }
  destruct (objects st !! self) as [o|]; [|split; [done|apply kept_refl]].
  destruct (SimHandle_ok thing
              (Some (_child_path get_type_string o
                       (_sub_handle_key (get_name_string thing)))) st Hok)
    as (Hok1 & Hk1 & _).
  destruct (SimHandle _ _ _) as [[hdl|e] st1]; simpl in *.
  - eapply step_ok_trans; [split; [exact Hok1|exact Hk1]|].
    eapply step_ok_trans; [apply update_object_ok;
      [intros ?; apply set__sub_handles_same|done]|].
    apply IH. by apply update_object_ok.
  - eapply step_ok_trans; [split; [exact Hok1|exact Hk1]|].
    eapply step_ok_trans; [by apply log_exception_ok|].
    apply IH. by apply log_exception_ok.
Qed.

Lemma _discover_all_ok self st :
  store_ok st → step_ok st (_discover_all self st).
Proof.
  intros Hok. unfold Hierarchy._discover_all.
  destruct (objects st !! self) as [o|]; [|split; [done|apply kept_refl]].
  destruct (_discovered o); [split; [done|apply kept_refl]|].
  eapply step_ok_trans; [by apply log_query_ok|].
  eapply step_ok_trans; [apply discover_loop_ok; by apply log_query_ok|].
  apply update_object_ok; [intros ?; apply set__discovered_same|].
  apply discover_loop_ok. by apply log_query_ok.
Qed.

Lemma ArrayObject___getitem___ok self index st :
  store_ok st → step_ok st (ArrayObject___getitem__ self index st).2.
Proof.
  intros Hok. unfold Hierarchy.ArrayObject___getitem__.
  destruct index as [index|]; [|split; [done|apply kept_refl]].
  destruct (objects st !! self) as [o|]; [|split; [done|apply kept_refl]].
  destruct (_sub_handles o !! inr index); [split; [done|apply kept_refl]|].
  pose proof (log_query_ok (get_handle_by_index (_handle o) index) st Hok) as H1.
  destruct (get_handle_by_index_ (_handle o) index) as [new_handle|]; [|done].
  destruct H1 as [Hok1 Hk1].
  match goal with
  | |- context [Hierarchy.SimHandle _ _ _ ?h ?p ?s] =>
      destruct (SimHandle_ok h p s Hok1) as (Hok2 & Hk2 & _);
      destruct (SimHandle h p s) as [[sub|e] st2]; simpl in *
  end.
  - eapply step_ok_trans; [split; [exact Hok1|exact Hk1]|].
    eapply step_ok_trans; [split; [exact Hok2|exact Hk2]|].
    apply update_object_ok; [|done]. intros ?. apply set__sub_handles_same.
  - split; [done|]. exact (kept_trans _ _ _ Hk1 Hk2).
Qed.

Lemma exec_ok c st : store_ok st → step_ok st (exec c st).
Proof.
  intros Hok. destruct c; simpl.
  - destruct (SimHandle_ok handle path st Hok) as (? & ? & _). by split.
  - by apply HierarchyObject___getitem___ok.
  - by apply HierarchyObject___getattr___ok.
  - by apply _discover_all_ok.
  - by apply _discover_all_ok.
  - by apply ArrayObject___getitem___ok.
Qed.

Lemma exec_all_ok cs st : store_ok st → step_ok st (exec_all cs st).
Proof.
  revert st. induction cs as [|c cs IH]; intros st Hok; simpl.
  { split; [done|apply kept_refl]. }
  eapply step_ok_trans; [by apply exec_ok|]. apply IH. by apply exec_ok.
Qed.

(** X16.  [SimHandle] makes one object for each simulator handle, for
    good: when a call has answered the object [obj] for a handle, every
    later call for this handle answers [obj] and changes nothing, whatever
    path it is given and whatever was looked up or discovered in between;
    the object still wraps the handle and still has the path it had. *)
Theorem SimHandle_answers_one_object_for_a_handle handle path st obj st1 o1 :
  store_ok st →
  SimHandle handle path st = (Returns obj, st1) →
  objects st1 !! obj = Some o1 →
  ∀ cs path',
    let st2 := exec_all cs st1 in
    SimHandle handle path' st2 = (Returns obj, st2)
    ∧ ∃ o2, objects st2 !! obj = Some o2
            ∧ _handle o2 = handle ∧ _path o2 = _path o1.
Proof.
  intros Hok Hs Ho1 cs path'. simpl.
  destruct (SimHandle_ok handle path st Hok) as (Hok1 & _ & _ & Hin).
  rewrite Hs in Hok1, Hin. simpl in *. specialize (Hin obj eq_refl).
  destruct (exec_all_ok cs st1 Hok1) as (Hok2 & Hkh & Hko).
  split.
  - unfold Hierarchy.SimHandle. by rewrite (Hkh handle obj Hin).
  - destruct (Hko obj o1 Ho1) as (o2 & Ho2 & _ & Hh & Hp).
    exists o2. split; [done|]. split; [|done].
    destruct Hok1 as [_ Hint]. destruct (Hint handle obj Hin) as (o & Ho & <-).
    congruence.
Qed.

Lemma objects_update_object self f st o :
  objects st !! self = Some o →
  objects (update_object self f st) !! self = Some (f o).
Proof.
  intros Ho. unfold update_object, set_objects. simpl. rewrite Ho.
  by rewrite lookup_insert_eq.
Qed.

(** X17.  A child of a hierarchy object is asked of the simulator once.
    When [parent[key]] has answered a child, the child is in the cache of
    the parent: asking again, by index or (for a name that does not start
    with an underscore) by attribute, answers the same object without a
    call to the simulator and without a change of the store.  The first
    lookup itself asks the simulator at most once. *)
Theorem a_child_is_asked_of_the_simulator_once self key st child st1 :
  store_ok st →
  HierarchyObject___getitem__ self key st = (Returns child, st1) →
  HierarchyObject___getitem__ self key st1 = (Returns child, st1)
  ∧ (startswith_underscore key = false →
       HierarchyObject___getattr__ self key st1 = (Returns child, st1))
  ∧ (sim_queries st1 = sim_queries st
     ∨ ∃ o, objects st !! self = Some o
            ∧ sim_queries st1
              = sim_queries st ++ [get_handle_by_name (_handle o) key]).
Proof.
  intros Hok Hg.
  assert (Hc : ∃ o1, objects st1 !! self = Some o1
                     ∧ _sub_handles o1 !! inl key = Some child
                     ∧ (sim_queries st1 = sim_queries st
                        ∨ ∃ o, objects st !! self = Some o
                               ∧ sim_queries st1
                                 = sim_queries st
                                   ++ [get_handle_by_name (_handle o) key])).
  { revert Hg. unfold Hierarchy.HierarchyObject___getitem__.
    destruct (objects st !! self) as [o|] eqn:Eo; [|done].
    destruct (_sub_handles o !! inl key) as [c|] eqn:Ec.
    { intros [= <- <-]. exists o. split; [done|]. split; [done|by left]. }
    destruct (get_handle_by_name_ (_handle o) key) as [new_handle|]; [|done].
    destruct (log_query_ok (get_handle_by_name (_handle o) key) st Hok)
      as [Hok1 Hk1].
    destruct (SimHandle_ok new_handle (Some (_child_path get_type_string o key))
                _ Hok1) as (Hok2 & (_ & Hk2) & Hq2 & _).
    destruct (SimHandle _ _ _) as [[sub|e] st2]; [|done]. simpl in *.
    intros [= <- <-].
    destruct (Hk2 self o Eo) as (o2 & Ho2 & _).
    exists (set__sub_handles (<[inl key := sub]>) o2).
    split; [by apply objects_update_object|].
    split; [simpl; by rewrite lookup_insert_eq|].
    right. exists o. split; [done|]. simpl. by rewrite Hq2. }
  destruct Hc as (o1 & Ho1 & Hc1 & Hq).
  assert (Hg1 : HierarchyObject___getitem__ self key st1 = (Returns child, st1)).
  { unfold Hierarchy.HierarchyObject___getitem__. by rewrite Ho1, Hc1. }
  split; [done|]. split; [|done].
  intros Hu. unfold Hierarchy.HierarchyObject___getattr__. by rewrite Hu, Hg1.
Qed.

(** X18.  A child the simulator does not know is an error that is not
    remembered: [parent[key]] raises [KeyError] and [parent.key] raises
    [AttributeError] with the text of that [KeyError]; each attempt asks
    the simulator again, and no object is made. *)
Theorem a_missing_child_is_not_cached self key st o :
  objects st !! self = Some o →
  _sub_handles o !! inl key = None →
  get_handle_by_name_ (_handle o) key = None →
  let st1 := log_query (get_handle_by_name (_handle o) key) st in
  HierarchyObject___getitem__ self key st
  = (Raises (Std (KeyError (no_child_message o key))), st1)
  ∧ (startswith_underscore key = false →
       HierarchyObject___getattr__ self key st
       = (Raises (Std (AttributeError (repr_str (no_child_message o key)))), st1))
  ∧ HierarchyObject___getitem__ self key st1
    = (Raises (Std (KeyError (no_child_message o key))),
       log_query (get_handle_by_name (_handle o) key) st1)
  ∧ objects st1 = objects st ∧ _handle2obj st1 = _handle2obj st.
Proof.
  intros Ho Hc Hn. simpl.
  assert (Hg : ∀ st0, objects st0 !! self = Some o →
            HierarchyObject___getitem__ self key st0
            = (Raises (Std (KeyError (no_child_message o key))),
               log_query (get_handle_by_name (_handle o) key) st0)).
  { intros st0 H0. unfold Hierarchy.HierarchyObject___getitem__.
    by rewrite H0, Hc, Hn. }
  split; [by apply Hg|]. split; [|split; [by apply Hg|done]].
  intros Hu. unfold Hierarchy.HierarchyObject___getattr__.
  by rewrite Hu, (Hg st Ho).
Qed.

Local Abbreviation supported := (Hierarchy.supported get_type).
Local Abbreviation only_supported := (Hierarchy.only_supported get_type).
Local Abbreviation key_of thing := (_sub_handle_key (get_name_string thing)).

Lemma SimHandle_supported handle path st :
  store_ok st → only_supported st → supported handle = true →
  ∃ obj st1, SimHandle handle path st = (Returns obj, st1)
    ∧ _handle2obj st1 !! handle = Some obj
    ∧ only_supported st1.
Proof.
  intros Hok Hos Hs. unfold Hierarchy.SimHandle.
  destruct (_handle2obj st !! handle) as [obj|] eqn:Eh.
  { by exists obj, st. }
  unfold Hierarchy.supported in Hs. apply bool_decide_eq_true in Hs as [c Hc].
  rewrite Hc. eexists _, _. split; [done|]. simpl.
  split; [by rewrite lookup_insert_eq|].
  intros h obj Hh. simpl in Hh. destruct (decide (h = handle)) as [->|Hne].
  - unfold Hierarchy.supported. apply bool_decide_eq_true. by eexists.
  - rewrite lookup_insert_ne in Hh by done. by eapply Hos.
Qed.

(** [SimHandle] changes no object that exists. *)
Lemma SimHandle_objects handle path st obj o :
  store_ok st → objects st !! obj = Some o →
  objects (SimHandle handle path st).2 !! obj = Some o.
Proof.
  intros [Hlt _] Ho. unfold Hierarchy.SimHandle.
  destruct (_handle2obj st !! handle); [done|].
  destruct (_type2cls (get_type handle)); [|done]. simpl.
  rewrite lookup_insert_ne; [done|]. intros <-.
  assert (next_obj st < next_obj st) by (apply Hlt; by eexists). lia.
Qed.

Lemma SimHandle_unsupported handle path st :
  only_supported st → supported handle = false →
  ∃ msg, SimHandle handle path st = (Raises (NotImplementedError msg), st).
Proof.
  intros Hos Hs. unfold Hierarchy.SimHandle.
  destruct (_handle2obj st !! handle) as [obj|] eqn:Eh.
  { rewrite (Hos handle obj Eh) in Hs. done. }
  unfold Hierarchy.supported in Hs. apply bool_decide_eq_false in Hs.
  destruct (_type2cls (get_type handle)) as [c|] eqn:Ec.
  { destruct Hs. by eexists. }
  by eexists.
Qed.

Lemma discover_loop_spec self things st o :
  store_ok st → only_supported st → objects st !! self = Some o →
  let st' := discover_loop self things st in
  store_ok st' ∧ only_supported st' ∧ kept st st'
  ∧ sim_queries st' = sim_queries st
  ∧ ∃ o', objects st' !! self = Some o'
      ∧ _discovered o' = _discovered o
      ∧ (∀ thing, thing ∈ things → supported thing = true →
           ∃ thing' obj, thing' ∈ things
             ∧ key_of thing' = key_of thing
             ∧ _sub_handles o' !! inl (key_of thing) = Some obj
             ∧ _handle2obj st' !! thing' = Some obj)
      ∧ (∀ k, (∀ thing, thing ∈ things → supported thing = true →
                 key_of thing ≠ k) →
              _sub_handles o' !! inl k = _sub_handles o !! inl k).
Proof.
  revert st o. induction things as [|thing rest IH]; intros st o Hok Hos Ho; simpl.
  { split; [done|]. split; [done|]. split; [apply kept_refl|]. split; [done|].
    exists o. split; [done|]. split; [done|]. split; [|done].
    by intros ? ?%elem_of_nil. }
  rewrite Ho.
  set (path := _child_path get_type_string o (key_of thing)).
  destruct (supported thing) eqn:Es.
  - destruct (SimHandle_supported thing (Some path) st Hok Hos Es)
      as (hdl & st1 & Hs & Hin1 & Hos1).
    destruct (SimHandle_ok thing (Some path) st Hok) as (Hok1 & Hk1 & Hq1 & _).
    rewrite Hs in *. simpl in Hok1, Hk1, Hq1.
    pose proof (SimHandle_objects thing (Some path) st self o Hok Ho) as Ho1.
    rewrite Hs in Ho1. simpl in Ho1.
    set (f := set__sub_handles (<[inl (key_of thing) := hdl]>)).
    destruct (update_object_ok self f st1) as [Hok2 Hk2];
      [intros ?; apply set__sub_handles_same|done|].
    assert (Ho2 : objects (update_object self f st1) !! self = Some (f o))
      by (by apply objects_update_object).
    destruct (IH (update_object self f st1) (f o) Hok2)
      as (Hok' & Hos' & Hk' & Hq' & o' & Ho' & Hd' & Hc1 & Hc2);
      [done|done|].
    split; [done|]. split; [done|]. split.
    { eapply kept_trans; [exact Hk1|]. eapply kept_trans; [exact Hk2|done]. }
    split; [by rewrite Hq', <- Hq1|].
    exists o'. split; [done|]. split; [done|]. split.
    + intros t [->|Hin]%elem_of_cons Hst.
      * destruct (decide (Exists (λ t', supported t' = true
                                        ∧ key_of t' = key_of thing) rest))
          as [Hex|Hnex].
        -- apply Exists_exists in Hex as (t' & Hin' & Hs' & Hk).
           destruct (Hc1 t' Hin' Hs') as (t'' & obj & Hin'' & Hk'' & Hc & Hh).
           exists t'', obj. split; [by right|]. split; [congruence|].
           split; [by rewrite <- Hk|done].
        -- exists thing, hdl. split; [by left|]. split; [done|]. split.
           ++ rewrite Hc2; [simpl; by rewrite lookup_insert_eq|].
              intros t' Hin' Hs' Hk. apply Hnex. apply Exists_exists.
              by exists t'.
           ++ destruct Hk' as [Hkh' _]. by apply Hkh'.
      * destruct (Hc1 t Hin Hst) as (t'' & obj & Hin'' & Hk'' & Hc & Hh).
        exists t'', obj. split; [by right|done].
    + intros k Hk. rewrite Hc2.
      * simpl. rewrite lookup_insert_ne; [done|].
        intros [= Heq]. by apply (Hk thing); [left|..].
      * intros t Hin. apply Hk. by right.
  - destruct (SimHandle_unsupported thing (Some path) st Hos Es) as [msg Hs].
    rewrite Hs.
    set (st1 := log_exception _ st).
    destruct (log_exception_ok
                (String.append "Unable to construct a SimHandle object for " path)
                st Hok) as [Hok1 Hk1].
    destruct (IH st1 o Hok1) as (Hok' & Hos' & Hk' & Hq' & o' & Ho' & Hd' & Hc1 & Hc2);
      [done|done|].
    split; [done|]. split; [done|].
    split; [exact (kept_trans _ _ _ Hk1 Hk')|].
    split; [done|].
    exists o'. split; [done|]. split; [done|]. split.
    + intros t [->|Hin]%elem_of_cons Hst; [congruence|].
      destruct (Hc1 t Hin Hst) as (t'' & obj & Hin'' & Hk'' & Hc & Hh).
      exists t'', obj. split; [by right|done].
    + intros k Hk. apply Hc2. intros t Hin. apply Hk. by right.
Qed.


End hierarchy_facts.

End HierarchyFacts.

Module LogicArrayFacts.
Import Handle LogicArrayValue HandleFacts.

Local Open Scope Z_scope.

Lemma of_string_app s1 s2 l1 l2 :
  of_string s1 = Some l1 → of_string s2 = Some l2 →
  of_string (String.append s1 s2) = Some (l1 ++ l2).
Proof.
  revert l1. induction s1 as [|a s1 IH]; simpl; intros l1 H1 H2.
  - by inversion H1.
  - destruct (of_ascii a) as [x|]; [|done].
    destruct (of_string s1) as [l|]; [|done].
    inversion H1. by rewrite (IH l eq_refl H2).
Qed.

Lemma length_of_string s l :
  of_string s = Some l → length l = String.length s.
Proof.
  revert l. induction s as [|a s IH]; simpl; intros l H.
  - by inversion H.
  - destruct (of_ascii a) as [x|]; [|done].
    destruct (of_string s) as [l'|]; [|done].
    inversion H. simpl. f_equal. by apply IH.
Qed.

Lemma binary_value_snoc l c :
  binary_value (l ++ [c]) = 2 * binary_value l + digit c.
Proof. unfold binary_value. by rewrite foldl_app. Qed.

Lemma binary_value_zeros k l :
  binary_value (replicate k c0 ++ l) = binary_value l.
Proof.
  unfold binary_value. rewrite foldl_app.
  assert (foldl (λ acc c, 2 * acc + digit c) 0 (replicate k c0) = 0) as ->; [|done].
  induction k as [|k IH]; simpl; [done|]. apply IH.
Qed.

Lemma binary_value_range l :
  0 <= binary_value l < 2 ^ Z.of_nat (length l).
Proof.
  induction l as [|c l IH] using rev_ind; [change (0 <= 0 < 1); lia|].
  rewrite binary_value_snoc, length_app. simpl.
  replace (Z.of_nat (length l + 1)) with (Z.succ (Z.of_nat (length l))) by lia.
  rewrite Z.pow_succ_r by lia.
  assert (0 <= digit c <= 1) by (destruct c; simpl; lia). lia.
Qed.

Lemma of_string_bits_of_positive p :
  ∃ l, of_string (bits_of_positive p) = Some l
       ∧ forallb is_binary l = true
       ∧ binary_value l = Z.pos p.
Proof.
  induction p as [p (l & Hl & Hb & Hv)|p (l & Hl & Hb & Hv)|]; simpl.
  - exists (l ++ [c1]). split; [by apply of_string_app|].
    rewrite forallb_app, Hb, binary_value_snoc, Hv. simpl. split; [done|lia].
  - exists (l ++ [c0]). split; [by apply of_string_app|].
    rewrite forallb_app, Hb, binary_value_snoc, Hv. simpl. split; [done|lia].
  - by exists [c1].
Qed.

Lemma of_string_zeros k : of_string (zeros k) = Some (replicate k c0).
Proof.
  induction k as [|k IH]; [done|].
  change (zeros (S k)) with (String.append "0" (zeros k)).
  by rewrite (of_string_app "0" (zeros k) [c0] (replicate k c0)).
Qed.

Lemma forallb_replicate_c0 k : forallb is_binary (replicate k c0) = true.
Proof. induction k as [|k IH]; simpl; [done|]. apply IH. Qed.

(** The text that [format] writes has binary digits only, and they write
    the number. *)
Lemma of_string_format_binary n v :
  0 <= v →
  ∃ l, of_string (format_binary n v) = Some l
       ∧ forallb is_binary l = true
       ∧ binary_value l = v
       ∧ l ≠ [].
Proof.
  intros Hv. unfold format_binary.
  set (k := (Z.to_nat n - _)%nat). clearbody k.
  assert (∃ d, of_string (match v with Z.pos p => bits_of_positive p | _ => "0" end)
               = Some d ∧ forallb is_binary d = true ∧ binary_value d = v
               ∧ d ≠ []) as (d & Hd & Hb & Hval & Hne).
  { destruct v as [|p|p]; [by exists [c0]| |lia].
    destruct (of_string_bits_of_positive p) as (d & Hd & Hb & Hval).
    exists d. repeat split; try done. intros ->. by simpl in Hval. }
  exists (replicate k c0 ++ d). split.
  { apply of_string_app; [apply of_string_zeros|done]. }
  rewrite forallb_app, forallb_replicate_c0, Hb, binary_value_zeros.
  repeat split; try done. intros [_ ->]%app_eq_nil. done.
Qed.

Lemma int_2_binary l :
  l ≠ [] → forallb is_binary l = true → int_2 l = Return (binary_value l).
Proof.
  intros Hne Hb. destruct l as [|c l]; [done|].
  destruct c; simpl in Hb; try done; unfold int_2; simpl; by rewrite Hb.
Qed.

Lemma resolve_lh_binary l :
  forallb is_binary l = true → map resolve_lh l = l.
Proof.
  induction l as [|c l IH]; simpl; [done|].
  intros [Hc Hl]%andb_true_iff. rewrite (IH Hl). by destruct c.
Qed.

Lemma forallb_resolvable l :
  resolvable l → forallb is_binary (map resolve_lh l) = true.
Proof.
  induction 1 as [|c l Hc _ IH]; simpl; [done|]. by rewrite Hc, IH.
Qed.

Lemma _get_int_resolvable RESOLVE_X getrandbits l resolve :
  l ≠ [] → resolvable l →
  _get_int getrandbits RESOLVE_X l resolve
  = Return (binary_value (map resolve_lh l)).
Proof.
  intros Hne Hr. unfold _get_int.
  rewrite int_2_binary; [done| |by apply forallb_resolvable].
  by destruct l.
Qed.

Lemma shiftl_1 k : 0 <= k → Z.shiftl 1 k = 2 ^ k.
Proof. intros Hk. rewrite Z.shiftl_1_l. done. Qed.

Lemma pow2_half n : 0 < n → 2 ^ n = 2 * 2 ^ (n - 1).
Proof. intros Hn. rewrite <- Z.pow_succ_r by lia. f_equal. lia. Qed.

(** What [to_signed] makes of an unsigned value of [n] bits. *)
Lemma signed_of_unsigned n u :
  0 < n → 0 <= u < 2 ^ n →
  let r := if Z.shiftl 1 (n - 1) <=? u then u - Z.shiftl 1 n else u in
  - 2 ^ (n - 1) <= r < 2 ^ (n - 1) ∧ r mod 2 ^ n = u.
Proof.
  intros Hn Hu. rewrite !shiftl_1 by lia. pose proof (pow2_half n Hn) as Hp.
  destruct (Z.leb_spec (2 ^ (n - 1)) u); simpl; (split; [lia|]).
  - replace (u - 2 ^ n) with (u + (-1) * 2 ^ n) by lia.
    rewrite Z.mod_add by lia. apply Z.mod_small. lia.
  - apply Z.mod_small. lia.
Qed.

Lemma from_signed_returns n v s :
  0 <= n → from_signed v n = Return s →
  0 < n ∧ - 2 ^ n <= v < 2 ^ n ∧ s = format_binary n (v mod 2 ^ n).
Proof.
  intros Hn. unfold from_signed, LogicArray_of_int.
  set (v' := if v <? 0 then v + 2 ^ n else v).
  destruct (Z.ltb_spec v' 0) as [|Hpos]; [done|].
  destruct (Z.ltb_spec n (Z.max 1 (bit_length v'))) as [|Hfit]; [done|].
  intros [= <-].
  assert (0 < 2 ^ n) by (apply Z.pow_pos_nonneg; lia).
  assert (v' < 2 ^ n) as Hlt.
  { destruct v' as [|p|p] eqn:E; [lia| |lia].
    apply Z.log2_lt_pow2; [lia|]. unfold bit_length in Hfit.
    change (Z.abs (Z.pos p)) with (Z.pos p) in Hfit. lia. }
  split; [lia|].
  subst v'. destruct (Z.ltb_spec v 0).
  - split; [lia|]. f_equal.
    replace v with ((v + 2 ^ n) + (-1) * 2 ^ n) at 2 by lia.
    rewrite Z.mod_add by lia. symmetry. apply Z.mod_small. lia.
  - split; [lia|]. f_equal. symmetry. apply Z.mod_small. lia.
Qed.

Lemma from_signed_in_range n v :
  0 < n → - 2 ^ n <= v < 2 ^ n →
  from_signed v n = Return (format_binary n (v mod 2 ^ n)).
Proof.
  intros Hn Hv. unfold from_signed.
  assert (0 < 2 ^ n) by (apply Z.pow_pos_nonneg; lia).
  destruct (Z.ltb_spec v 0).
  - rewrite (proj2 (Z.ltb_ge (v + 2 ^ n) 0)) by lia.
    rewrite LogicArray_of_int_fits by lia. do 2 f_equal.
    replace v with ((v + 2 ^ n) + (-1) * 2 ^ n) at 2 by lia.
    rewrite Z.mod_add by lia. symmetry. apply Z.mod_small. lia.
  - rewrite (proj2 (Z.ltb_ge v 0)) by lia.
    rewrite LogicArray_of_int_fits by lia. do 2 f_equal.
    symmetry. apply Z.mod_small. lia.
Qed.

Lemma int_2_unknown l :
  Exists (λ c, unknown c = true) l →
  int_2 (map resolve_lh l)
  = Raise (ValueError "invalid literal for int() with base 2").
Proof.
  intros Hex.
  assert (∀ l, Exists (λ c, unknown c = true) l →
               forallb is_binary (map resolve_lh l) = false) as Hall.
  { clear. induction 1 as [c l Hc|c l _ IH]; simpl.
    - by destruct c.
    - rewrite IH. apply andb_false_r. }
  destruct l as [|c l]; [by apply Exists_nil in Hex|].
  pose proof (Hall _ Hex) as Hf. simpl in Hf.
  destruct c; simpl; unfold int_2; simpl; simpl in Hf; rewrite ?Hf; try done.
  apply Exists_cons in Hex as [?|Hex]; [done|].
  rewrite (Hall _ Hex). by destruct l.
Qed.

Lemma translate_error_unknown getrandbits l calls :
  Exists (λ c, unknown c = true) l →
  translate getrandbits _error_resolve_table (map resolve_lh l) calls
  = Raise (ValueError "Unresolvable bit in binary string").
Proof.
  induction 1 as [c l Hc|c l _ IH]; simpl.
  - by destruct c.
  - rewrite IH. by destruct (is_binary (resolve_lh c)).
Qed.

Lemma translate_fixed getrandbits table b l calls :
  (table = zeros_table ∧ b = c0) ∨ (table = ones_table ∧ b = c1) →
  translate getrandbits table (map resolve_lh l) calls
  = Return (map (resolved_with b) l).
Proof.
  intros Ht. induction l as [|c l IH]; simpl; [by destruct table|].
  rewrite IH. destruct Ht as [[-> ->]|[-> ->]]; by destruct c.
Qed.

Lemma translate_random getrandbits l calls :
  ∃ l', translate getrandbits _random_resolve_table (map resolve_lh l) calls
        = Return l'
        ∧ Forall2 (λ c c', if is_binary (resolve_lh c) then c' = resolve_lh c
                           else is_binary c' = true) l l'.
Proof.
  revert calls. induction l as [|c l IH]; intros calls; simpl.
  - by exists [].
  - destruct (is_binary (resolve_lh c)) eqn:Hc.
    + destruct (IH calls) as (l' & -> & Hl'). eexists. split; [done|].
      constructor; [by rewrite Hc|done].
    + destruct (IH (S calls)) as (l' & -> & Hl'). eexists. split; [done|].
      constructor; [|done]. rewrite Hc. by destruct (getrandbits calls).
Qed.

Lemma forallb_resolved_with b l :
  is_binary b = true → forallb is_binary (map (resolved_with b) l) = true.
Proof.
  intros Hb. induction l as [|c l IH]; simpl; [done|]. rewrite IH.
  unfold resolved_with. destruct (is_binary (resolve_lh c)) eqn:Hc; by rewrite ?Hc, ?Hb.
Qed.

Lemma Exists_not_nil {A} (P : A → Prop) l : Exists P l → l ≠ [].
Proof. by destruct 1. Qed.

Section conversions.

Variable getrandbits : nat → bool.
Variable RESOLVE_X : ResolveX.

Local Abbreviation to_unsigned := (to_unsigned getrandbits RESOLVE_X).
Local Abbreviation to_signed := (to_signed getrandbits RESOLVE_X).
Local Abbreviation _get_int := (_get_int getrandbits RESOLVE_X).
Local Abbreviation eq_int := (eq_int getrandbits RESOLVE_X).

(** X20.  [LogicArray.from_signed] of a width of [n] bits accepts the
    integers from [-2^n] to [2^n - 1] and no other, and
    [LogicArray.from_unsigned] those from [0] to [2^n - 1]; for a width of
    0 no integer is accepted. *)
Theorem from_signed_accepts_twice_the_signed_range (n v : Z) :
  0 <= n →
  ((∃ s, from_signed v n = Return s) ↔ 0 < n ∧ - 2 ^ n <= v < 2 ^ n)
  ∧ ((∃ s, from_unsigned v n = Return s) ↔ 0 < n ∧ 0 <= v < 2 ^ n).
Proof.
  intros Hn. split; split.
  - intros [s Hs]. destruct (from_signed_returns n v s Hn Hs) as (? & ? & _).
    done.
  - intros [Hpos Hv]. eexists. by apply from_signed_in_range.
  - intros [s Hs]. unfold from_unsigned in Hs.
    assert (0 <= v) as Hv0.
    { unfold LogicArray_of_int in Hs. by destruct (Z.ltb_spec v 0). }
    assert (from_signed v n = Return s) as Hs'.
    { unfold from_signed. by rewrite !(proj2 (Z.ltb_ge v 0)) by lia. }
    destruct (from_signed_returns n v s Hn Hs') as (? & ? & _). lia.
  - intros [Hpos Hv]. eexists. unfold from_unsigned.
    by apply LogicArray_of_int_fits.
Qed.

(** X21.  The text that [from_signed] writes for a width of [n] bits has
    [n] binary digits.  Read back from the simulator, [to_unsigned] gives
    the integer modulo [2^n], and [to_signed] the integer of the signed
    range that is equal to it modulo [2^n]: the integer itself when it is
    in that range. *)
Theorem a_written_integer_read_back (n v : Z) (s : string)
    (resolve : option resolve_arg) :
  0 <= n → from_signed v n = Return s →
  ∃ t r, of_string s = Some t
       ∧ Z.of_nat (length t) = n
       ∧ to_unsigned t resolve = Return (v mod 2 ^ n)
       ∧ to_signed t resolve = Return r
       ∧ - 2 ^ (n - 1) <= r < 2 ^ (n - 1)
       ∧ r mod 2 ^ n = v mod 2 ^ n
       ∧ (- 2 ^ (n - 1) <= v < 2 ^ (n - 1) → r = v).
Proof.
  intros Hn0 Hs.
  destruct (from_signed_returns n v s Hn0 Hs) as (Hn & Hv & ->).
  assert (0 < 2 ^ n) by (apply Z.pow_pos_nonneg; lia).
  pose proof (Z.mod_pos_bound v (2 ^ n) ltac:(lia)) as Hu.
  set (u := v mod 2 ^ n) in *.
  destruct (of_string_format_binary n u ltac:(lia)) as (t & Ht & Hb & Hval & Hne).
  assert (Z.of_nat (length t) = n) as Hlen.
  { rewrite (length_of_string _ _ Ht). by apply length_format_binary. }
  assert (_get_int t resolve = Return u) as Hget.
  { unfold LogicArrayValue._get_int. rewrite (resolve_lh_binary t Hb).
    by rewrite (int_2_binary t Hne Hb), Hval. }
  pose proof (signed_of_unsigned n u Hn Hu) as [Hr Hmod].
  cbv zeta in Hr, Hmod.
  set (r := if Z.shiftl 1 (n - 1) <=? u then _ else _) in *.
  exists t, r. split; [done|]. split; [done|].
  unfold LogicArrayValue.to_unsigned, LogicArrayValue.to_signed.
  destruct (decide (length t = 0%nat)) as [H0|_]; [lia|].
  rewrite Hget, Hlen. split; [done|].
  split; [subst r; by destruct (Z.shiftl 1 (n - 1) <=? u)|].
  split; [exact Hr|]. split; [exact Hmod|].
  intros Hv'.
  pose proof (pow2_half n Hn).
  assert (r mod 2 ^ n = v mod 2 ^ n) as Heq by done.
  assert ((r + 2 ^ (n - 1)) mod 2 ^ n = (v + 2 ^ (n - 1)) mod 2 ^ n) as Heq'.
  { by rewrite (Z.add_mod r), Heq, <- Z.add_mod by lia. }
  rewrite !Z.mod_small in Heq' by lia. lia.
Qed.

(** X22.  A text of the digits 0, 1, L and H, not empty, converts whatever
    [resolve] is: [to_unsigned] gives the number the digits write (L as 0,
    H as 1), between [0] and [2^n - 1] for [n] digits, and [to_signed] the
    integer of the signed range that is equal to it modulo [2^n]. *)
Theorem a_resolvable_text_converts_whatever_resolve_is (t : text) :
  t ≠ [] → resolvable t →
  let n := Z.of_nat (length t) in
  let u := binary_value (map resolve_lh t) in
  0 <= u < 2 ^ n
  ∧ ∃ r, - 2 ^ (n - 1) <= r < 2 ^ (n - 1) ∧ r mod 2 ^ n = u
         ∧ ∀ resolve, to_unsigned t resolve = Return u
                      ∧ to_signed t resolve = Return r.
Proof.
  intros Hne Hr n u.
  assert (0 < n) as Hn by (destruct t; [done|subst n; simpl; lia]).
  assert (0 <= u < 2 ^ n) as Hu.
  { subst u n. pose proof (binary_value_range (map resolve_lh t)) as H.
    by rewrite length_map in H. }
  split; [done|].
  destruct (signed_of_unsigned n u Hn Hu) as [Hrange Hmod].
  eexists. split; [exact Hrange|]. split; [exact Hmod|].
  intros resolve.
  unfold LogicArrayValue.to_unsigned, LogicArrayValue.to_signed.
  destruct (decide (length t = 0%nat)) as [H0|_]; [lia|].
  rewrite (_get_int_resolvable RESOLVE_X getrandbits t resolve Hne Hr).
  fold u n. split; [done|]. by destruct (Z.shiftl 1 (n - 1) <=? u).
Qed.

(** X23.  A text with an [X], [Z], [U] or [W] and the default [resolve]
    (or a member of [ResolveX]): [to_unsigned] and [to_signed] raise
    [KeyError], because [_resolve_tables] has the strings as its keys and
    not the members; the comparison with an [int] raises it too.  With
    ["error"] they raise [ValueError]. *)
Theorem an_unknown_bit_with_the_default_resolve (t : text) :
  Exists (λ c, unknown c = true) t →
  to_unsigned t None = Raise (KeyError "resolve")
  ∧ to_signed t None = Raise (KeyError "resolve")
  ∧ (∀ m, to_unsigned t (Some (Member m)) = Raise (KeyError "resolve")
          ∧ to_signed t (Some (Member m)) = Raise (KeyError "resolve"))
  ∧ (∀ other, eq_int t other = Raise (KeyError "resolve"))
  ∧ to_unsigned t (Some (Literal "error"))
    = Raise (ValueError "Unresolvable bit in binary string")
  ∧ to_signed t (Some (Literal "error"))
    = Raise (ValueError "Unresolvable bit in binary string").
Proof.
  intros Hex. pose proof (Exists_not_nil _ _ Hex) as Hne.
  assert (length t ≠ 0%nat) as Hlen by (by destruct t).
  assert (∀ r, _resolve_tables (default (Member RESOLVE_X) r) = None →
               _get_int t r = Raise (KeyError "resolve")) as Hkey.
  { intros r Hr. unfold LogicArrayValue._get_int. rewrite (int_2_unknown t Hex).
    destruct r as [r|]; simpl in *; by rewrite ?Hr. }
  assert (_get_int t (Some (Literal "error"))
          = Raise (ValueError "Unresolvable bit in binary string")) as Herr.
  { unfold LogicArrayValue._get_int. rewrite (int_2_unknown t Hex). simpl.
    by rewrite translate_error_unknown. }
  unfold LogicArrayValue.eq_int, LogicArrayValue.to_unsigned,
    LogicArrayValue.to_signed.
  destruct (decide (length t = 0%nat)) as [|_]; [done|].
  rewrite Herr, !(Hkey None) by done.
  repeat split; try done; by rewrite (Hkey (Some (Member m))).
Qed.

(** X24.  A text with an [X], [Z], [U] or [W] and [resolve] one of the
    strings ["zeros"], ["ones"], ["random"]: [to_unsigned] gives the
    number written by the text with every character that is no digit
    replaced by 0, by 1, or by a digit drawn for it; [L] and [H] count as
    the digits 0 and 1. *)
Theorem an_unknown_bit_is_resolved_by_zeros_ones_and_random (t : text) :
  Exists (λ c, unknown c = true) t →
  to_unsigned t (Some (Literal "zeros"))
  = Return (binary_value (map (resolved_with c0) t))
  ∧ to_unsigned t (Some (Literal "ones"))
    = Return (binary_value (map (resolved_with c1) t))
  ∧ ∃ t', to_unsigned t (Some (Literal "random")) = Return (binary_value t')
          ∧ Forall2 (λ c c', if is_binary (resolve_lh c)
                             then c' = resolve_lh c
                             else is_binary c' = true) t t'.
Proof.
  intros Hex. pose proof (Exists_not_nil _ _ Hex) as Hne.
  assert (length t ≠ 0%nat) as Hlen by (by destruct t).
  unfold LogicArrayValue.to_unsigned.
  destruct (decide (length t = 0%nat)) as [|_]; [done|].
  unfold LogicArrayValue._get_int. rewrite (int_2_unknown t Hex). simpl.
  rewrite (translate_fixed getrandbits zeros_table c0) by (by left).
  rewrite (translate_fixed getrandbits ones_table c1) by (by right).
  rewrite !int_2_binary; try (by apply forallb_resolved_with);
    try (by destruct t).
  split; [done|]. split; [done|].
  destruct (translate_random getrandbits t 0) as (t' & -> & Ht').
  exists t'. split; [|done].
  apply int_2_binary.
  - intros ->. apply Forall2_nil_inv_r in Ht'. done.
  - clear -Ht'. induction Ht' as [|c c' l l' Hc _ IH]; simpl; [done|].
    rewrite IH, andb_true_r.
    destruct (is_binary (resolve_lh c)) eqn:E; [by subst c'|done].
Qed.

(** X25.  A text that begins with [-] (don't care) and goes on with
    digits 0, 1, L, H only, at least one, is not taken as unresolved: the
    [-] is read as a minus sign, and [to_unsigned] and [to_signed] return
    minus the number the digits write, whatever [resolve] is. *)
Theorem a_leading_dont_care_is_read_as_a_minus_sign (digits : text)
    (resolve : option resolve_arg) :
  digits ≠ [] → resolvable digits →
  to_unsigned (cDash :: digits) resolve
  = Return (- binary_value (map resolve_lh digits))
  ∧ to_signed (cDash :: digits) resolve
    = Return (- binary_value (map resolve_lh digits)).
Proof.
  intros Hne Hr.
  unfold LogicArrayValue.to_unsigned, LogicArrayValue.to_signed.
  destruct (decide _) as [|_]; [done|].
  assert (_get_int (cDash :: digits) resolve
          = Return (- binary_value (map resolve_lh digits))) as ->.
  { unfold LogicArrayValue._get_int, int_2. simpl.
    rewrite (forallb_resolvable digits Hr). by destruct digits. }
  split; [done|].
  pose proof (binary_value_range (map resolve_lh digits)) as [H0 _].
  set (n := Z.of_nat (length (cDash :: digits))).
  assert (0 < Z.shiftl 1 (n - 1)).
  { rewrite shiftl_1 by (subst n; simpl; lia).
    apply Z.pow_pos_nonneg; subst n; simpl; lia. }
  rewrite (proj2 (Z.leb_gt _ _)) by lia. done.
Qed.

End conversions.

End LogicArrayFacts.

Module ValueObjectFacts.
Import OrderedDict OrderedDictFacts WriteScheduler WriteSchedulerFacts.
Import Handle HandleFacts ValueObject.

Local Open Scope Z_scope.

Section value_object_facts.

Variable invoke : bound_setter → setter_args → option exn.
Variable get_name_string : gpi_sim_hdl → string.
Variable get_const : gpi_sim_hdl → bool.
Variable get_signal_val_binstr : gpi_sim_hdl → string.
Variable _path : HandleObject.t → string.

Local Abbreviation set :=
  (ValueObject.set invoke get_name_string get_const get_signal_val_binstr _path).
Local Abbreviation setimmediatevalue :=
  (ValueObject.setimmediatevalue invoke get_const get_signal_val_binstr _path).
Local Abbreviation apply_scheduled_writes :=
  (WriteScheduler.apply_scheduled_writes invoke).

(** X27.  An immediate write does not cancel a pending one.  In the normal
    phase, [h.set(a)] followed by [h.setimmediatevalue(b)] on a logic array
    of at most 32 bits writes [b] to the simulator at once, with the
    action [NO_DELAY], and leaves the write of [a] pending: at the next
    [apply_scheduled_writes] the simulator is given [a], after the writes
    that were pending for other handles, so that it is the older value
    that stays. *)
Theorem an_immediate_write_does_not_cancel_the_pending_write
    (self : HandleObject.t) (a b : Z) (st : write_state) :
  let h := handle_of self in
  let n := HandleObject.get_num_elems self in
  let others := delitem (HandleObject.base self) (_write_calls st) in
  get_const h = false →
  n <= 32 → in_vector_range n a → in_vector_range n b →
  sim_phase st = NORMAL →
  OrderedDict.wf (_write_calls st) →
  Forall (λ c, invoke c.2.1 c.2.2 = None) others →
  invoke (h, set_signal_val_int) (DEPOSIT, PInt a) = None →
  invoke (h, set_signal_val_int) (NO_DELAY, PInt b) = None →
  ∃ st1 st2 st3,
    set self (Plain (Int a)) st = (Return tt, st1)
    ∧ setimmediatevalue self (Plain (Int b)) st1 = (Return tt, st2)
    ∧ _write_calls st2 = _write_calls st1
    ∧ apply_scheduled_writes st2 = (Return tt, st3)
    ∧ _write_calls st3 = []
    ∧ trace st3
      = trace st
        ++ map Callback (Event._pending_events (_writes_pending st))
        ++ [Call (h, set_signal_val_int) (NO_DELAY, PInt b)]
        ++ map call_of others
        ++ [Call (h, set_signal_val_int) (DEPOSIT, PInt a)].
Proof.
  intros h n others Hc Hn Ha Hb Hphase Hwf Hothers Hia Hib.
  unfold ValueObject.set, ValueObject.setimmediatevalue. fold h. rewrite Hc.
  simpl. unfold _set_value_with. fold n.
  rewrite !narrow_integer_is_passed_as_int by done. simpl. fold h.
  rewrite (schedule_write_normal invoke get_name_string) by done.
  unfold _write_now, run_call. rewrite Hib. simpl.
  do 3 eexists. split; [done|]. split; [done|]. split; [done|].
  unfold WriteScheduler.apply_scheduled_writes. simpl. fold others.
  rewrite (apply_loop_returns invoke).
  2:{ apply Forall_app. split; [done|]. by repeat constructor. }
  split; [done|]. split; [done|]. simpl.
  rewrite map_app. simpl. unfold call_of at 2. simpl.
  by rewrite <- !app_assoc.
Qed.

(** X28.  [Freeze] and [Release] write the value the simulator reports:
    [setimmediatevalue(Freeze())] calls [set_signal_val_binstr] at once
    with the action [FORCE] and the binary string read from the handle,
    [setimmediatevalue(Release())] with [RELEASE] and that string, in any
    phase and without touching the pending writes; [set] with these
    actions in the normal phase leaves the same write pending for the
    handle and calls nothing. *)
Theorem Freeze_and_Release_write_the_value_read_back
    (self : HandleObject.t) (st : write_state) :
  let h := handle_of self in
  let s := get_signal_val_binstr h in
  let now action :=
    (run_call invoke (h, set_signal_val_binstr) (action, PBinstr s),
     {| sim_phase := sim_phase st;
        _write_calls := _write_calls st;
        _writes_pending := _writes_pending st;
        trace := trace st
                 ++ [Call (h, set_signal_val_binstr) (action, PBinstr s)] |}) in
  let later action st' :=
    _write_calls st'
    = delitem (HandleObject.base self) (_write_calls st)
      ++ [(HandleObject.base self,
           ((h, set_signal_val_binstr), (action, PBinstr s)))]
    ∧ trace st'
      = trace st ++ map Callback (Event._pending_events (_writes_pending st)) in
  get_const h = false →
  Z.of_nat (String.length s) = HandleObject.get_num_elems self →
  setimmediatevalue self Freeze st = now FORCE
  ∧ setimmediatevalue self Release st = now RELEASE
  ∧ (sim_phase st = NORMAL → OrderedDict.wf (_write_calls st) →
     ∃ st1 st2, set self Freeze st = (Return tt, st1) ∧ later FORCE st1
                ∧ set self Release st = (Return tt, st2) ∧ later RELEASE st2).
Proof.
  intros h s now later Hc Hlen.
  unfold ValueObject.set, ValueObject.setimmediatevalue. fold h. rewrite Hc.
  simpl. unfold _set_value_with, value_of, _set_value, _set_value_in. fold h s.
  rewrite Hlen, Z.eqb_refl. simpl. fold h.
  split; [done|]. split; [done|].
  intros Hphase Hwf.
  rewrite !(schedule_write_normal invoke get_name_string) by done.
  do 2 eexists. by repeat split.
Qed.

End value_object_facts.

End ValueObjectFacts.

Module SingletonFacts.
Import Triggers TriggersFacts.

Section singleton_facts.
Variable get_sim_steps : Q → string → string → result Z.

Local Abbreviation construct := (Triggers.construct get_sim_steps).
Local Abbreviation construct_all := (Triggers.construct_all get_sim_steps).

(** X26.  A class decorated with [@singleton] ([ReadOnly], [ReadWrite],
    [NextTimeStep]) has one instance: once a call of the class has
    answered an object, every later call answers this object and changes
    nothing, whatever triggers were constructed in between; the instance
    is not initialised again. *)
Theorem a_singleton_is_constructed_once c h i h1 :
  construct (singleton_call c) h = (Return i, h1) →
  ∀ cs,
    let h2 := (construct_all cs h1).2 in
    construct (singleton_call c) h2 = (Return i, h2).
Proof.
  rewrite construct_singleton. intros [= <- <-] cs h2.
  pose proof (instance_singleton_new c h) as Hi.
  apply (instance_kept_construct_all get_sim_steps cs) in Hi. fold h2 in Hi.
  rewrite construct_singleton.
  assert (singleton_new c h2 = ((singleton_new c h).1, h2)) as ->; [|done].
  unfold singleton_new at 1. by rewrite Hi.
Qed.

End singleton_facts.

End SingletonFacts.

(** ** The properties above on the scenarios *)

Module PrimingScenarioFacts.
Import Triggers Scheduler WaitingScenario PrimingFacts.

Lemma ReadWrite_unprimed_twice :
  _unprime 0 (_unprime 0 primed).2 = (Return tt, (_unprime 0 primed).2).
Proof. apply (_unprime_twice 0 primed). vm_compute. reflexivity. Defined.

Lemma ReadWrite_primed_again :
  _prime sim_register (λ _, false) 0 _react_fn primed = (Return None, primed).
Proof.
  eapply (_prime_registers_once sim_register (λ _, false) 0 _sim_react_fn
            unprimed primed).
  - vm_compute. reflexivity.
  - reflexivity.
  - vm_compute. reflexivity.
Defined.

Lemma ReadWrite_primed_and_unprimed :
  ∃ req c h2,
    sim_register req = Some c
    ∧ _unprime 0 primed = (Return tt, h2)
    ∧ sim_calls h2 = sim_calls unprimed ++ [req; deregister c]
    ∧ objects h2 = objects unprimed.
Proof.
  eapply (prime_then_unprime sim_register (λ _, false) 0 _sim_react_fn
            unprimed primed).
  - vm_compute. reflexivity.
  - reflexivity.
  - reflexivity.
  - reflexivity.
  - vm_compute. reflexivity.
Defined.

End PrimingScenarioFacts.
(** Evaluating a decidable hypothesis of a scenario. *)
Ltac by_decide := apply (bool_decide_unpack _); vm_compute; exact I.

Module FailingWriteScenarioFacts.
Import WriteScheduler WriteScenario FailingWriteScenario AppliedWritesFacts.

Lemma the_second_write_fails :
  apply_scheduled_writes invoke scheduled
  = (Raise oops,
     {| sim_phase := sim_phase scheduled;
        _write_calls := [(H3, (W3, tt))];
        _writes_pending := _writes_pending scheduled;
        trace := trace scheduled ++ map call_of [(H1, (W1, tt))] ++ [Call W2 tt] |}).
Proof.
  apply (apply_scheduled_writes_stops_at_a_failure invoke scheduled
           [(H1, (W1, tt))] [(H3, (W3, tt))] H2 W2 tt oops).
  - vm_compute. reflexivity.
  - repeat constructor.
  - reflexivity.
Defined.

End FailingWriteScenarioFacts.

Module WaitingScenarioFacts.
Import OrderedDict Triggers Scheduler SchedulerLoop WaitingScenario.
Import WakingFacts FinishingFacts KilledFacts UnscheduleFacts StartingFacts.

Lemma no_waiters_exist w :
  _trigger2tasks w = ∅ → waiters_exist w.
Proof. intros H tr [l Hl]. rewrite H in Hl. by rewrite lookup_empty in Hl. Qed.

Lemma one_trigger_waiters_ok w tr l :
  _trigger2tasks w = {[ tr := l ]} →
  NoDup l → Forall (λ x, x ∉ keys (_scheduled_tasks w)) l →
  waiters_ok w.
Proof.
  intros H Hn Hf tr' l'. rewrite H. intros [<- <-]%lookup_singleton_Some.
  split; [done|]. by apply Forall_forall.
Qed.

Lemma one_trigger_waiters_exist w tr l :
  _trigger2tasks w = {[ tr := l ]} → tr < next_id (heap w) → waiters_exist w.
Proof.
  intros H Hlt tr' [l' Hl']. rewrite H in Hl'.
  by apply lookup_singleton_Some in Hl' as [<- _].
Qed.

Lemma both_waiting_react :
  ∃ w', _react 0 both_waiting = (Return tt, w')
    ∧ woken [0; 1] both_waiting w'
    ∧ _trigger2tasks w' = delete 0 (_trigger2tasks both_waiting)
    ∧ heap w' = _cleanup 0 (heap both_waiting).
Proof.
  edestruct (_react_wakes_the_waiters_in_order 0 [0; 1] both_waiting)
    as (w' & H1 & H2 & H3 & H4 & _).
  - vm_compute. reflexivity.
  - by_decide.
  - apply Forall_forall. by_decide.
  - exists w'. split; [exact H1|]. split; [exact H2|]. split; [exact H3|exact H4].
Defined.

Lemma awaiting_a_NullTrigger :
  ∃ w', _schedule_task_upon sim_register 0 1 with_NullTrigger = (Return tt, w')
    ∧ woken [0] with_NullTrigger w'
    ∧ heap w' = heap with_NullTrigger
    ∧ _trigger2tasks w' = _trigger2tasks with_NullTrigger.
Proof.
  eapply (a_trigger_that_fires_at_once_requeues_the_task sim_register 0 1
            with_NullTrigger).
  - vm_compute. reflexivity.
  - reflexivity.
  - by_decide.
  - vm_compute. reflexivity.
  - vm_compute. reflexivity.
  - reflexivity.
  - left. by eexists.
Defined.

Lemma awaiting_ReadWrite_when_the_simulator_refuses :
  ∃ w', _schedule_task_upon refuse 0 0 TaskScenario.popped = (Return tt, w')
    ∧ _scheduled_tasks w'
      = _scheduled_tasks TaskScenario.popped
        ++ [(0, Error (RuntimeError "Unable set up Trigger"))]
    ∧ _trigger2tasks w' = _trigger2tasks TaskScenario.popped
    ∧ trace w' = trace TaskScenario.popped.
Proof.
  edestruct (a_failed_priming_is_thrown_into_the_task refuse 0 0
               TaskScenario.popped) as (w' & H1 & H2 & _ & H3 & _ & H4).
  - vm_compute. reflexivity.
  - by_decide.
  - vm_compute. reflexivity.
  - vm_compute. reflexivity.
  - reflexivity.
  - vm_compute. reflexivity.
  - exists w'. repeat split; done.
Defined.

Lemma awaiting_waiters :
  _trigger2tasks AwaitScenario.awaiting = {[ 0 := [0] ]}.
Proof. vm_compute. reflexivity. Qed.

Lemma the_awaited_task_fails :
  ∃ w', _resume_task sim_register 1 _none_outcome (Raised AwaitScenario.oops)
          awaited_running = (Return tt, w')
    ∧ _scheduled_tasks w'
      = _scheduled_tasks awaited_running ++ [(0, _none_outcome)]
    ∧ (∃ T', tasks w' !! 1 = Some T'
             ∧ _state T' = FINISHED
             ∧ _outcome T' = Some (Error AwaitScenario.oops))
    ∧ _current_task w' = None.
Proof.
  edestruct (an_ended_task_wakes_the_tasks_that_await_it sim_register 1
               _none_outcome (Raised AwaitScenario.oops)
               (Error AwaitScenario.oops) awaited_running)
    as (w' & H1 & H2 & H3 & _ & _ & _ & H4).
  - reflexivity.
  - reflexivity.
  - vm_compute. reflexivity.
  - reflexivity.
  - by_decide.
  - reflexivity.
  - exists 0. split; vm_compute; reflexivity.
  - by_decide.
  - by_decide.
  - apply Forall_forall. by_decide.
  - exists w'. repeat split; done.
Defined.

Lemma the_only_task_fails :
  ∃ w', _resume_task sim_register 0 _none_outcome (Raised (UserError 1))
          TaskScenario.popped = (Raise SystemExit, w')
    ∧ trace w'
      = trace TaskScenario.popped
        ++ [coro_send 0 _none_outcome;
            done_callback _task_done_callback 0;
            log_error 0 (UserError 1)]
    ∧ (∃ T', tasks w' !! 0 = Some T'
             ∧ _state T' = FINISHED ∧ _outcome T' = Some (Error (UserError 1)))
    ∧ _scheduled_tasks w' = _scheduled_tasks TaskScenario.popped
    ∧ _trigger2tasks w' = _trigger2tasks TaskScenario.popped
    ∧ _current_task w' = None.
Proof.
  eapply (a_failure_that_nobody_awaits_ends_the_simulation sim_register 0
            _none_outcome (UserError 1) TaskScenario.popped).
  - reflexivity.
  - vm_compute. reflexivity.
  - discriminate.
  - vm_compute. exact I.
  - apply no_waiters_exist. vm_compute. reflexivity.
Defined.

Lemma the_awaited_task_is_killed_or_cancelled :
  (∃ w', kill 1 AwaitScenario.awaiting = (Return tt, w')
     ∧ (∀ a, a ∈ [0] → get a (_scheduled_tasks w') = Some (Value PyNone))
     ∧ Task___await__ 1 (Value PyNone) w' = Return PyNone)
  ∧ (∀ msg, ∃ w', cancel 1 msg AwaitScenario.awaiting = (Return tt, w')
     ∧ (∀ a, a ∈ [0] → get a (_scheduled_tasks w') = Some (Value PyNone))
     ∧ Task___await__ 1 (Value PyNone) w' = Raise (CancelledError msg)).
Proof.
  eapply (awaiting_a_task_that_is_killed_or_cancelled AwaitScenario.awaiting
            1 _ 0 [0]).
  - vm_compute. reflexivity.
  - reflexivity.
  - unfold queue_ok, wf. by_decide.
  - apply (one_trigger_waiters_ok _ 0 [0] awaiting_waiters); by_decide.
  - intros tr l. rewrite awaiting_waiters.
    intros [<- <-]%lookup_singleton_Some Hin.
    by apply list_elem_of_singleton in Hin.
  - intros tr. discriminate.
  - discriminate.
  - reflexivity.
  - reflexivity.
  - vm_compute. reflexivity.
  - discriminate.
Defined.

Lemma the_last_waiter_is_unscheduled :
  ∃ w' l', _unschedule 0 TaskScenario.pending = (Return tt, w')
    ∧ PyList.remove 0 [0] = Some l'
    ∧ (l' = [] →
         _trigger2tasks w' !! 0 = None
         ∧ sim_calls (heap w')
           = sim_calls (heap TaskScenario.pending) ++ [deregister 7]).
Proof.
  edestruct (the_last_waiter_to_leave_deregisters_the_trigger 0 0
               TaskScenario.pending TaskScenario.pending_task [0])
    as (w' & l' & H1 & H2 & _ & H3).
  - vm_compute. reflexivity.
  - reflexivity.
  - apply (one_trigger_waiters_ok _ 0 [0]); [vm_compute; reflexivity| |];
      by_decide.
  - apply (one_trigger_waiters_exist _ 0 [0]); [vm_compute; reflexivity|].
    vm_compute. lia.
  - vm_compute. reflexivity.
  - by_decide.
  - vm_compute. reflexivity.
  - reflexivity.
  - reflexivity.
  - discriminate.
  - exists w', l'. split; [done|]. split; [done|].
    intros Hl. destruct (H3 Hl) as (? & _ & ?). done.
Defined.

Lemma a_second_task_is_started :
  ∃ w', start_soon TaskScenario.started = (Return 1, w')
    ∧ _scheduled_tasks w' = [(0, _none_outcome); (1, _none_outcome)]
    ∧ trace w' = trace TaskScenario.started
    ∧ heap w' = heap TaskScenario.started.
Proof.
  edestruct (start_soon_queues_the_new_task_last TaskScenario.started)
    as (w' & H1 & H2 & _ & _ & H3 & H4 & _).
  - by_decide.
  - exists w'. repeat split; done.
Defined.

End WaitingScenarioFacts.
Module EventScenarioFacts.
Import OrderedDict Triggers Scheduler SchedulerLoop EventScenario EventFacts.
Import WaitingScenarioFacts.

Lemma waiting0_primed tr : tr ∈ [0] → primed_for waiting0 0 tr.
Proof.
  intros ->%list_elem_of_singleton. eexists. split; [vm_compute; reflexivity|].
  by split.
Qed.

Lemma running1_primed tr : tr ∈ [0] → primed_for running1 0 tr.
Proof.
  intros ->%list_elem_of_singleton. eexists. split; [vm_compute; reflexivity|].
  by split.
Qed.

Lemma the_event_is_set :
  ∃ w', Event_set _sim_react 0 waiting0 = (Return tt, w')
    ∧ _scheduled_tasks w' = [(1, _none_outcome); (0, _none_outcome)]
    ∧ events (heap w') !! 0
      = Some {| Event._pending_events := []; Event._fired := true |}
    ∧ Event_set _sim_react 0 w' = (Return tt, w').
Proof.
  edestruct (Event_set_wakes_the_waiting_tasks _sim_react 0 waiting0)
    as (w' & H1 & (H2 & _) & H3 & _ & H4).
  - vm_compute. reflexivity.
  - by_decide.
  - exact waiting0_primed.
  - by_decide.
  - apply Forall_forall. by_decide.
  - exists w'. repeat split; done.
Defined.

Lemma awaiting_the_event_that_is_set :
  ∃ w', _schedule_task_upon sim_register 0
          (Event_wait Event___repr__ 0 (heap set_early)).1
          (set_heap (λ _, (Event_wait Event___repr__ 0 (heap set_early)).2)
             set_early) = (Return tt, w')
    ∧ woken [0] set_early w'
    ∧ _trigger2tasks w' = _trigger2tasks set_early.
Proof.
  eapply (awaiting_a_set_event_does_not_block sim_register Event___repr__ 0
            set_early).
  - vm_compute. reflexivity.
  - reflexivity.
  - vm_compute. reflexivity.
  - reflexivity.
  - by_decide.
  - apply no_waiters_exist. vm_compute. reflexivity.
Defined.

Lemma one_object_heap_ok h tr t :
  objects h = {[ tr := t ]} → tr < next_id h → heap_ok h.
Proof.
  intros H Hlt tr' [t' Ht']. rewrite H in Ht'.
  by apply lookup_singleton_Some in Ht' as [<- _].
Qed.

Lemma a_second_task_awaits_the_event :
  ∃ w1 w2,
    _schedule_task_upon sim_register 1
      (Event_wait Event___repr__ 0 (heap running1)).1
      (set_heap (λ _, (Event_wait Event___repr__ 0 (heap running1)).2)
         running1) = (Return tt, w1)
    ∧ (1 ∉ keys (_scheduled_tasks w1))
    ∧ Event_set _sim_react 0 w1 = (Return tt, w2)
    ∧ _scheduled_tasks w2 = [(0, _none_outcome); (1, _none_outcome)].
Proof.
  edestruct (a_task_that_awaits_an_event_is_woken_by_set sim_register
               Event___repr__ _sim_react 0 running1
               {| Event._pending_events := [0]; Event._fired := false |} 1)
    as (w1 & w2 & H1 & H2 & H3 & H4).
  - vm_compute. reflexivity.
  - reflexivity.
  - by_decide.
  - exact running1_primed.
  - by_decide.
  - apply Forall_forall. by_decide.
  - vm_compute. reflexivity.
  - by_decide.
  - by_decide.
  - apply (one_trigger_waiters_exist _ 0 [0]); [vm_compute; reflexivity|].
    vm_compute. lia.
  - eapply (one_object_heap_ok _ 0); [vm_compute; reflexivity|].
    vm_compute. lia.
  - exists w1, w2. repeat split; done.
Defined.

End EventScenarioFacts.
Module DesignScenarioFacts.
Import Hierarchy DesignScenario HierarchyFacts.

Lemma store_ok_init : store_ok init.
Proof.
  split.
  - intros obj [o Ho]. simpl in Ho. by rewrite lookup_empty in Ho.
  - intros h obj Ho. simpl in Ho. by rewrite lookup_empty in Ho.
Qed.

Lemma store_ok_with_top : store_ok with_top.
Proof.
  apply (SimHandle_ok get_type get_name_string get_type_string 1 None init
           store_ok_init).
Qed.

Lemma only_supported_with_top : only_supported get_type with_top.
Proof.
  intros h obj Ho.
  assert (_handle2obj with_top = {[ 1 := 0 ]}) as E by (vm_compute; reflexivity).
  rewrite E in Ho. by apply lookup_singleton_Some in Ho as [<- _].
Qed.

Lemma top_is_made_once :
  SimHandle get_type get_name_string get_type_string 1 (Some "dut") explored
  = (Returns 0, explored)
  ∧ ∃ o2, objects explored !! 0 = Some o2
          ∧ _handle o2 = 1 ∧ _path o2 = "top".
Proof.
  apply (SimHandle_answers_one_object_for_a_handle get_type get_name_string
           get_type_string get_handle_by_name_ get_handle_by_index_ iterate
           str_int repr_str 1 None init 0 with_top top store_ok_init).
  - vm_compute. reflexivity.
  - vm_compute. reflexivity.
Defined.

Lemma clk_is_looked_up_once :
  ∃ st1,
    HierarchyObject___getitem__ get_type get_name_string get_type_string
      get_handle_by_name_ 0 "clk" with_top = (Returns 1, st1)
    ∧ HierarchyObject___getitem__ get_type get_name_string get_type_string
        get_handle_by_name_ 0 "clk" st1 = (Returns 1, st1)
    ∧ HierarchyObject___getattr__ get_type get_name_string get_type_string
        get_handle_by_name_ repr_str 0 "clk" st1 = (Returns 1, st1).
Proof.
  eexists. split; [vm_compute; reflexivity|].
  edestruct (a_child_is_asked_of_the_simulator_once get_type get_name_string
               get_type_string get_handle_by_name_ repr_str 0 "clk" with_top 1)
    as (H1 & H2 & _).
  - exact store_ok_with_top.
  - vm_compute. reflexivity.
  - split; [exact H1|]. by apply H2.
Defined.

Lemma nope_is_no_child :
  HierarchyObject___getitem__ get_type get_name_string get_type_string
    get_handle_by_name_ 0 "nope" with_top
  = (Raises (Std (KeyError "top contains no child object named nope")),
     log_query (get_handle_by_name 1 "nope") with_top)
  ∧ HierarchyObject___getattr__ get_type get_name_string get_type_string
      get_handle_by_name_ repr_str 0 "nope" with_top
    = (Raises (Std (AttributeError "'top contains no child object named nope'")),
       log_query (get_handle_by_name 1 "nope") with_top).
Proof.
  edestruct (a_missing_child_is_not_cached get_type get_name_string
               get_type_string get_handle_by_name_ repr_str 0 "nope" with_top
               top) as (H1 & H2 & _).
  - vm_compute. reflexivity.
  - reflexivity.
  - reflexivity.
  - split; [exact H1|]. by apply H2.
Defined.


End DesignScenarioFacts.
Module LogicArrayScenarioFacts.
Import Handle LogicArrayValue LogicArrayFacts.

Local Open Scope Z_scope.

Lemma four_bits_accept_minus_16 :
  ((∃ s, from_signed (-16) 4 = Return s) ↔ 0 < 4 ∧ - 2 ^ 4 <= -16 < 2 ^ 4)
  ∧ ((∃ s, from_unsigned (-16) 4 = Return s) ↔ 0 < 4 ∧ 0 <= -16 < 2 ^ 4).
Proof.
  apply (from_signed_accepts_twice_the_signed_range 4 (-16)). lia.
Defined.

Lemma minus_3_in_four_bits :
  ∃ t r, of_string "1101" = Some t
       ∧ Z.of_nat (length t) = 4
       ∧ to_unsigned (λ _, false) VALUE_ERROR t None = Return (-3 mod 2 ^ 4)
       ∧ to_signed (λ _, false) VALUE_ERROR t None = Return r
       ∧ - 2 ^ (4 - 1) <= r < 2 ^ (4 - 1)
       ∧ r mod 2 ^ 4 = -3 mod 2 ^ 4
       ∧ (- 2 ^ (4 - 1) <= -3 < 2 ^ (4 - 1) → r = -3).
Proof.
  apply (a_written_integer_read_back (λ _, false) VALUE_ERROR 4 (-3) "1101"
           None).
  - lia.
  - vm_compute. reflexivity.
Defined.

Lemma the_text_H0L1 :
  0 <= 9 < 2 ^ 4
  ∧ ∃ r, - 2 ^ (4 - 1) <= r < 2 ^ (4 - 1)
         ∧ r mod 2 ^ 4 = 9
         ∧ ∀ resolve,
             to_unsigned (λ _, false) VALUE_ERROR [cH; c0; cL; c1] resolve
             = Return 9
             ∧ to_signed (λ _, false) VALUE_ERROR [cH; c0; cL; c1] resolve
               = Return r.
Proof.
  apply (a_resolvable_text_converts_whatever_resolve_is (λ _, false)
           VALUE_ERROR [cH; c0; cL; c1]).
  - discriminate.
  - repeat constructor.
Defined.

Lemma the_text_1X0 :
  to_unsigned (λ _, false) VALUE_ERROR [c1; cX; c0] None
  = Raise (KeyError "resolve")
  ∧ eq_int (λ _, false) VALUE_ERROR [c1; cX; c0] 4 = Raise (KeyError "resolve")
  ∧ to_unsigned (λ _, false) VALUE_ERROR [c1; cX; c0] (Some (Literal "error"))
    = Raise (ValueError "Unresolvable bit in binary string").
Proof.
  edestruct (an_unknown_bit_with_the_default_resolve (λ _, false) VALUE_ERROR
               [c1; cX; c0]) as (H1 & _ & _ & H2 & H3 & _).
  - apply Exists_cons_tl, Exists_cons_hd. reflexivity.
  - split; [exact H1|]. split; [apply H2|exact H3].
Defined.

Lemma the_text_1X0_resolved :
  to_unsigned (λ _, true) VALUE_ERROR [c1; cX; c0] (Some (Literal "zeros"))
  = Return 4
  ∧ to_unsigned (λ _, true) VALUE_ERROR [c1; cX; c0] (Some (Literal "ones"))
    = Return 6
  ∧ ∃ t', to_unsigned (λ _, true) VALUE_ERROR [c1; cX; c0]
            (Some (Literal "random")) = Return (binary_value t')
          ∧ Forall2 (λ c c', if is_binary (resolve_lh c)
                             then c' = resolve_lh c
                             else is_binary c' = true) [c1; cX; c0] t'.
Proof.
  apply (an_unknown_bit_is_resolved_by_zeros_ones_and_random (λ _, true)
           VALUE_ERROR [c1; cX; c0]).
  apply Exists_cons_tl, Exists_cons_hd. reflexivity.
Defined.

Lemma the_text_dash_1 :
  to_unsigned (λ _, false) VALUE_ERROR [cDash; c1] None = Return (-1)
  ∧ to_signed (λ _, false) VALUE_ERROR [cDash; c1] None = Return (-1).
Proof.
  apply (a_leading_dont_care_is_read_as_a_minus_sign (λ _, false) VALUE_ERROR
           [c1] None).
  - discriminate.
  - repeat constructor.
Defined.

End LogicArrayScenarioFacts.
Module SetScenarioFacts.
Import OrderedDict WriteScheduler Handle ValueObject SetScenario ValueObjectFacts.

Lemma set_5_then_3_at_once :
  ∃ st1 st2 st3,
    set invoke WriteScenario.get_name_string get_const get_signal_val_binstr
      _path TriggerScenario.nibble (Plain (Int 5)) loaded = (Return tt, st1)
    ∧ setimmediatevalue invoke get_const get_signal_val_binstr _path
        TriggerScenario.nibble (Plain (Int 3)) st1 = (Return tt, st2)
    ∧ apply_scheduled_writes invoke st2 = (Return tt, st3)
    ∧ trace st3
      = [Call (2, set_signal_val_int) (NO_DELAY, PInt 3);
         Call (2, set_signal_val_int) (DEPOSIT, PInt 5)].
Proof.
  edestruct (an_immediate_write_does_not_cancel_the_pending_write invoke
               WriteScenario.get_name_string get_const get_signal_val_binstr
               _path TriggerScenario.nibble 5 3 loaded)
    as (st1 & st2 & st3 & H1 & H2 & _ & H3 & _ & H4).
  - reflexivity.
  - vm_compute. discriminate.
  - unfold in_vector_range. simpl. lia.
  - unfold in_vector_range. simpl. lia.
  - reflexivity.
  - apply NoDup_nil_2.
  - constructor.
  - reflexivity.
  - reflexivity.
  - exists st1, st2, st3. repeat split; done.
Defined.

Lemma nibble_is_frozen_and_released :
  setimmediatevalue invoke get_const get_signal_val_binstr _path
    TriggerScenario.nibble Freeze loaded
  = (Return tt,
     {| sim_phase := NORMAL; _write_calls := [];
        _writes_pending := Event.init;
        trace := [Call (2, set_signal_val_binstr) (FORCE, PBinstr "10XZ")] |})
  ∧ setimmediatevalue invoke get_const get_signal_val_binstr _path
      TriggerScenario.nibble Release loaded
    = (Return tt,
       {| sim_phase := NORMAL; _write_calls := [];
          _writes_pending := Event.init;
          trace := [Call (2, set_signal_val_binstr) (RELEASE, PBinstr "10XZ")] |}).
Proof.
  edestruct (Freeze_and_Release_write_the_value_read_back invoke
               WriteScenario.get_name_string get_const get_signal_val_binstr
               _path TriggerScenario.nibble loaded) as (H1 & H2 & _).
  - reflexivity.
  - reflexivity.
  - split; [exact H1|exact H2].
Defined.

End SetScenarioFacts.

Module SingletonScenarioFacts.
Import Triggers TriggerScenario SingletonScenario SingletonFacts.

Lemma ReadWrite_again :
  construct get_sim_steps new_ReadWrite later = (Return 0, later).
Proof.
  apply (a_singleton_is_constructed_once get_sim_steps SReadWrite empty_heap
           0 first.2).
  vm_compute. reflexivity.
Defined.

End SingletonScenarioFacts.
